(** * Blocky: goal scoring, flattening and computer players

    A shallow embedding of [blocks/settings.py], [blocks/goal.py] and
    [blocks/player.py], followed by the properties proved about them.

    Python integers are unbounded and are modelled by [Z]; Python lists are
    Rocq lists read with stdpp's lookup and written with stdpp's insert, the
    out-of-range behaviour of Python (an [IndexError], or wrap-around for a
    negative index) being written out.  Exceptions are values of [exn]
    carried by [result]. *)

From Stdlib Require Import ZArith List Lia Bool String Permutation.
From stdpp Require Import base option list gmap strings relations.

Local Open Scope Z_scope.

(** ** Exceptions and results *)

Inductive exn : Type :=
| ZeroDivisionError
| IndexError
| TypeError
| ValueError
| AttributeError
| UnknownColourError
| OverflowError
| RecursionError.

(** [OutOfFuel] is not a Python exception: it marks a run of the model of a
    [while] loop that used up the iterations it was given. *)
Inductive result (A : Type) : Type :=
| Ok (a : A)
| Raise (e : exn)
| OutOfFuel.

Arguments Ok {A} a.
Arguments Raise {A} e.
Arguments OutOfFuel {A}.

(** Sequencing: the first exception raised ends the computation. *)
#[global] Instance result_bind : MBind result := fun A B k m =>
  match m with
  | Ok a => k a
  | Raise e => Raise e
  | OutOfFuel => OutOfFuel
  end.

#[global] Instance result_ret : MRet result := fun A a => Ok a.

(** A [for] loop over the elements of [l], threading the loop state. *)
Fixpoint for_each {A S : Type} (l : list A) (body : A -> S -> result S) (s : S)
  : result S :=
  match l with
  | [] => Ok s
  | a :: l' => s' ← body a s; for_each l' body s'
  end.

(** [range(n)] *)
Definition range (n : nat) : list nat := seq 0 n.

(** Python's list index: a negative index counts from the end. *)
Definition py_index (len : nat) (i : Z) : result nat :=
  if (0 <=? i) && (i <? Z.of_nat len) then Ok (Z.to_nat i)
  else if (- Z.of_nat len <=? i) && (i <? 0) then Ok (Z.to_nat (i + Z.of_nat len))
  else Raise IndexError.

(** [l[i]] *)
Definition getitem {A : Type} (l : list A) (i : Z) : result A :=
  k ← py_index (length l) i;
  match l !! k with
  | Some a => Ok a
  | None => Raise IndexError
  end.

(** [l[i] = v] *)
Definition setitem {A : Type} (l : list A) (i : Z) (v : A) : result (list A) :=
  k ← py_index (length l) i;
  Ok (<[k := v]> l).

(** [g[x][y]] *)
Definition getitem2 {A : Type} (g : list (list A)) (x y : Z) : result A :=
  col ← getitem g x; getitem col y.

(** [g[x][y] = v]: the column object [g[x]] is updated in place. *)
Definition setitem2 {A : Type} (g : list (list A)) (x y : Z) (v : A)
  : result (list (list A)) :=
  col ← getitem g x;
  col' ← setitem col y v;
  setitem g x col'.

(** [a // b] *)
Definition floordiv (a b : Z) : result Z :=
  if b =? 0 then Raise ZeroDivisionError else Ok (a / b).

(** [float(z)] raises [OverflowError] when the integer [z] rounds to a double
    beyond the largest finite one, 2^1024 - 2^971: from 2^1024 - 2^970 on. *)
Definition float_overflows (z : Z) : bool := 2 ^ 1024 - 2 ^ 970 <=? Z.abs z.

(** [2 ** e] for a negative integer [e] is the float 2^e; from e = -1075 on it
    has underflowed to [0.0]. *)
Definition pow2_underflows (e : Z) : bool := e <? -1074.

(** ** settings.py *)

Module Settings.

Definition Colour : Type := Z * Z * Z.

Definition WHITE : Colour := (255, 255, 255).
Definition BLACK : Colour := (0, 0, 0).
Definition PACIFIC_POINT : Colour := (1, 128, 181).
Definition OLD_OLIVE : Colour := (138, 151, 71).
Definition REAL_RED : Colour := (199, 44, 58).
Definition MELON_MAMBO : Colour := (234, 62, 112).
Definition DAFFODIL_DELIGHT : Colour := (255, 211, 92).
Definition TEMPTING_TURQUOISE : Colour := (75, 196, 213).

Definition COLOUR_LIST : list Colour :=
  [PACIFIC_POINT; REAL_RED; OLD_OLIVE; DAFFODIL_DELIGHT].

Definition BOARD_SIZE : Z := 800.

(** The dictionary literal of [colour_name], in the order it is written. *)
Definition colour_names : list (Colour * string) :=
  [(PACIFIC_POINT, "Pacific Point"%string);
   (REAL_RED, "Real Red"%string);
   (OLD_OLIVE, "Old Olive"%string);
   (DAFFODIL_DELIGHT, "Daffodil Delight"%string)].

(** [d[k]] for a dictionary given by its items. *)
Fixpoint dict_get {V : Type} (d : list (Colour * V)) (k : Colour) : option V :=
  match d with
  | [] => None
  | (k', v) :: d' => if decide (k = k') then Some v else dict_get d' k
  end.

Definition colour_name (colour : Colour) : result string :=
  match dict_get colour_names colour with
  | Some name => Ok name
  | None => Raise UnknownColourError
  end.

End Settings.

Export Settings.

(** ** The board *)

(** Modelled from the spec: [blocks/block.py] is not part of the sources at
    hand; a Block is the record of the attributes that [goal.py] and
    [player.py] read ([position], [size], [colour], [level], [max_depth],
    [children]).  A missing colour is Python's [None]. *)
#[local] Unset Elimination Schemes.
Inductive Block : Type :=
  mkBlock {
    position : Z * Z;
    size : Z;
    colour : option Colour;
    level : Z;
    max_depth : Z;
    children : list Block
  }.
#[local] Set Elimination Schemes.

(** A flattened board: a list of columns; a cell never assigned holds
    Python's [None]. *)
Abbreviation Grid := (list (list (option Colour))).

(** ** goal.py: flatten *)

(** All index pairs [(i, j)] of [for i in range(n): for j in range(n)],
    in the order the loops visit them. *)
Definition range2 (n : nat) : list (nat * nat) :=
  i ← range n; (λ j, (i, j)) <$> range n.

(** The assignments performed for one child: the loop body
    [x = ...; y = ...; final[x][y] = temp[j][i]]. *)
Definition splice_cell (block child : Block) (unit_size : Z) (temp : Grid)
    (ij : nat * nat) (final : Grid) : result Grid :=
  let '(i, j) := ij in
  dx ← floordiv (fst (position child) - fst (position block)) unit_size;
  let x := dx + Z.of_nat j in
  dy ← floordiv (snd (position child) - snd (position block)) unit_size;
  let y := dy + Z.of_nat i in
  v ← getitem2 temp (Z.of_nat j) (Z.of_nat i);
  setitem2 final x y v.

Definition splice (block child : Block) (unit_size : Z) (temp : Grid)
    (final : Grid) : result Grid :=
  for_each (range2 (length temp)) (splice_cell block child unit_size temp) final.

(** The leaf case: [final[j][i] = block.colour] for every [i], [j]. *)
Definition fill (n : nat) (c : option Colour) (final : Grid) : result Grid :=
  for_each (range2 n)
    (fun '(i, j) final => setitem2 final (Z.of_nat j) (Z.of_nat i) c) final.

(** What [flatten] raises on a block with [max_depth < level], where
    [e = max_depth - level] is negative: [size = 2 ** e] converts [e] to a
    float; [unit_size = block.size // size] converts [block.size] to a float
    and divides by [size]; [range(size)] refuses a float. *)
Definition flatten_float (sz e : Z) : exn :=
  if float_overflows e then OverflowError
  else if float_overflows sz then OverflowError
  else if pow2_underflows e then ZeroDivisionError
  else TypeError.

Fixpoint flatten (block : Block) : result Grid :=
  match block with
  | mkBlock pos sz col lvl md chs =>
    if md - lvl <? 0 then Raise (flatten_float sz (md - lvl)) else
    let n := Z.to_nat (2 ^ (md - lvl)) in
    let unit_size := sz / 2 ^ (md - lvl) in
    let final := replicate n (replicate n None) in
    match col with
    | Some c => fill n (Some c) final
    | None =>
      (fix children_loop (cs : list Block) (final : Grid) {struct cs}
         : result Grid :=
         match cs with
         | [] => Ok final
         | child :: cs' =>
           temp ← flatten child;
           final' ← splice block child unit_size temp final;
           children_loop cs' final'
         end) chs final
    end
  end.

(** ** goal.py: the goals *)

Inductive GoalKind : Type := PerimeterGoal | BlobGoal.

(** A goal is one of the two subclasses of [Goal] with its target colour. *)
Record Goal : Type := mkGoal { kind : GoalKind; target : Colour }.

(** [if cell == self.colour: count += 1] *)
Definition count_if (cell : option Colour) (target : Colour) (count : Z) : Z :=
  if decide (cell = Some target) then count + 1 else count.

Definition PerimeterGoal_scan (target : Colour) (grid : Grid) (i : nat) (count : Z)
  : result Z :=
  let n := Z.of_nat (length grid) in
  c ← getitem2 grid 0 (Z.of_nat i);
  let count := count_if c target count in
  c ← getitem2 grid (Z.of_nat i) 0;
  let count := count_if c target count in
  c ← getitem2 grid (Z.of_nat i) (n - 1);
  let count := count_if c target count in
  c ← getitem2 grid (n - 1) (Z.of_nat i);
  let count := count_if c target count in
  Ok count.

Definition PerimeterGoal_score (target : Colour) (board : Block) : result Z :=
  grid ← flatten board;
  for_each (range (length grid)) (PerimeterGoal_scan target grid) 0.

(** The visitation map of [BlobGoal]: -1 unvisited, 0 visited and not of the
    target colour, 1 visited and of the target colour. *)
Abbreviation Visited := (list (list Z)).

(** [_undiscovered_blob_size] returns the count and leaves [visited]
    updated.  Python bounds the depth of its call stack: a call nested deeper
    than the recursion limit of the interpreter (1000 frames unless
    [sys.setrecursionlimit] changed it) raises [RecursionError].  [fuel] is
    the number of frames that the limit still leaves for the call and the
    calls nested in it. *)
Fixpoint _undiscovered_blob_size (fuel : nat) (target : Colour) (pos : Z * Z)
    (board : Grid) (visited : Visited) : result (Z * Visited) :=
  match fuel with
  | O => Raise RecursionError
  | S fuel' =>
    let n := Z.of_nat (length board) in
    if (pos.1 <? 0) || (pos.1 >=? n) || (pos.2 <? 0) || (pos.2 >=? n)
    then Ok (0, visited)
    else
      colour ← getitem2 board pos.1 pos.2;
      let count := 0 in
      v ← getitem2 visited pos.1 pos.2;
      if negb (v =? -1) then Ok (0, visited)
      else if negb (bool_decide (colour = Some target)) then
        visited ← setitem2 visited pos.1 pos.2 0;
        Ok (0, visited)
      else
        visited ← setitem2 visited pos.1 pos.2 1;
        '(c, visited) ← _undiscovered_blob_size fuel' target (pos.1 + 1, pos.2) board visited;
        let count := count + c in
        '(c, visited) ← _undiscovered_blob_size fuel' target (pos.1 - 1, pos.2) board visited;
        let count := count + c in
        '(c, visited) ← _undiscovered_blob_size fuel' target (pos.1, pos.2 + 1) board visited;
        let count := count + c in
        '(c, visited) ← _undiscovered_blob_size fuel' target (pos.1, pos.2 - 1) board visited;
        let count := count + c in
        Ok (count + 1, visited)
  end.

(** [max(l)] *)
Definition py_max (l : list Z) : result Z :=
  match l with
  | [] => Raise ValueError
  | x :: l' => Ok (foldl Z.max x l')
  end.

(** The double loop of [BlobGoal.score]; the state is [(final, visited)]. *)
Definition BlobGoal_loop (fuel : nat) (target : Colour) (grid : Grid)
    (ij : nat * nat) (st : list Z * Visited) : result (list Z * Visited) :=
  let '(final, visited) := st in
  '(c, visited) ← _undiscovered_blob_size fuel target
                    (Z.of_nat ij.1, Z.of_nat ij.2) grid visited;
  Ok (final ++ [c], visited).

(** [frames] is the number of frames that the recursion limit leaves for the
    flood fill when [score] calls it; every call of the double loop starts
    from the same depth of the stack. *)
Definition BlobGoal_score (frames : nat) (target : Colour) (board : Block)
  : result Z :=
  grid ← flatten board;
  let n := length grid in
  let visited := replicate n (replicate n (-1)) in
  '(final, _) ← for_each (range2 n) (BlobGoal_loop frames target grid) ([], visited);
  py_max final.

Definition score (frames : nat) (g : Goal) (board : Block) : result Z :=
  match kind g with
  | PerimeterGoal => PerimeterGoal_score (target g) board
  | BlobGoal => BlobGoal_score frames (target g) board
  end.

(** [random.choice(seq)] with the raw draw [r]. *)
Definition choice {A : Type} (seq : list A) (r : nat) : result A :=
  match seq !! (r mod length seq)%nat with
  | Some a => Ok a
  | None => Raise IndexError
  end.

(** [random.randint(a, b)] with the raw draw [r]: a value of [a..b], both
    ends included; an empty range raises. *)
Definition randint (a b : Z) (r : nat) : result Z :=
  if b <? a then Raise ValueError
  else Ok (a + Z.of_nat r mod (b - a + 1)).

(** [l.remove(x)]: the first occurrence goes. *)
Fixpoint list_remove (x : Colour) (l : list Colour) : result (list Colour) :=
  match l with
  | [] => Raise ValueError
  | y :: l' => if decide (x = y) then Ok l'
               else l'' ← list_remove x l'; Ok (y :: l'')
  end.

(** One iteration of the loop of [generate_goals]; iteration [k] consumes
    the raw draws [rnd (2k)] and [rnd (2k+1)]. *)
Definition generate_goals_step (rnd : nat -> nat) (k : nat)
    (st : list Colour * list Goal) : result (list Colour * list Goal) :=
  let '(colours, final) := st in
  colour ← choice colours (rnd (2 * k)%nat);
  colours ← list_remove colour colours;
  goal_type ← randint 1 2 (rnd (2 * k + 1)%nat);
  if goal_type =? 1 then Ok (colours, final ++ [mkGoal BlobGoal colour])
  else Ok (colours, final ++ [mkGoal PerimeterGoal colour]).

Definition generate_goals (rnd : nat -> nat) (num_goals : nat) : result (list Goal) :=
  '(_, final) ← for_each (range num_goals) (generate_goals_step rnd) (COLOUR_LIST, []);
  Ok final.

(** ** player.py: point location *)

Definition contains (block : Block) (location : Z * Z) : bool :=
  let bx := (position block).1 in
  let by_ := (position block).2 in
  let lx := location.1 in
  let ly := location.2 in
  (bx <=? lx) && (lx <? bx + size block) && (by_ <=? ly) && (ly <? by_ + size block).

Fixpoint _get_block (block : Block) (location : Z * Z) (level : Z) {struct block}
  : option Block :=
  match block with
  | mkBlock pos sz col lvl md chs =>
    if negb (contains block location) then None
    else if level =? lvl then Some block
    else if col is Some _ then Some block
    else
      (fix children_loop (cs : list Block) {struct cs} : option Block :=
         match cs with
         | [] => None
         | child :: cs' =>
           if _get_block child location level is Some _
           then _get_block child location level
           else children_loop cs'
         end) chs
  end.

(** ** player.py: the human player *)

(** Modelled from the spec: [blocks/actions.py] is not part of the sources at
    hand; the named actions are the eight constants that [player.py]
    imports. *)
Inductive Action : Type :=
| ROTATE_CLOCKWISE
| ROTATE_COUNTER_CLOCKWISE
| SWAP_HORIZONTAL
| SWAP_VERTICAL
| SMASH
| PASS
| PAINT
| COMBINE.

Record HumanPlayer : Type := mkHumanPlayer {
  h_id : Z;
  h_goal : Goal;
  h_penalty : Z;
  _level : Z;
  _desired_action : option Action
}.

Definition _correct_level (self : HumanPlayer) (board : Block) : HumanPlayer :=
  mkHumanPlayer (h_id self) (h_goal self) (h_penalty self)
    (Z.max 0 (Z.min (_level self) (max_depth board))) (_desired_action self).

Definition clear_desired_action (self : HumanPlayer) : HumanPlayer :=
  mkHumanPlayer (h_id self) (h_goal self) (h_penalty self) (_level self) None.

(** [mouse_pos] is what [pygame.mouse.get_pos()] answers. *)
Definition get_selected_block (self : HumanPlayer) (mouse_pos : Z * Z)
    (board : Block) : option Block :=
  _get_block board mouse_pos (_level self).

(** The move returned and the player after the call. *)
Definition HumanPlayer_generate_move (self : HumanPlayer) (mouse_pos : Z * Z)
    (board : Block) : option (Action * Block) * HumanPlayer :=
  match get_selected_block self mouse_pos board, _desired_action self with
  | Some block, Some a =>
    let move := (a, block) in
    (Some move, clear_desired_action self)
  | _, _ =>
    let self := _correct_level self board in
    (None, clear_desired_action self)
  end.

(** ** player.py: board objects and references *)

(** Python passes boards by reference.  A board handed to a player is an
    object of the store; a node inside it is named by the object and the
    path of child indices leading to the node. *)
Abbreviation Store := (gmap nat Block).
Definition Ref : Type := nat * list nat.

Fixpoint subblock (b : Block) (path : list nat) : option Block :=
  match path with
  | [] => Some b
  | k :: path' => c ← children b !! k; subblock c path'
  end.

(** The board after the node at [path] has become [node']. *)
Fixpoint replace_at (b : Block) (path : list nat) (node' : Block) : Block :=
  match path with
  | [] => node'
  | k :: path' =>
    match children b !! k with
    | Some c =>
      mkBlock (position b) (size b) (colour b) (level b) (max_depth b)
        (<[k := replace_at c path' node']> (children b))
    | None => b
    end
  end.

(** Where [_get_block] finds its node: the same descent, answering the path
    of the node instead of the node. *)
Fixpoint locate (block : Block) (location : Z * Z) (level : Z) {struct block}
  : option (list nat) :=
  match block with
  | mkBlock pos sz col lvl md chs =>
    if negb (contains block location) then None
    else if level =? lvl then Some []
    else if col is Some _ then Some []
    else
      (fix children_loop (k : nat) (cs : list Block) {struct cs}
         : option (list nat) :=
         match cs with
         | [] => None
         | child :: cs' =>
           if locate child location level is Some p
           then Some (k :: p)
           else children_loop (S k) cs'
         end) 0%nat chs
  end.

(** Computations on the store that may raise. *)
Definition M (A : Type) : Type := Store -> Store * result A.

#[global] Instance M_ret : MRet M := fun A a s => (s, Ok a).

#[global] Instance M_bind : MBind M := fun A B k m s =>
  match m s with
  | (s', Ok a) => k a s'
  | (s', Raise e) => (s', Raise e)
  | (s', OutOfFuel) => (s', OutOfFuel)
  end.

Definition lift {A : Type} (r : result A) : M A := fun s => (s, r).

(** Reading the object [id]. *)
Definition load (id : nat) : M Block := fun s =>
  match s !! id with
  | Some b => (s, Ok b)
  | None => (s, Raise AttributeError)
  end.

(** Modelled from the spec: [Block.create_copy] lives in [blocks/block.py],
    which is not at hand; it yields a fully independent deep copy, here a
    new object of the store holding an equal tree. *)
Definition create_copy (board : nat) : M nat := fun s =>
  match s !! board with
  | Some b => let new_board := fresh (dom s) in (<[new_board := b]> s, Ok new_board)
  | None => (s, Raise AttributeError)
  end.

(** [_get_block] on an object of the store, answering a reference. *)
Definition _get_block_ref (board : nat) (location : Z * Z) (level : Z)
  : M (option Ref) :=
  b ← load board;
  mret ((λ p, (board, p)) <$> locate b location level).

Fixpoint for_eachM {A S : Type} (l : list A) (body : A -> S -> M S) (s : S) : M S :=
  match l with
  | [] => mret s
  | a :: l' => s' ← body a s; for_eachM l' body s'
  end.

Record ComputerPlayer : Type := mkComputerPlayer {
  c_id : Z;
  c_goal : Goal;
  c_penalty : Z;
  _proceed : bool;
  (** only a [SmartPlayer] reads it *)
  _num_test : Z
}.

Definition set_proceed (self : ComputerPlayer) (p : bool) : ComputerPlayer :=
  mkComputerPlayer (c_id self) (c_goal self) (c_penalty self) p (_num_test self).

Definition Move : Type := Action * option Ref.

Definition moves : list Action :=
  [ROTATE_CLOCKWISE; ROTATE_COUNTER_CLOCKWISE; SWAP_HORIZONTAL; SWAP_VERTICAL;
   SMASH; PAINT; COMBINE].

Section ComputerPlayers.

(** Modelled from the spec: [Action.penalty] and [Action.apply] live in
    [blocks/actions.py], which is not at hand.  [apply] receives the located
    node and the goal colour, reports success and leaves the node mutated:
    [apply_node a node colour] is the report and the node after the call.
    [apply_none a colour] is what the call does when handed [None]. *)
Variable penalty : Action -> Z.
Variable apply_node : Action -> Block -> Colour -> bool * Block.
Variable apply_none : Action -> Colour -> result bool.

(** The frames that the recursion limit leaves for the flood fill of a
    [BlobGoal] when [generate_move] calls [score]. *)
Variable frames : nat.

(** [actions.apply(target, {'colour': colour})] on a reference. *)
Definition Action_apply (a : Action) (target : option Ref) (colour : Colour)
  : M bool := fun s =>
  match target with
  | None => (s, apply_none a colour)
  | Some (id, path) =>
    match s !! id with
    | Some b =>
      match subblock b path with
      | Some node =>
        let '(ok, node') := apply_node a node colour in
        (<[id := replace_at b path node']> s, Ok ok)
      | None => (s, Raise AttributeError)
      end
    | None => (s, Raise AttributeError)
    end
  end.

(** The sampling step that both computer players run; draw number [k]
    consumes the raw draws [rnd (4k)] .. [rnd (4k+3)].  It answers the action,
    the node of the real board, the copy and the report of [apply]. *)
Definition draw (rnd : nat -> nat) (k : nat) (colour : Colour) (board : nat)
  : M (Action * option Ref * nat * bool) :=
  new_board ← create_copy board;
  actions ← lift (choice moves (rnd (4 * k)%nat));
  nb ← load new_board;
  b ← load board;
  x ← lift (randint (position nb).1 (size b - 1) (rnd (4 * k + 1)%nat));
  y ← lift (randint (position nb).2 (size b - 1) (rnd (4 * k + 2)%nat));
  level ← lift (randint (level nb) (max_depth nb) (rnd (4 * k + 3)%nat));
  actual_move ← _get_block_ref board (x, y) level;
  copy_move ← _get_block_ref new_board (x, y) level;
  ok ← Action_apply actions copy_move colour;
  mret (actions, actual_move, new_board, ok).

(** The [while self._proceed] loop, bounded by [fuel] iterations. *)
Fixpoint RandomPlayer_loop (fuel : nat) (rnd : nat -> nat) (k : nat)
    (self : ComputerPlayer) (board : nat) : M (option Move * ComputerPlayer) :=
  match fuel with
  | O => lift OutOfFuel
  | S fuel' =>
    '(actions, actual_move, _, ok) ← draw rnd k (target (c_goal self)) board;
    if ok : bool then mret (Some (actions, actual_move), set_proceed self false)
    else RandomPlayer_loop fuel' rnd (S k) self board
  end.

Definition RandomPlayer_generate_move (fuel : nat) (rnd : nat -> nat)
    (self : ComputerPlayer) (board : nat) : M (option Move * ComputerPlayer) :=
  if _proceed self then RandomPlayer_loop fuel rnd 0 self board
  else mret (None, self).

(** A recorded trial: the action, the node of the real board, the score of
    the mutated copy. *)
Definition Trial : Type := Action * option Ref * Z.

Definition net (t : Trial) : Z := t.2 - penalty t.1.1.

Definition SmartPlayer_trial (rnd : nat -> nat) (self : ComputerPlayer)
    (board : nat) (k : nat) (total : list Trial) : M (list Trial) :=
  '(actions, actual_move, new_board, ok) ← draw rnd k (target (c_goal self)) board;
  if ok : bool then
    nb ← load new_board;
    sc ← lift (score frames (c_goal self) nb);
    mret (total ++ [(actions, actual_move, sc)])
  else mret total.

(** The [while i < len(total)] loop from index [i] on, [total] being the
    trials that remain. *)
Fixpoint best_of (total : list Trial) (best_score : Z) (best_move : option Move)
  : Z * option Move :=
  match total with
  | [] => (best_score, best_move)
  | t :: total' =>
    if net t >? best_score
    then best_of total' (net t) (Some (t.1.1, t.1.2))
    else best_of total' best_score best_move
  end.

Definition SmartPlayer_generate_move (rnd : nat -> nat) (self : ComputerPlayer)
    (board : nat) : M (option Move * ComputerPlayer) :=
  if _proceed self then
    total ← for_eachM (range (Z.to_nat (_num_test self)))
              (SmartPlayer_trial rnd self board) [];
    b ← load board;
    best_score ← lift (score frames (c_goal self) b);
    let '(best_score, best_move) := best_of total best_score None in
    let self := set_proceed self false in
    b ← load board;
    baseline ← lift (score frames (c_goal self) b);
    if best_score <=? baseline then mret (Some (PASS, Some (board, [])), self)
    else mret (best_move, self)
  else mret (None, self).

End ComputerPlayers.

(** ** goal.py: descriptions *)

Definition PerimeterGoal_description (target : Colour) : result string :=
  name ← colour_name target;
  Ok ("Maximize the presence of " ++ name ++ " on the board's perimeter")%string.

Definition BlobGoal_description (target : Colour) : result string :=
  name ← colour_name target;
  Ok ("Create the largest connected blob of " ++ name
        ++ " anywhere within the Block")%string.

Definition description (g : Goal) : result string :=
  match kind g with
  | PerimeterGoal => PerimeterGoal_description (target g)
  | BlobGoal => BlobGoal_description (target g)
  end.

(** ** player.py: creating the players *)

(** A player is an object of one of the three concrete classes. *)
Inductive Player : Type :=
| Human (p : HumanPlayer)
| Random (p : ComputerPlayer)
| Smart (p : ComputerPlayer).

(** [HumanPlayer(player_id, goal)]: [Player.__init__] sets the penalty to 0,
    [HumanPlayer.__init__] the level to 0 and the desired action to [None]. *)
Definition HumanPlayer_init (player_id : Z) (goal : Goal) : HumanPlayer :=
  mkHumanPlayer player_id goal 0 0 None.

(** [RandomPlayer(player_id, goal)]: [ComputerPlayer.__init__] sets
    [_proceed] to [False].  A [RandomPlayer] has no attribute [_num_test];
    the field of the record holds 0 for it and is never read. *)
Definition RandomPlayer_init (player_id : Z) (goal : Goal) : ComputerPlayer :=
  mkComputerPlayer player_id goal 0 false 0.

(** [SmartPlayer(player_id, goal, difficulty)] *)
Definition SmartPlayer_init (player_id : Z) (goal : Goal) (difficulty : Z)
  : ComputerPlayer :=
  mkComputerPlayer player_id goal 0 false difficulty.

(** [l.pop()]: the last element leaves the list; an empty list raises. *)
Definition list_pop {A : Type} (l : list A) : result (A * list A) :=
  match last l with
  | Some a => Ok (a, take (length l - 1) l)
  | None => Raise IndexError
  end.

(** The body that the three loops of [create_players] share,
    [final.append(make(pid, goals.pop())); pid += 1]; the state is
    [(final, pid, goals)]. *)
Definition create_players_step (make : Z -> Goal -> Player)
    (st : list Player * Z * list Goal) : result (list Player * Z * list Goal) :=
  let '(final, pid, goals) := st in
  '(goal, goals) ← list_pop goals;
  Ok (final ++ [make pid goal], pid + 1, goals).

Definition create_players (rnd : nat -> nat) (num_human num_random : Z)
    (smart_players : list Z) : result (list Player) :=
  let final := [] in
  let pid := 0 in
  goals ← generate_goals rnd
            (Z.to_nat (num_human + num_random + Z.of_nat (length smart_players)));
  st ← for_each (range (Z.to_nat num_human))
         (fun _ => create_players_step (fun pid goal => Human (HumanPlayer_init pid goal)))
         (final, pid, goals);
  st ← for_each (range (Z.to_nat num_random))
         (fun _ => create_players_step (fun pid goal => Random (RandomPlayer_init pid goal)))
         st;
  '(final, _, _) ← for_each smart_players
         (fun difficulty =>
            create_players_step
              (fun pid goal => Smart (SmartPlayer_init pid goal difficulty)))
         st;
  Ok final.

(** ** player.py: events *)

(** Modelled from pygame: an event is its type together with the attribute
    that [player.py] reads of an event of that type, the key of a [KEYUP] and
    the button of a [MOUSEBUTTONDOWN]. *)
Inductive Event : Type :=
| KEYUP (key : Z)
| MOUSEBUTTONDOWN (button : Z)
| OtherEvent.

Section Events.

(** The key codes [pygame.K_w] and [pygame.K_s] and the button
    [pygame.BUTTON_LEFT] are constants of pygame.  Modelled from the spec:
    [KEY_ACTION] is the table of [blocks/actions.py], which is not at hand,
    from key codes to actions. *)
Variables K_w K_s BUTTON_LEFT : Z.
Variable KEY_ACTION : gmap Z Action.

Definition HumanPlayer_process_event (self : HumanPlayer) (event : Event)
  : HumanPlayer :=
  match event with
  | KEYUP key =>
    match KEY_ACTION !! key with
    | Some a =>
      mkHumanPlayer (h_id self) (h_goal self) (h_penalty self) (_level self) (Some a)
    | None =>
      if key =? K_w then
        mkHumanPlayer (h_id self) (h_goal self) (h_penalty self) (_level self - 1) None
      else if key =? K_s then
        mkHumanPlayer (h_id self) (h_goal self) (h_penalty self) (_level self + 1) None
      else self
    end
  | _ => self
  end.

Definition ComputerPlayer_process_event (self : ComputerPlayer) (event : Event)
  : ComputerPlayer :=
  match event with
  | MOUSEBUTTONDOWN button =>
    if button =? BUTTON_LEFT then set_proceed self true else self
  | _ => self
  end.

End Events.

(** * Specification vocabulary *)

(** ** Shapes and cells of a grid *)

Definition cell {A : Type} (g : list (list A)) (x y : nat) : option A :=
  col ← g !! x; col !! y.

Definition square {A : Type} (n : nat) (g : list (list A)) : Prop :=
  length g = n /\ Forall (fun col => length col = n) g.

(** The side of the grid of a board: 2^(max_depth - level). *)
Definition side (b : Block) : nat := Z.to_nat (2 ^ (max_depth b - level b)).

(** ** The invariants of a board *)

(** The leaf/children invariant: at every node exactly one of a colour and
    children is present, an internal node has exactly four children, and the
    level does not exceed the maximal depth. *)
Fixpoint Board_invariant (b : Block) : bool :=
  match b with
  | mkBlock _ _ col lvl md chs =>
    (lvl <=? md) &&
    match col with
    | Some _ => bool_decide (length chs = 0%nat)
    | None => bool_decide (length chs = 4%nat) && forallb Board_invariant chs
    end
  end.

(** The positions of the four quadrants of a square at [pos] whose half side
    is [h]. *)
Definition corners (pos : Z * Z) (h : Z) : list (Z * Z) :=
  [(pos.1 + h, pos.2); (pos.1, pos.2); (pos.1, pos.2 + h); (pos.1 + h, pos.2 + h)].

(** The geometry of a board: the side is a positive multiple of the number of
    unit cells across it, and the children of an internal node are its four
    quadrants (in any order), one level down. *)
Fixpoint wf_board (b : Block) : bool :=
  match b with
  | mkBlock pos sz col lvl md chs =>
    (lvl <=? md) && (0 <? sz) && (sz mod 2 ^ (md - lvl) =? 0) &&
    match col with
    | Some _ => bool_decide (length chs = 0%nat)
    | None =>
      bool_decide (length chs = 4%nat) &&
      forallb (fun c => (level c =? lvl + 1) && (max_depth c =? md) &&
                        (size c =? sz / 2) && wf_board c) chs &&
      forallb (fun k => existsb (fun c => bool_decide (position c = k)) chs)
              (corners pos (sz / 2))
    end
  end.

(** ** The assignments of [flatten] *)

(** The assignments [final[x][y] = v] that the call of [flatten] on [block]
    performs on its own [final], in the order it performs them. *)
Definition child_assignments (block child : Block) (unit_size : Z) (temp : Grid)
  : list (Z * Z * option Colour) :=
  (fun '(i, j) =>
     (((position child).1 - (position block).1) / unit_size + Z.of_nat j,
      ((position child).2 - (position block).2) / unit_size + Z.of_nat i,
      default None (cell temp j i))) <$> range2 (length temp).

Definition assignments (block : Block) : list (Z * Z * option Colour) :=
  let n := side block in
  let unit_size := size block / 2 ^ (max_depth block - level block) in
  match colour block with
  | Some c => (fun '(i, j) => (Z.of_nat j, Z.of_nat i, Some c)) <$> range2 n
  | None =>
    child ← children block;
    match flatten child with
    | Ok temp => child_assignments block child unit_size temp
    | _ => []
    end
  end.

(** Performing a list of assignments on a grid. *)
Definition replay (ws : list (Z * Z * option Colour)) (final : Grid) : result Grid :=
  for_each ws (fun '(x, y, v) final => setitem2 final x y v) final.

Definition blank (n : nat) : Grid := replicate n (replicate n None).

(** ** The perimeter *)

(** The number of sides of an [n] x [n] board that the cell at column [x],
    row [y] lies on. *)
Definition sides_touched (n x y : nat) : Z :=
  (if decide (x = 0%nat) then 1 else 0) + (if decide (y = 0%nat) then 1 else 0) +
  (if decide (S x = n) then 1 else 0) + (if decide (S y = n) then 1 else 0).

Definition matches (g : Grid) (target : Colour) (x y : nat) : Z :=
  if decide (cell g x y = Some (Some target)) then 1 else 0.

Definition sumZ (l : list Z) : Z := foldr Z.add 0 l.

(** Every cell of the target colour counted once per side it lies on. *)
Definition perimeter_count (g : Grid) (target : Colour) : Z :=
  let n := length g in
  sumZ ((fun '(x, y) => matches g target x y * sides_touched n x y) <$> range2 n).

(** The weights as the specification words them: a corner counts twice,
    another cell of the boundary once, an interior cell not at all. *)
Definition is_corner (n x y : nat) : bool :=
  bool_decide ((x = 0%nat \/ S x = n) /\ (y = 0%nat \/ S y = n)).

Definition on_boundary (n x y : nat) : bool :=
  bool_decide (x = 0%nat \/ S x = n \/ y = 0%nat \/ S y = n).

Definition spec_weight (n x y : nat) : Z :=
  if is_corner n x y then 2 else if on_boundary n x y then 1 else 0.

Definition spec_perimeter_count (g : Grid) (target : Colour) : Z :=
  let n := length g in
  sumZ ((fun '(x, y) => matches g target x y * spec_weight n x y) <$> range2 n).

(** ** Blobs *)

Definition Cell : Type := Z * Z.

Definition is_target (g : Grid) (target : Colour) (p : Cell) : Prop :=
  0 <= p.1 /\ 0 <= p.2 /\
  cell g (Z.to_nat p.1) (Z.to_nat p.2) = Some (Some target).

(** Up, down, left, right: no diagonals. *)
Definition adjacent (p q : Cell) : Prop :=
  q = (p.1 + 1, p.2) \/ q = (p.1 - 1, p.2) \/
  q = (p.1, p.2 + 1) \/ q = (p.1, p.2 - 1).

(** One step between adjacent cells of the target colour. *)
Definition blob_step (g : Grid) (target : Colour) (p q : Cell) : Prop :=
  adjacent p q /\ is_target g target p /\ is_target g target q.

Definition connected (g : Grid) (target : Colour) (p q : Cell) : Prop :=
  is_target g target p /\ rtc (blob_step g target) p q.

(** A 4-connected region of the target colour: distinct cells of the target
    colour, any two of them linked by steps between target cells. *)
Definition region (g : Grid) (target : Colour) (l : list Cell) : Prop :=
  NoDup l /\ l <> [] /\
  forall p q, p ∈ l -> q ∈ l -> connected g target p q.

(** A blob: a region that no adjacent target cell could extend. *)
Definition blob (g : Grid) (target : Colour) (l : list Cell) : Prop :=
  region g target l /\
  forall p q, p ∈ l -> adjacent p q -> is_target g target q -> q ∈ l.

(** [m] is the size of the largest region: 0 when no cell has the target
    colour, else the size of some blob, and no region is larger. *)
Definition largest_region_size (g : Grid) (target : Colour) (m : Z) : Prop :=
  ((m = 0 /\ forall p, ~ is_target g target p) \/
   (exists l, blob g target l /\ m = Z.of_nat (length l))) /\
  forall l, region g target l -> Z.of_nat (length l) <= m.

(** ** Nodes of a board *)

(** [in_board d b]: [d] is [b] or a node below it. *)
Inductive in_board (d : Block) : Block -> Prop :=
| in_board_here : in_board d d
| in_board_child b c : c ∈ children b -> in_board d c -> in_board d b.

(** ** The loops over the children, as functions of their own *)

(** The [for child in block.children] loop of [_get_block]. *)
Fixpoint _get_block_children (cs : list Block) (location : Z * Z) (level : Z)
  : option Block :=
  match cs with
  | [] => None
  | child :: cs' =>
    if _get_block child location level is Some _
    then _get_block child location level
    else _get_block_children cs' location level
  end.

(** The [for child in block.children] loop of [flatten]. *)
Fixpoint flatten_children (block : Block) (unit_size : Z) (cs : list Block)
    (final : Grid) : result Grid :=
  match cs with
  | [] => Ok final
  | child :: cs' =>
    temp ← flatten child;
    final' ← splice block child unit_size temp final;
    flatten_children block unit_size cs' final'
  end.

(** The cells that [flatten] assigns in its own [final], in order. *)
Definition assigned_cells (block : Block) : list (Z * Z) :=
  (fun w => (w.1.1, w.1.2)) <$> assignments block.

(** The loop of [locate], [k] being the index of the first child of [cs]. *)
Fixpoint locate_children (k : nat) (cs : list Block) (location : Z * Z) (level : Z)
  : option (list nat) :=
  match cs with
  | [] => None
  | child :: cs' =>
    if locate child location level is Some p
    then Some (k :: p)
    else locate_children (S k) cs' location level
  end.

(** ** The boundary scans *)

(** The count of the four boundary scans: for every [i], the tests at
    column 0 row [i], column [i] row 0, column [i] row [n-1] and
    column [n-1] row [i]. *)
Definition scan_count (g : Grid) (target : Colour) : Z :=
  let n := length g in
  sumZ ((fun i => matches g target 0 i + matches g target i 0 +
                  matches g target i (n - 1) + matches g target (n - 1) i)
          <$> range n).

(** ** The visitation map *)

(** The mark of a cell, if the cell is on the map. *)
Definition mark (visited : Visited) (p : Cell) : option Z :=
  if (0 <=? p.1) && (0 <=? p.2)
  then cell visited (Z.to_nat p.1) (Z.to_nat p.2)
  else None.

Definition in_grid (n : nat) (p : Cell) : Prop :=
  0 <= p.1 < Z.of_nat n /\ 0 <= p.2 < Z.of_nat n.

(** [grows g target n V V' new]: the map [V'] is the map [V] with more cells
    marked, consistently with the colours of [g]; [new] lists the cells that
    went from unvisited to marked 1. *)
Definition grows (g : Grid) (target : Colour) (n : nat) (V V' : Visited)
    (new : list Cell) : Prop :=
  square n V' /\
  (forall q, mark V q <> Some (-1) -> mark V' q = mark V q) /\
  NoDup new /\
  (forall q, q ∈ new <-> mark V q = Some (-1) /\ mark V' q = Some 1) /\
  (forall q, mark V q = Some (-1) ->
     mark V' q = Some (-1) \/
     (mark V' q = Some 0 /\ ~ is_target g target q) \/
     (mark V' q = Some 1 /\ is_target g target q)).

(** What holds of the results and of the map between two flood fills of
    [BlobGoal.score]: the marks agree with the colours, every neighbour of a
    cell marked 1 has been visited, every result is 0 or the size of a blob,
    and the blob of every cell marked 1 has its size among the results. *)
Definition scanned (g : Grid) (target : Colour) (n : nat) (st : list Z * Visited)
  : Prop :=
  square n st.2 /\
  (forall q v, mark st.2 q = Some v ->
     v = -1 \/ (v = 0 /\ ~ is_target g target q) \/ (v = 1 /\ is_target g target q)) /\
  (forall q q', mark st.2 q = Some 1 -> adjacent q q' -> in_grid n q' ->
     mark st.2 q' <> Some (-1)) /\
  (forall r, r ∈ st.1 ->
     r = 0 \/ exists l, blob g target l /\ r = Z.of_nat (length l)) /\
  (forall q, mark st.2 q = Some 1 ->
     exists l, blob g target l /\ q ∈ l /\ Z.of_nat (length l) ∈ st.1).

(** ** The recursion limit *)


(** ** The loop of [generate_goals] *)

(** What holds of [(colours, final)] after [k] iterations of the loop of
    [generate_goals]. *)
Definition goals_invariant (k : nat) (st : list Colour * list Goal) : Prop :=
  NoDup (st.1 ++ (target <$> st.2)) /\
  (length st.1 + k = length COLOUR_LIST)%nat /\
  length st.2 = k /\
  (forall c, c ∈ st.1 ++ (target <$> st.2) -> c ∈ COLOUR_LIST).

(** ** The players of a game *)

(** The class of a player, a [SmartPlayer] with its difficulty. *)
Inductive PlayerKind : Type :=
| KHuman
| KRandom
| KSmart (difficulty : Z).

Definition player_kind (p : Player) : PlayerKind :=
  match p with
  | Human _ => KHuman
  | Random _ => KRandom
  | Smart c => KSmart (_num_test c)
  end.

Definition player_id (p : Player) : Z :=
  match p with
  | Human h => h_id h
  | Random c | Smart c => c_id c
  end.

Definition player_goal (p : Player) : Goal :=
  match p with
  | Human h => h_goal h
  | Random c | Smart c => c_goal c
  end.

(** A player that has not played yet: no penalty, and for a human the level 0
    and no pending action, for a computer no request to proceed. *)
Definition unstarted (p : Player) : Prop :=
  match p with
  | Human h => h_penalty h = 0 /\ _level h = 0 /\ _desired_action h = None
  | Random c | Smart c => c_penalty c = 0 /\ _proceed c = false
  end.

(** The players that one loop of [create_players] appends: one for each
    element of [l], with the ids from [pid] on and the goals of [gs] in
    order. *)
Fixpoint roster {A : Type} (make : A -> Z -> Goal -> Player) (l : list A)
    (pid : Z) (gs : list Goal) : list Player :=
  match l, gs with
  | a :: l', g :: gs' => make a pid g :: roster make l' (pid + 1) gs'
  | _, _ => []
  end.

(** ** The draws of the computer players *)

(** The values that draw number [k] samples on a board whose tree is [b]:
    the action, the coordinates and the level. *)
Definition sample (rnd : nat -> nat) (k : nat) (b : Block)
  : result (Action * Z * Z * Z) :=
  actions ← choice moves (rnd (4 * k)%nat);
  x ← randint (position b).1 (size b - 1) (rnd (4 * k + 1)%nat);
  y ← randint (position b).2 (size b - 1) (rnd (4 * k + 2)%nat);
  level ← randint (level b) (max_depth b) (rnd (4 * k + 3)%nat);
  Ok (actions, x, y, level).

Section Draws.

Variable apply_node : Action -> Block -> Colour -> bool * Block.
Variable apply_none : Action -> Colour -> result bool.
Variable frames : nat.

(** What draw number [k] comes to on a board whose tree is [b]: the action,
    the path of the node located (if any) and the report of [apply] on the
    copy. *)
Definition draw_result (rnd : nat -> nat) (k : nat) (colour : Colour) (b : Block)
  : result (Action * option (list nat) * bool) :=
  '(a, x, y, lv) ← sample rnd k b;
  match locate b (x, y) lv with
  | Some p =>
    match subblock b p with
    | Some d => Ok (a, Some p, (apply_node a d colour).1)
    | None => Raise AttributeError
    end
  | None => ok ← apply_none a colour; Ok (a, None, ok)
  end.

(** The tree of the copy after the draw: the located node has been handed to
    [apply]. *)
Definition draw_copy (a : Action) (p : option (list nat)) (colour : Colour)
    (b : Block) : Block :=
  match p with
  | Some q =>
    match subblock b q with
    | Some d => replace_at b q (apply_node a d colour).2
    | None => b
    end
  | None => b
  end.

(** Trial number [k] of a [SmartPlayer] as a function of the tree [b] of the
    real board: a draw that applies is recorded with the score of its
    copy. *)
Definition trial_step (rnd : nat -> nat) (goal : Goal) (board : nat) (b : Block)
    (k : nat) (total : list Trial) : result (list Trial) :=
  '(a, p, ok) ← draw_result rnd k (target goal) b;
  if ok : bool then
    sc ← score frames goal (draw_copy a p (target goal) b);
    Ok (total ++ [(a, (fun q => (board, q)) <$> p, sc)])
  else Ok total.

End Draws.

(** ** Placements of [flatten] *)

(** The board moved by [d]: every node of the tree is shifted. *)
Fixpoint translate (d : Z * Z) (b : Block) : Block :=
  match b with
  | mkBlock pos sz col lvl md chs =>
    mkBlock (pos.1 + d.1, pos.2 + d.2) sz col lvl md (map (translate d) chs)
  end.

(** The side of a unit cell of a board. *)
Definition unit_size (b : Block) : Z := size b / 2 ^ (max_depth b - level b).

(** The column and the row of the unit cell of [b] that holds [loc]. *)
Definition cell_of (b : Block) (loc : Z * Z) : nat * nat :=
  (Z.to_nat ((loc.1 - (position b).1) / unit_size b),
   Z.to_nat ((loc.2 - (position b).2) / unit_size b)).

(** * Sample inputs *)

(** A 2 x 2 board of side 4: red, olive, red, blue quadrants. *)
Definition sample_board : Block :=
  mkBlock (0, 0) 4 None 0 1
    [mkBlock (2, 0) 2 (Some REAL_RED) 1 1 [];
     mkBlock (0, 0) 2 (Some OLD_OLIVE) 1 1 [];
     mkBlock (0, 2) 2 (Some REAL_RED) 1 1 [];
     mkBlock (2, 2) 2 (Some PACIFIC_POINT) 1 1 []].

(** A sample of the action interface: only painting a leaf of another colour
    at the maximal depth succeeds; the penalties are those of the game. *)
Definition sample_penalty (a : Action) : Z :=
  match a with
  | SMASH => 3
  | PAINT | COMBINE | PASS => 1
  | _ => 0
  end.

Definition sample_apply_node (a : Action) (node : Block) (c : Colour) : bool * Block :=
  match a, colour node with
  | PAINT, Some c' =>
    if bool_decide (c' <> c) && (level node =? max_depth node)
    then (true, mkBlock (position node) (size node) (Some c) (level node)
                  (max_depth node) (children node))
    else (false, node)
  | _, _ => (false, node)
  end.

Definition sample_apply_none (a : Action) (c : Colour) : result bool :=
  Raise AttributeError.

(** Raw draws: paint at (0, 0), level 1, then paint at (2, 2), level 1, ... *)
Definition sample_rnd (i : nat) : nat :=
  nth i [5; 0; 0; 1; 5; 2; 2; 1]%nat 0%nat.

Definition sample_smart (difficulty : Z) : ComputerPlayer :=
  mkComputerPlayer 0 (mkGoal PerimeterGoal REAL_RED) 0 true difficulty.

Definition sample_store : Store := {[ 0%nat := sample_board ]}.

(** Boards that are not placed at the origin. *)
Definition shifted_board : Block := mkBlock (4, 4) 2 (Some REAL_RED) 0 0 [].
Definition negative_board : Block := mkBlock (-2, -2) 2 (Some REAL_RED) 0 0 [].
Definition near_board : Block := mkBlock (1, 1) 2 (Some REAL_RED) 0 0 [].

(** A board of one unit cell. *)
Definition unit_board : Block := mkBlock (0, 0) 1 (Some REAL_RED) 0 0 [].

(** A 2 x 2 board that is red all over. *)
Definition red_board : Block :=
  mkBlock (0, 0) 2 None 0 1
    [mkBlock (1, 0) 1 (Some REAL_RED) 1 1 [];
     mkBlock (0, 0) 1 (Some REAL_RED) 1 1 [];
     mkBlock (0, 1) 1 (Some REAL_RED) 1 1 [];
     mkBlock (1, 1) 1 (Some REAL_RED) 1 1 []].

(** A 4 x 4 board, olive but for the red unit cell at column 1, row 1. *)
Definition interior_board : Block :=
  mkBlock (0, 0) 4 None 0 2
    [mkBlock (2, 0) 2 (Some OLD_OLIVE) 1 2 [];
     mkBlock (0, 0) 2 None 1 2
       [mkBlock (1, 0) 1 (Some OLD_OLIVE) 2 2 [];
        mkBlock (0, 0) 1 (Some OLD_OLIVE) 2 2 [];
        mkBlock (0, 1) 1 (Some OLD_OLIVE) 2 2 [];
        mkBlock (1, 1) 1 (Some REAL_RED) 2 2 []];
     mkBlock (0, 2) 2 (Some OLD_OLIVE) 1 2 [];
     mkBlock (2, 2) 2 (Some OLD_OLIVE) 1 2 []].

(** A board with a child that does not reach the edge of its parent: the
    side 5 halves to 2. *)
Definition odd_board : Block :=
  mkBlock (0, 0) 5 None 0 1
    [mkBlock (2, 0) 2 (Some REAL_RED) 1 1 [];
     mkBlock (0, 0) 2 (Some OLD_OLIVE) 1 1 [];
     mkBlock (0, 2) 2 (Some REAL_RED) 1 1 [];
     mkBlock (2, 2) 2 (Some PACIFIC_POINT) 1 1 []].

(** A board smaller than the number of its unit cells. *)
Definition tiny_board : Block :=
  mkBlock (0, 0) 2 None 0 2
    [mkBlock (1, 0) 1 (Some REAL_RED) 1 2 [];
     mkBlock (0, 0) 1 (Some OLD_OLIVE) 1 2 [];
     mkBlock (0, 1) 1 (Some REAL_RED) 1 2 [];
     mkBlock (1, 1) 1 (Some PACIFIC_POINT) 1 2 []].



(** * Properties *)

(** * Loops *)

Lemma bind_Ok {A B : Type} (m : result A) (k : A -> result B) (b : B) :
  m ≫= k = Ok b <-> exists a, m = Ok a /\ k a = Ok b.
Proof.
  destruct m; simpl; split.
  - eauto.
  - intros (? & [= ->] & ?); done.
  - discriminate.
  - intros (? & ? & _); discriminate.
  - discriminate.
  - intros (? & ? & _); discriminate.
Qed.

Lemma bind_ok {A B : Type} (a : A) (k : A -> result B) : Ok a ≫= k = k a.
Proof. reflexivity. Qed.

Lemma for_each_app {A S : Type} (l1 l2 : list A) (body : A -> S -> result S) (s : S) :
  for_each (l1 ++ l2) body s = for_each l1 body s ≫= for_each l2 body.
Proof.
  revert s. induction l1 as [|a l1 IH]; intros s; simpl; [reflexivity|].
  destruct (body a s); simpl; auto.
Qed.

Lemma for_each_fmap {A B S : Type} (f : A -> B) (l : list A)
    (body : B -> S -> result S) (s : S) :
  for_each (f <$> l) body s = for_each l (fun a => body (f a)) s.
Proof.
  revert s. induction l as [|a l IH]; intros s; simpl; [reflexivity|].
  destruct (body (f a) s); simpl; auto.
Qed.

Lemma for_each_ext {A S : Type} (l : list A) (body1 body2 : A -> S -> result S) (s : S) :
  (forall a s, a ∈ l -> body1 a s = body2 a s) ->
  for_each l body1 s = for_each l body2 s.
Proof.
  revert s. induction l as [|a l IH]; intros s H; simpl; [reflexivity|].
  rewrite H by left. destruct (body2 a s); simpl; auto.
  apply IH. intros; apply H; by right.
Qed.

(** A loop that keeps an invariant indexed by the number of iterations
    returns, and the invariant holds at the end. *)
Lemma for_each_invariant {A St : Type} (I : nat -> St -> Prop) (l : list A)
    (body : A -> St -> result St) (s : St) :
  (forall k a s, l !! k = Some a -> I k s -> exists s', body a s = Ok s' /\ I (S k) s') ->
  I 0%nat s ->
  exists s', for_each l body s = Ok s' /\ I (length l) s'.
Proof.
  revert I s. induction l as [|a l IH]; intros I s Hstep H0; simpl.
  - eauto.
  - destruct (Hstep 0%nat a s eq_refl H0) as (s1 & -> & H1). simpl.
    apply (IH (fun k => I (S k))); [|exact H1].
    intros k b t Hk. apply (Hstep (S k)). exact Hk.
Qed.

Lemma range_lookup (n k a : nat) : range n !! k = Some a -> a = k /\ (k < n)%nat.
Proof.
  unfold range. intros H. apply lookup_seq in H. lia.
Qed.

Lemma range_length (n : nat) : length (range n) = n.
Proof. apply length_seq. Qed.

Lemma elem_of_range (n k : nat) : k ∈ range n <-> (k < n)%nat.
Proof. unfold range. rewrite elem_of_seq. lia. Qed.

Lemma elem_of_range2 (n i j : nat) : (i, j) ∈ range2 n <-> (i < n)%nat /\ (j < n)%nat.
Proof.
  unfold range2. rewrite list_elem_of_bind. split.
  - intros (i' & Hj & Hi). apply list_elem_of_fmap in Hj as (j' & [= -> ->] & Hj).
    by rewrite elem_of_range in Hi, Hj.
  - intros [Hi Hj]. exists i. rewrite list_elem_of_fmap, elem_of_range.
    split; [|done]. exists j. by rewrite elem_of_range.
Qed.

Lemma NoDup_range (n : nat) : NoDup (range n).
Proof. apply NoDup_seq. Qed.

Lemma NoDup_range2 (n : nat) : NoDup (range2 n).
Proof.
  unfold range2. apply NoDup_bind.
  - intros i1 i2 p _ _ H1 H2.
    apply list_elem_of_fmap in H1 as (? & -> & _).
    apply list_elem_of_fmap in H2 as (? & [= -> _] & _). done.
  - intros i _. apply (NoDup_fmap_2 _); apply NoDup_range.
  - apply NoDup_range.
Qed.

(** * Reading and writing grids *)

Lemma py_index_nat (len k : nat) : (k < len)%nat -> py_index len (Z.of_nat k) = Ok k.
Proof.
  intros H. unfold py_index.
  destruct (Z.leb_spec 0 (Z.of_nat k)); [|lia].
  destruct (Z.ltb_spec (Z.of_nat k) (Z.of_nat len)); [|lia].
  simpl. by rewrite Nat2Z.id.
Qed.

Lemma py_index_Ok (len : nat) (i : Z) (k : nat) :
  py_index len i = Ok k -> (k < len)%nat.
Proof.
  unfold py_index.
  destruct (Z.leb_spec 0 i), (Z.ltb_spec i (Z.of_nat len)); simpl;
    try (intros [= <-]; lia).
  all: destruct (Z.leb_spec (- Z.of_nat len) i), (Z.ltb_spec i 0); simpl;
    try discriminate; intros [= <-]; lia.
Qed.

Lemma py_index_nonneg (len : nat) (i : Z) (k : nat) :
  0 <= i -> py_index len i = Ok k -> i = Z.of_nat k.
Proof.
  intros Hi. unfold py_index.
  destruct (Z.leb_spec 0 i), (Z.ltb_spec i (Z.of_nat len)); simpl;
    try (intros [= <-]; lia).
  all: destruct (Z.leb_spec (- Z.of_nat len) i), (Z.ltb_spec i 0); simpl;
    try discriminate; intros [= <-]; lia.
Qed.

Lemma getitem_nat {A : Type} (l : list A) (k : nat) (a : A) :
  l !! k = Some a -> getitem l (Z.of_nat k) = Ok a.
Proof.
  intros H. unfold getitem. rewrite py_index_nat by (by eapply lookup_lt_Some).
  rewrite bind_ok. by rewrite H.
Qed.

Lemma getitem2_cell {A : Type} (g : list (list A)) (x y : nat) (v : A) :
  cell g x y = Some v -> getitem2 g (Z.of_nat x) (Z.of_nat y) = Ok v.
Proof.
  unfold cell, getitem2. destruct (g !! x) as [col|] eqn:Hx; [|discriminate].
  simpl. intros Hy. rewrite (getitem_nat g x col Hx), bind_ok.
  by apply getitem_nat.
Qed.

Lemma setitem2_inv {A : Type} (g g' : list (list A)) (x y : Z) (v : A) :
  setitem2 g x y v = Ok g' ->
  exists i j col,
    py_index (length g) x = Ok i /\ g !! i = Some col /\
    py_index (length col) y = Ok j /\ g' = <[i := <[j := v]> col]> g.
Proof.
  unfold setitem2, getitem, setitem.
  destruct (py_index (length g) x) as [i| |] eqn:Hi; try discriminate.
  rewrite !bind_ok. destruct (g !! i) as [col|] eqn:Hc; [|discriminate].
  rewrite bind_ok.
  destruct (py_index (length col) y) as [j| |] eqn:Hj; try discriminate.
  rewrite !bind_ok. intros [= <-]. eauto 10.
Qed.

Lemma setitem2_nat {A : Type} (g : list (list A)) (x y : nat) (v : A) col :
  g !! x = Some col -> (y < length col)%nat ->
  setitem2 g (Z.of_nat x) (Z.of_nat y) v = Ok (<[x := <[y := v]> col]> g).
Proof.
  intros Hx Hy. unfold setitem2, setitem. rewrite (getitem_nat g x col Hx), bind_ok.
  rewrite (py_index_nat (length col) y Hy), !bind_ok.
  rewrite py_index_nat by (by eapply lookup_lt_Some). reflexivity.
Qed.

(** ** Squares *)

Lemma square_lookup {A : Type} (n : nat) (g : list (list A)) (x : nat) col :
  square n g -> g !! x = Some col -> length col = n.
Proof.
  intros [_ H] Hx. rewrite Forall_forall in H. apply H.
  by eapply list_elem_of_lookup_2.
Qed.

Lemma square_cell {A : Type} (n : nat) (g : list (list A)) (x y : nat) :
  square n g -> (x < n)%nat -> (y < n)%nat -> is_Some (cell g x y).
Proof.
  intros Hsq Hx Hy. unfold cell.
  destruct (lookup_lt_is_Some_2 g x) as [col Hc]; [destruct Hsq; lia|].
  rewrite Hc. simpl. apply lookup_lt_is_Some_2.
  by rewrite (square_lookup n g x col).
Qed.

Lemma cell_Some_lt {A : Type} (n : nat) (g : list (list A)) (x y : nat) (v : A) :
  square n g -> cell g x y = Some v -> (x < n)%nat /\ (y < n)%nat.
Proof.
  intros Hsq. unfold cell. destruct (g !! x) as [col|] eqn:Hc; [|discriminate].
  simpl. intros Hy. split.
  - destruct Hsq as [<- _]. by eapply lookup_lt_Some.
  - rewrite <- (square_lookup n g x col) by done. by eapply lookup_lt_Some.
Qed.

Lemma square_insert {A : Type} (n : nat) (g : list (list A)) (i j : nat) col (v : A) :
  square n g -> g !! i = Some col -> square n (<[i := <[j := v]> col]> g).
Proof.
  intros Hsq Hc. pose proof (square_lookup n g i col Hsq Hc) as Hl.
  destruct Hsq as [Hlen Hall]. split; [by rewrite length_insert|].
  rewrite Forall_forall in *. intros c Hin.
  apply list_elem_of_lookup in Hin as [k Hk].
  destruct (decide (k = i)) as [->|Hne].
  - rewrite list_lookup_insert_eq in Hk by (by eapply lookup_lt_Some).
    injection Hk as <-. by rewrite length_insert.
  - rewrite list_lookup_insert_ne in Hk by done.
    apply Hall. by eapply list_elem_of_lookup_2.
Qed.

Lemma setitem2_square {A : Type} (n : nat) (g g' : list (list A)) (x y : Z) (v : A) :
  setitem2 g x y v = Ok g' -> square n g -> square n g'.
Proof.
  intros (i & j & col & _ & Hc & _ & ->)%setitem2_inv Hsq. by apply square_insert.
Qed.

Lemma square_replicate {A : Type} (n : nat) (v : A) :
  square n (replicate n (replicate n v)).
Proof.
  split; [apply length_replicate|].
  apply Forall_forall. intros c Hc. apply elem_of_replicate in Hc as [-> _].
  apply length_replicate.
Qed.

Lemma cell_replicate {A : Type} (n x y : nat) (v : A) :
  (x < n)%nat -> (y < n)%nat -> cell (replicate n (replicate n v)) x y = Some v.
Proof.
  intros Hx Hy. unfold cell. rewrite lookup_replicate_2 by done. simpl.
  by rewrite lookup_replicate_2.
Qed.

Lemma cell_insert {A : Type} (g : list (list A)) (i j x y : nat) col (v : A) :
  g !! i = Some col -> (j < length col)%nat ->
  cell (<[i := <[j := v]> col]> g) x y
  = if decide (x = i /\ y = j) then Some v else cell g x y.
Proof.
  intros Hc Hj. unfold cell. destruct (decide (x = i)) as [->|Hne].
  - rewrite list_lookup_insert_eq by (by eapply lookup_lt_Some). simpl.
    rewrite Hc. simpl. destruct (decide (y = j)) as [->|Hne].
    + rewrite list_lookup_insert_eq by done. by rewrite decide_True.
    + rewrite list_lookup_insert_ne by done. by rewrite decide_False by tauto.
  - rewrite list_lookup_insert_ne by done. by rewrite decide_False by tauto.
Qed.

(** A loop whose body keeps a property keeps it. *)
Lemma for_each_preserves {A St : Type} (I : St -> Prop) (l : list A)
    (body : A -> St -> result St) (s s' : St) :
  (forall a s s', body a s = Ok s' -> I s -> I s') ->
  for_each l body s = Ok s' -> I s -> I s'.
Proof.
  intros Hbody. revert s. induction l as [|a l IH]; intros s; simpl.
  - by intros [= <-].
  - intros (s1 & H1 & H2)%bind_Ok Hs. eapply IH; [exact H2|]. by eapply Hbody.
Qed.

(** ** The result of [flatten] is a square *)

Lemma splice_cell_square (n : nat) (block child : Block) (unit_size : Z)
    (temp : Grid) (ij : nat * nat) (final final' : Grid) :
  splice_cell block child unit_size temp ij final = Ok final' ->
  square n final -> square n final'.
Proof.
  unfold splice_cell. destruct ij as [i j].
  intros (dx & _ & (dy & _ & (v & _ & H)%bind_Ok)%bind_Ok)%bind_Ok.
  by eapply setitem2_square.
Qed.

Lemma flatten_square (b : Block) (g : Grid) :
  flatten b = Ok g -> square (side b) g.
Proof.
  destruct b as [pos sz col lvl md chs]. unfold side. simpl.
  destruct (md - lvl <? 0); [discriminate|].
  set (n := Z.to_nat (2 ^ (md - lvl))).
  pose proof (square_replicate n (@None Colour)) as Hsq.
  revert Hsq. generalize (replicate n (replicate n (@None Colour))).
  destruct col as [c|].
  - intros final Hsq H. unfold fill in H.
    eapply (for_each_preserves (square n)); [|exact H|exact Hsq].
    intros [i j] s s' Hs. by eapply setitem2_square.
  - induction chs as [|child chs IH]; intros final Hsq.
    + by intros [= <-].
    + intros (temp & _ & (final' & Hsp & H)%bind_Ok)%bind_Ok.
      eapply IH; [|exact H].
      eapply (for_each_preserves (square n)); [|exact Hsp|exact Hsq].
      intros ij s s'. apply splice_cell_square.
Qed.

Lemma flatten_length (b : Block) (g : Grid) :
  flatten b = Ok g -> length g = side b.
Proof. by intros [? _]%flatten_square. Qed.

(** * Boards *)

(** Induction on a board, the children all satisfying the property. *)
Lemma Block_induction (P : Block -> Prop) :
  (forall pos sz col lvl md chs,
     Forall P chs -> P (mkBlock pos sz col lvl md chs)) ->
  forall b, P b.
Proof.
  intros H.
  refine (fix IH (b : Block) : P b :=
            match b with
            | mkBlock pos sz col lvl md chs =>
              H pos sz col lvl md chs
                ((fix go (l : list Block) : Forall P l :=
                    match l with
                    | [] => Forall_nil_2 P
                    | c :: l' => Forall_cons_2 P c l' (IH c) (go l')
                    end) chs)
            end).
Qed.

Lemma _get_block_unfold (b : Block) (location : Z * Z) (lvl : Z) :
  _get_block b location lvl
  = if negb (contains b location) then None
    else if lvl =? level b then Some b
    else if colour b is Some _ then Some b
    else _get_block_children (children b) location lvl.
Proof.
  destruct b as [pos sz col l md chs]. simpl.
  destruct (negb _); [done|]. destruct (lvl =? l); [done|].
  destruct col; [done|]. induction chs as [|c chs IH]; [done|].
  simpl. destruct (_get_block c location lvl); [done|]. apply IH.
Qed.

Lemma flatten_unfold (b : Block) :
  flatten b
  = if max_depth b - level b <? 0
    then Raise (flatten_float (size b) (max_depth b - level b))
    else match colour b with
         | Some c => fill (side b) (Some c) (blank (side b))
         | None =>
           flatten_children b (size b / 2 ^ (max_depth b - level b)) (children b)
             (blank (side b))
         end.
Proof.
  destruct b as [pos sz col l md chs]. simpl.
  destruct (md - l <? 0); [done|]. destruct col; [done|].
  unfold side, blank. simpl.
  generalize (replicate (Z.to_nat (2 ^ (md - l)))
                (replicate (Z.to_nat (2 ^ (md - l))) (@None Colour))).
  generalize (mkBlock pos sz None l md chs) as blk. intros blk.
  induction chs as [|c chs IH]; intros final; [done|].
  simpl. destruct (flatten c); [|done..]. rewrite !bind_ok.
  destruct (splice _ _ _ _ _); [|done..]. rewrite !bind_ok. apply IH.
Qed.

(** ** What the geometry of a board says *)

Lemma wf_board_unfold (b : Block) :
  wf_board b
  = (level b <=? max_depth b) && (0 <? size b) &&
    (size b mod 2 ^ (max_depth b - level b) =? 0) &&
    match colour b with
    | Some _ => bool_decide (length (children b) = 0%nat)
    | None =>
      bool_decide (length (children b) = 4%nat) &&
      forallb (fun c => (level c =? level b + 1) && (max_depth c =? max_depth b) &&
                        (size c =? size b / 2) && wf_board c) (children b) &&
      forallb (fun k => existsb (fun c => bool_decide (position c = k)) (children b))
              (corners (position b) (size b / 2))
    end.
Proof. by destruct b. Qed.

Lemma wf_board_inv (b : Block) :
  wf_board b = true ->
  level b <= max_depth b /\ 0 < size b /\
  size b mod 2 ^ (max_depth b - level b) = 0 /\
  match colour b with
  | Some _ => children b = []
  | None =>
    length (children b) = 4%nat /\
    Forall (fun c => level c = level b + 1 /\ max_depth c = max_depth b /\
                     size c = size b / 2 /\ wf_board c = true) (children b) /\
    Forall (fun k => exists c, c ∈ children b /\ position c = k)
           (corners (position b) (size b / 2))
  end.
Proof.
  rewrite wf_board_unfold.
  rewrite !andb_true_iff. intros [[[H1 H2] H3] H4].
  split; [lia|]. split; [lia|]. split; [lia|].
  destruct (colour b).
  - apply bool_decide_eq_true in H4. by destruct (children b).
  - rewrite !andb_true_iff in H4. destruct H4 as [[Hlen Hch] Hco].
    apply bool_decide_eq_true in Hlen. split; [done|]. split.
    + rewrite forallb_forall in Hch. apply Forall_forall. intros c Hc.
      apply list_elem_of_In, Hch in Hc. rewrite !andb_true_iff in Hc.
      destruct Hc as [[[? ?] ?] ?]. split_and!; [lia..|done].
    + rewrite forallb_forall in Hco. apply Forall_forall. intros k Hk.
      apply list_elem_of_In, Hco, existsb_exists in Hk as (c & Hc & Hp).
      apply bool_decide_eq_true in Hp. exists c. split; [|done].
      by apply list_elem_of_In.
Qed.

(** The side of an internal node is twice the side of its children. *)
Lemma wf_board_half (b : Block) :
  wf_board b = true -> colour b = None ->
  level b < max_depth b /\ size b = 2 * (size b / 2) /\ 0 < size b / 2.
Proof.
  intros Hwf Hcol. destruct (wf_board_inv b Hwf) as (Hl & Hs & Hm & Hc).
  rewrite Hcol in Hc. destruct Hc as (Hlen & Hch & _).
  destruct (children b) as [|c chs]; [done|].
  apply Forall_cons in Hch as [(Hcl & Hcm & _ & Hcwf) _].
  destruct (wf_board_inv c Hcwf) as (Hl' & _).
  assert (Hlt : level b < max_depth b) by lia. split; [done|].
  assert (Hdiv : (2 | size b)).
  { apply Z.mod_divide in Hm; [|apply Z.pow_nonzero; lia].
    etrans; [|exact Hm].
    exists (2 ^ (max_depth b - level b - 1)).
    replace (max_depth b - level b) with (Z.succ (max_depth b - level b - 1)) at 1 by lia.
    rewrite Z.pow_succ_r by lia. lia. }
  destruct Hdiv as [q Hq]. rewrite Hq, Z.div_mul by done. lia.
Qed.

Lemma side_pos (b : Block) : level b <= max_depth b -> (0 < side b)%nat.
Proof.
  intros H. unfold side.
  assert (0 < 2 ^ (max_depth b - level b)) by (apply Z.pow_pos_nonneg; lia). lia.
Qed.

Lemma side_child (b c : Block) :
  level b < max_depth b -> level c = level b + 1 -> max_depth c = max_depth b ->
  side b = (2 * side c)%nat.
Proof.
  intros Hl Hc Hm. unfold side. rewrite Hc, Hm.
  replace (max_depth b - level b) with (Z.succ (max_depth b - (level b + 1))) by lia.
  rewrite Z.pow_succ_r by lia.
  assert (0 < 2 ^ (max_depth b - (level b + 1))) by (apply Z.pow_pos_nonneg; lia).
  lia.
Qed.

(** Sound geometry includes the leaf/children invariant. *)
Lemma wf_board_invariant (b : Block) : wf_board b = true -> Board_invariant b = true.
Proof.
  induction b as [pos sz col lvl md chs IH] using Block_induction. intros Hwf.
  destruct (wf_board_inv _ Hwf) as (Hl & _ & _ & Hc). simpl in *.
  apply andb_true_iff. split; [lia|]. destruct col.
  - rewrite Hc. reflexivity.
  - destruct Hc as (Hlen & Hch & _). apply andb_true_iff. split.
    + by apply bool_decide_eq_true.
    + apply forallb_forall. intros c Hc%list_elem_of_In.
      rewrite Forall_forall in IH, Hch. apply IH; [done|]. by apply Hch.
Qed.

(** * settings.py *)

Lemma colour_name_known (c : Colour) (name : string) :
  (c, name) ∈ colour_names -> colour_name c = Ok name.
Proof.
  unfold colour_names. rewrite !elem_of_cons, elem_of_nil.
  intros [H|[H|[H|[H|[]]]]]; inversion H; subst; reflexivity.
Qed.

Lemma colour_name_unknown (c : Colour) :
  c ∉ COLOUR_LIST -> colour_name c = Raise UnknownColourError.
Proof.
  unfold COLOUR_LIST. rewrite !not_elem_of_cons. intros (H1 & H2 & H3 & H4 & _).
  unfold colour_name, colour_names, dict_get.
  repeat (destruct (decide _); [congruence|]). reflexivity.
Qed.

(** C9: [colour_name] raises [UnknownColourError] exactly for the colours
    outside the palette [COLOUR_LIST]; for a colour of the palette it returns
    the name that the dictionary gives it, and it never returns anything for
    an unknown colour. *)
Theorem colour_name_spec (c : Colour) :
  (colour_name c = Raise UnknownColourError <-> c ∉ COLOUR_LIST) /\
  (c ∈ COLOUR_LIST ->
     exists name, (c, name) ∈ colour_names /\ colour_name c = Ok name) /\
  (c ∉ COLOUR_LIST -> forall name, colour_name c <> Ok name) /\
  colour_name PACIFIC_POINT = Ok "Pacific Point"%string /\
  colour_name REAL_RED = Ok "Real Red"%string /\
  colour_name OLD_OLIVE = Ok "Old Olive"%string /\
  colour_name DAFFODIL_DELIGHT = Ok "Daffodil Delight"%string.
Proof.
  assert (Hin : c ∈ COLOUR_LIST ->
     exists name, (c, name) ∈ colour_names /\ colour_name c = Ok name).
  { unfold COLOUR_LIST. rewrite !elem_of_cons, elem_of_nil.
    intros [->|[->|[->|[->|[]]]]]; eexists; (split; [|reflexivity]);
      unfold colour_names; set_solver. }
  split; [split|split; [exact Hin|split]].
  - intros Hr Hc. destruct (Hin Hc) as (name & _ & Hn). congruence.
  - apply colour_name_unknown.
  - intros Hc name. rewrite (colour_name_unknown c Hc). discriminate.
  - repeat split; reflexivity.
Qed.

(** * Random draws *)

Lemma choice_elem {A : Type} (l : list A) (r : nat) :
  l <> [] -> exists a, choice l r = Ok a /\ a ∈ l.
Proof.
  intros Hl. unfold choice.
  assert (Hlt : (r mod length l < length l)%nat).
  { apply Nat.mod_upper_bound. destruct l; simpl; [done|lia]. }
  destruct (lookup_lt_is_Some_2 l _ Hlt) as [a Ha]. rewrite Ha.
  exists a. split; [done|]. by eapply list_elem_of_lookup_2.
Qed.

Lemma choice_empty {A : Type} (r : nat) : choice (@nil A) r = Raise IndexError.
Proof. reflexivity. Qed.

Lemma randint_range (a b : Z) (r : nat) :
  a <= b -> exists v, randint a b r = Ok v /\ a <= v <= b.
Proof.
  intros Hab. unfold randint. destruct (Z.ltb_spec b a); [lia|].
  eexists; split; [reflexivity|].
  pose proof (Z.mod_pos_bound (Z.of_nat r) (b - a + 1)). lia.
Qed.

Lemma randint_Ok (a b : Z) (r : nat) (v : Z) :
  randint a b r = Ok v -> a <= v <= b.
Proof.
  unfold randint. destruct (Z.ltb_spec b a); [discriminate|]. intros [= <-].
  pose proof (Z.mod_pos_bound (Z.of_nat r) (b - a + 1)). lia.
Qed.

Lemma randint_empty (a b : Z) (r : nat) : b < a -> randint a b r = Raise ValueError.
Proof. intros H. unfold randint. destruct (Z.ltb_spec b a); [done|lia]. Qed.

(** * goal.py: generate_goals *)

Lemma list_remove_elem (x : Colour) (l : list Colour) :
  x ∈ l -> exists l', list_remove x l = Ok l' /\ l ≡ₚ x :: l'.
Proof.
  induction l as [|y l IH]; [by rewrite elem_of_nil|].
  intros Hx. simpl. destruct (decide (x = y)) as [->|Hne]; [eauto|].
  apply elem_of_cons in Hx as [?|Hx]; [done|].
  destruct (IH Hx) as (l' & -> & Hp). simpl. eexists; split; [done|].
  rewrite Hp. apply perm_swap.
Qed.

Lemma COLOUR_LIST_NoDup : NoDup COLOUR_LIST.
Proof.
  unfold COLOUR_LIST.
  repeat (apply NoDup_cons; split;
          [rewrite ?not_elem_of_cons, elem_of_nil; repeat split; try discriminate; tauto|]).
  apply NoDup_nil_2.
Qed.

Lemma generate_goals_step_invariant (rnd : nat -> nat) (k : nat)
    (st : list Colour * list Goal) :
  (k < length COLOUR_LIST)%nat -> goals_invariant k st ->
  exists st', generate_goals_step rnd k st = Ok st' /\ goals_invariant (S k) st'.
Proof.
  destruct st as [colours final]. intros Hk (Hnd & Hlen & Hfin & Hsub); simpl in Hnd, Hlen, Hfin, Hsub.
  assert (Hne : colours <> []) by (destruct colours; simpl in *; [lia|done]).
  destruct (choice_elem colours (rnd (2 * k)%nat) Hne) as (c & Hc & Hin).
  destruct (list_remove_elem c colours Hin) as (colours' & Hrm & Hp).
  destruct (randint_range 1 2 (rnd (2 * k + 1)%nat)) as (t & Ht & _); [lia|].
  cbv beta iota delta [generate_goals_step]. rewrite Hc, bind_ok, Hrm, bind_ok, Ht, bind_ok.
  assert (Hperm : forall kd, colours' ++ (target <$> final ++ [mkGoal kd c])
                             ≡ₚ colours ++ (target <$> final)).
  { intros kd. rewrite fmap_app, Hp. simpl.
    rewrite (Permutation_app_comm (target <$> final) [c]). simpl.
    by rewrite Permutation_middle. }
  assert (Hl : (length colours' + S k = length COLOUR_LIST)%nat).
  { apply Permutation_length in Hp. simpl in Hp |- *. lia. }
  destruct (t =? 1); (eexists; split; [reflexivity|]);
    unfold goals_invariant; cbn [fst snd]; split_and!.
  all: try (rewrite Hperm; exact Hnd).
  all: try exact Hl.
  all: try (rewrite length_app; simpl; lia).
  all: intros c'; rewrite Hperm; apply Hsub.
Qed.

(** C8: for every count that does not exceed the size of the palette, and
    whatever the random draws are, [generate_goals] returns a list of exactly
    that many goals whose colours are pairwise distinct and all taken from
    [COLOUR_LIST]; every goal is a [PerimeterGoal] or a [BlobGoal]. *)
Theorem generate_goals_distinct (rnd : nat -> nat) (num_goals : nat) :
  (num_goals <= length COLOUR_LIST)%nat ->
  exists goals,
    generate_goals rnd num_goals = Ok goals /\
    length goals = num_goals /\
    NoDup (target <$> goals) /\
    (forall g, g ∈ goals ->
       target g ∈ COLOUR_LIST /\ (kind g = PerimeterGoal \/ kind g = BlobGoal)).
Proof.
  intros Hn. unfold generate_goals.
  destruct (for_each_invariant
              (fun k st => (k <= num_goals)%nat /\ goals_invariant k st)
              (range num_goals) (generate_goals_step rnd) (COLOUR_LIST, []))
    as ([colours final] & -> & _ & Hnd & _ & Hlen & Hsub).
  - intros k a st Hk [Hle Hinv]. apply range_lookup in Hk as [-> Hk].
    destruct (generate_goals_step_invariant rnd k st) as (st' & ? & ?); [lia|done|].
    exists st'. split; [done|]. split; [lia|done].
  - split; [lia|]. repeat split; simpl; rewrite ?app_nil_r; auto.
    apply COLOUR_LIST_NoDup.
  - rewrite range_length in *. simpl in *. exists final. split; [done|].
    split; [done|]. split; [by apply NoDup_app in Hnd as (_ & _ & ?)|].
    intros g Hg. split.
    + apply Hsub, elem_of_app. right. by apply list_elem_of_fmap_2.
    + destruct (kind g); auto.
Qed.

(** Both kinds do occur, and a kind may repeat. *)
Example generate_goals_kinds :
  generate_goals (fun k => k) 2
    = Ok [mkGoal PerimeterGoal PACIFIC_POINT; mkGoal PerimeterGoal DAFFODIL_DELIGHT] /\
  generate_goals (fun k => 0%nat) 2
    = Ok [mkGoal BlobGoal PACIFIC_POINT; mkGoal BlobGoal REAL_RED].
Proof. split; reflexivity. Qed.

Lemma generate_goals_distinct_witness :
  (3 <= length COLOUR_LIST)%nat /\
  exists goals,
    generate_goals (fun k => (7 * k + 3)%nat) 3 = Ok goals /\
    length goals = 3%nat /\
    NoDup (target <$> goals) /\
    (forall g, g ∈ goals ->
       target g ∈ COLOUR_LIST /\ (kind g = PerimeterGoal \/ kind g = BlobGoal)).
Proof.
  split; [simpl; lia|].
  apply (generate_goals_distinct (fun k => (7 * k + 3)%nat) 3). simpl; lia.
Defined.

(** * player.py: _get_block *)

Lemma contains_spec (b : Block) (loc : Z * Z) :
  contains b loc = true <->
  (position b).1 <= loc.1 < (position b).1 + size b /\
  (position b).2 <= loc.2 < (position b).2 + size b.
Proof. unfold contains. rewrite !andb_true_iff. lia. Qed.

Lemma corners_NoDup (pos : Z * Z) (h : Z) : 0 < h -> NoDup (corners pos h).
Proof.
  intros Hh. unfold corners.
  repeat (apply NoDup_cons; split;
          [rewrite ?not_elem_of_cons, elem_of_nil;
           repeat split; try (intros [= ?]; lia); tauto|]).
  apply NoDup_nil_2.
Qed.

(** The children of an internal node sit on the four quadrants, one each. *)
Lemma children_positions (b : Block) :
  wf_board b = true -> colour b = None ->
  position <$> children b ≡ₚ corners (position b) (size b / 2).
Proof.
  intros Hwf Hcol. destruct (wf_board_half b Hwf Hcol) as (_ & _ & Hh).
  destruct (wf_board_inv b Hwf) as (_ & _ & _ & Hc). rewrite Hcol in Hc.
  destruct Hc as (Hlen & _ & Hco). symmetry.
  apply submseteq_length_Permutation.
  - apply NoDup_submseteq; [by apply corners_NoDup|].
    intros k Hk. rewrite Forall_forall in Hco.
    destruct (Hco k Hk) as (c & Hc & <-). by apply list_elem_of_fmap_2.
  - by rewrite length_fmap, Hlen.
Qed.

Lemma child_facts (b c : Block) :
  wf_board b = true -> c ∈ children b ->
  colour b = None /\ level c = level b + 1 /\ max_depth c = max_depth b /\
  size c = size b / 2 /\ wf_board c = true /\
  position c ∈ corners (position b) (size b / 2).
Proof.
  intros Hwf Hc. destruct (wf_board_inv b Hwf) as (_ & _ & _ & H).
  destruct (colour b) eqn:Hcol.
  - rewrite H in Hc. by apply elem_of_nil in Hc.
  - destruct H as (_ & Hch & _). rewrite Forall_forall in Hch.
    destruct (Hch c Hc) as (? & ? & ? & ?). split_and!; try done.
    rewrite <- (children_positions b Hwf Hcol). by apply list_elem_of_fmap_2.
Qed.

(** The quadrants cover their parent ... *)
Lemma children_cover (b : Block) (loc : Z * Z) :
  wf_board b = true -> colour b = None -> contains b loc = true ->
  exists c, c ∈ children b /\ contains c loc = true.
Proof.
  intros Hwf Hcol Hin. destruct (wf_board_half b Hwf Hcol) as (_ & Hs & Hh).
  destruct (wf_board_inv b Hwf) as (_ & _ & _ & Hc). rewrite Hcol in Hc.
  destruct Hc as (_ & Hch & Hco). rewrite Forall_forall in Hch. rewrite Forall_forall in Hco.
  apply contains_spec in Hin. set (h := size b / 2) in *.
  set (kx := if decide (loc.1 < (position b).1 + h)
             then (position b).1 else (position b).1 + h).
  set (ky := if decide (loc.2 < (position b).2 + h)
             then (position b).2 else (position b).2 + h).
  destruct (Hco (kx, ky)) as (c & Hc & Hp).
  { unfold corners, kx, ky. rewrite !elem_of_cons.
    repeat case_decide; tauto. }
  exists c. split; [done|]. destruct (Hch c Hc) as (_ & _ & Hsz & _).
  apply contains_spec. rewrite Hp, Hsz. fold h. simpl.
  unfold kx, ky. repeat case_decide; lia.
Qed.

(** ... lie inside it ... *)
Lemma child_inside (b c : Block) (loc : Z * Z) :
  wf_board b = true -> c ∈ children b -> contains c loc = true ->
  contains b loc = true.
Proof.
  intros Hwf Hc Hin. destruct (child_facts b c Hwf Hc) as (Hcol & _ & _ & Hsz & _ & Hp).
  destruct (wf_board_half b Hwf Hcol) as (_ & Hs & Hh).
  apply contains_spec in Hin. apply contains_spec. rewrite Hsz in Hin.
  unfold corners in Hp. rewrite !elem_of_cons, elem_of_nil in Hp.
  destruct Hp as [Hp|[Hp|[Hp|[Hp|[]]]]]; rewrite Hp in Hin; simpl in Hin; lia.
Qed.

(** ... and do not overlap. *)
Lemma children_disjoint (b c1 c2 : Block) (loc : Z * Z) :
  wf_board b = true -> c1 ∈ children b -> c2 ∈ children b ->
  contains c1 loc = true -> contains c2 loc = true -> c1 = c2.
Proof.
  intros Hwf H1 H2 Hin1 Hin2.
  destruct (child_facts b c1 Hwf H1) as (Hcol & _ & _ & Hsz1 & _ & Hp1).
  destruct (child_facts b c2 Hwf H2) as (_ & _ & _ & Hsz2 & _ & Hp2).
  destruct (wf_board_half b Hwf Hcol) as (_ & Hs & Hh).
  assert (Hpos : position c1 = position c2).
  { apply contains_spec in Hin1, Hin2. rewrite Hsz1 in Hin1. rewrite Hsz2 in Hin2.
    unfold corners in Hp1, Hp2. rewrite !elem_of_cons, elem_of_nil in Hp1, Hp2.
    destruct Hp1 as [Hp1|[Hp1|[Hp1|[Hp1|[]]]]], Hp2 as [Hp2|[Hp2|[Hp2|[Hp2|[]]]]];
      rewrite Hp1, Hp2; rewrite Hp1 in Hin1; rewrite Hp2 in Hin2;
      simpl in Hin1, Hin2; f_equal; lia. }
  assert (Hnd : NoDup (position <$> children b)).
  { rewrite (children_positions b Hwf Hcol). by apply corners_NoDup. }
  apply list_elem_of_lookup in H1 as [i Hi]. apply list_elem_of_lookup in H2 as [j Hj].
  assert (i = j) as ->; [|congruence].
  eapply NoDup_lookup; [exact Hnd| |].
  - by rewrite list_lookup_fmap, Hi.
  - by rewrite list_lookup_fmap, Hj, Hpos.
Qed.

Lemma in_board_facts (d b : Block) (loc : Z * Z) :
  in_board d b -> wf_board b = true ->
  wf_board d = true /\ level b <= level d /\ max_depth d = max_depth b /\
  (contains d loc = true -> contains b loc = true).
Proof.
  induction 1 as [|b c Hc Hd IH]; intros Hwf; [by split_and!|].
  destruct (child_facts b c Hwf Hc) as (_ & Hl & Hm & _ & Hcwf & _).
  destruct (IH Hcwf) as (? & ? & ? & Hin). split_and!; [done|lia|congruence|].
  intros H'. eapply child_inside; eauto.
Qed.

Lemma _get_block_children_spec (cs : list Block) (loc : Z * Z) (t : Z) :
  match _get_block_children cs loc t with
  | Some d =>
    exists i c, cs !! i = Some c /\ _get_block c loc t = Some d /\
      forall j c', (j < i)%nat -> cs !! j = Some c' -> _get_block c' loc t = None
  | None => forall c, c ∈ cs -> _get_block c loc t = None
  end.
Proof.
  induction cs as [|c cs IH]; simpl.
  - intros c Hc. by apply elem_of_nil in Hc.
  - destruct (_get_block c loc t) as [d|] eqn:Hd.
    + exists 0%nat, c. split_and!; [done..|]. intros; lia.
    + destruct (_get_block_children cs loc t) as [d|].
      * destruct IH as (i & c' & Hi & Hc' & Hfirst). exists (S i), c'.
        split_and!; [done..|]. intros [|j] c'' Hj Hc''; simpl in Hc''.
        -- by injection Hc'' as <-.
        -- apply (Hfirst j); [lia|done].
      * intros c' [->|Hc']%elem_of_cons; auto.
Qed.

(** What [_get_block] answers on a board of sound geometry. *)
Lemma _get_block_sound (b : Block) :
  forall loc t,
    wf_board b = true -> level b <= t <= max_depth b ->
    (_get_block b loc t = None <-> contains b loc = false) /\
    (forall d, _get_block b loc t = Some d ->
       in_board d b /\ contains d loc = true /\
       (level d = t \/ (level d < t /\ is_Some (colour d)))) /\
    (forall d d', _get_block b loc t = Some d ->
       in_board d' b -> contains d' loc = true ->
       (level d' = t \/ (level d' < t /\ is_Some (colour d'))) -> d' = d).
Proof.
  induction b as [pos sz col lvl md chs IH] using Block_induction.
  intros loc t Hwf Ht. rewrite _get_block_unfold.
  set (b := mkBlock pos sz col lvl md chs) in *.
  destruct (contains b loc) eqn:Hin; simpl negb; cbv iota.
  2:{ split_and!; [done|discriminate|discriminate]. }
  assert (Hself : forall d', in_board d' b ->
            (level d' = t \/ (level d' < t /\ is_Some (colour d'))) ->
            (t = lvl \/ is_Some col) -> d' = b).
  { intros d' Hd' Hlev Hcase. inversion Hd' as [|b' c Hc Hdc]; [done|]. subst b'.
    destruct (child_facts b c Hwf Hc) as (Hcol & Hl & _ & _ & Hcwf & _).
    destruct (in_board_facts d' c loc Hdc Hcwf) as (_ & Hlev' & _).
    simpl in Hcol, Hl, Ht. destruct Hcase as [->|[? Hsome]]; [lia|congruence]. }
  destruct (Z.eqb_spec t (level b)) as [Heq|Hne].
  { split_and!; [done| |].
    - intros d [= <-]. split_and!; [constructor|done|auto].
    - intros d d' [= <-] Hd' _ Hlev. apply Hself; auto. }
  destruct col as [c0|] eqn:Hcol; simpl colour; cbv iota.
  { split_and!; [done| |].
    - intros d [= <-]. split_and!; [constructor|done|]. right. simpl in *. split; [lia|eauto].
    - intros d d' [= <-] Hd' _ Hlev. apply Hself; eauto. }
  simpl children. simpl in Hne, Ht.
  assert (Hch : forall c, c ∈ chs ->
            wf_board c = true /\ level c <= t <= max_depth c).
  { intros c Hc. destruct (child_facts b c Hwf Hc) as (_ & Hl & Hm & _ & Hcwf & _).
    simpl in Hl, Hm. split; [done|lia]. }
  rewrite Forall_forall in IH.
  pose proof (_get_block_children_spec chs loc t) as Hloop.
  destruct (_get_block_children chs loc t) as [d|].
  - destruct Hloop as (i & c & Hi & Hd & _).
    assert (Hc : c ∈ chs) by (by eapply list_elem_of_lookup_2).
    destruct (Hch c Hc) as [Hcwf Hct].
    destruct (IH c Hc loc t Hcwf Hct) as (_ & Hsound & Huniq).
    destruct (Hsound d Hd) as (Hdc & Hdin & Hdl).
    split_and!; [done| |].
    + intros d0 [= <-]. split_and!; [|done..]. by eapply in_board_child.
    + intros d0 d' [= <-] Hd' Hin' Hlev.
      inversion Hd' as [|b' c' Hc' Hdc']; subst.
      * exfalso. simpl in Hlev. destruct Hlev as [?|[_ [? ?]]]; [lia|discriminate].
      * destruct (Hch c' Hc') as [Hcwf' _].
        destruct (in_board_facts d' c' loc Hdc' Hcwf') as (_ & _ & _ & Hup).
        destruct (in_board_facts d c loc Hdc Hcwf) as (_ & _ & _ & Hup0).
        assert (c' = c) as -> by (eapply (children_disjoint b); eauto).
        by eapply Huniq.
  - exfalso. destruct (children_cover b loc Hwf eq_refl Hin) as (c & Hc & Hcin).
    destruct (Hch c Hc) as [Hcwf Hct].
    destruct (IH c Hc loc t Hcwf Hct) as (Hnone & _).
    apply Hnone in Hloop; [congruence|done].
Qed.

(** C5 as stated fails on a board that satisfies the leaf/children invariant
    but whose children do not cover it: the coordinate (4, 4) lies inside the
    extent of the root of side 5, and the lookup at level 1 is absent. *)
Lemma _get_block_odd_board_counterexample :
  Board_invariant odd_board = true /\
  level odd_board <= 1 <= max_depth odd_board /\
  contains odd_board (4, 4) = true /\
  _get_block odd_board (4, 4) 1 = None.
Proof. split_and!; [reflexivity|simpl; lia..|reflexivity|reflexivity]. Qed.

(** C5 (amended): on a board of sound geometry (the side a positive multiple
    of the number of unit cells across, the children of every internal node
    its four quadrants) and for a target level between the level of the board
    and the maximal depth, [_get_block] is absent exactly when the coordinate
    lies outside the extent of the root, closed on the low edges and open on
    the high edges (the top-left corner is inside, the right and bottom edges
    are not).  Otherwise it returns a node of the board that contains the
    coordinate and either is at the target level or is a leaf above it, and
    it is the only such node of the board. *)
Theorem _get_block_locates (b : Block) (loc : Z * Z) (t : Z) :
  wf_board b = true -> level b <= t <= max_depth b ->
  (_get_block b loc t = None <-> contains b loc = false) /\
  (contains b loc = true <->
     (position b).1 <= loc.1 < (position b).1 + size b /\
     (position b).2 <= loc.2 < (position b).2 + size b) /\
  contains b (position b) = true /\
  contains b ((position b).1 + size b, loc.2) = false /\
  contains b (loc.1, (position b).2 + size b) = false /\
  (contains b loc = true ->
   exists d,
     _get_block b loc t = Some d /\ in_board d b /\ contains d loc = true /\
     (level d = t \/ (level d < t /\ is_Some (colour d))) /\
     forall d', in_board d' b -> contains d' loc = true ->
                (level d' = t \/ (level d' < t /\ is_Some (colour d'))) -> d' = d).
Proof.
  intros Hwf Ht. destruct (_get_block_sound b loc t Hwf Ht) as (Hnone & Hsound & Huniq).
  destruct (wf_board_inv b Hwf) as (_ & Hsz & _).
  split_and!.
  - exact Hnone.
  - apply contains_spec.
  - apply contains_spec. lia.
  - apply not_true_is_false. rewrite contains_spec. simpl. lia.
  - apply not_true_is_false. rewrite contains_spec. simpl. lia.
  - intros Hin. destruct (_get_block b loc t) as [d|] eqn:Hd.
    + exists d. destruct (Hsound d eq_refl) as (? & ? & ?). split_and!; try done.
      intros d'. by apply Huniq.
    + destruct Hnone as [Hn _]. rewrite Hn in Hin; done.
Qed.

Lemma _get_block_locates_witness :
  _get_block sample_board (3, 1) 1 = Some (mkBlock (2, 0) 2 (Some REAL_RED) 1 1 []) /\
  _get_block sample_board (4, 1) 1 = None.
Proof.
  destruct (_get_block_locates sample_board (3, 1) 1) as (_ & _ & _ & _ & _ & Hsome);
    [reflexivity|simpl; lia|].
  destruct (_get_block_locates sample_board (4, 1) 1) as (Hnone & _);
    [reflexivity|simpl; lia|].
  split.
  - destruct Hsome as (d & -> & _ & _ & _ & Huniq); [reflexivity|].
    f_equal. symmetry. apply Huniq.
    + eapply in_board_child; [|constructor]. simpl. rewrite elem_of_cons. by left.
    + reflexivity.
    + by left.
  - by apply Hnone.
Defined.

(** * goal.py: flatten *)

Section Flatten.

(** The coordinates of a list of assignments. *)
Local Abbreviation coords ws :=
  (fmap (M:=list) (fun w : Z * Z * option Colour => (w.1.1, w.1.2)) ws).

Lemma replay_app (ws1 ws2 : list (Z * Z * option Colour)) (g : Grid) :
  replay (ws1 ++ ws2) g = replay ws1 g ≫= replay ws2.
Proof. apply for_each_app. Qed.

(** Two squares with the same cells are equal. *)
Lemma grid_ext {A : Type} (n : nat) (g1 g2 : list (list A)) :
  square n g1 -> square n g2 ->
  (forall x y, (x < n)%nat -> (y < n)%nat -> cell g1 x y = cell g2 x y) ->
  g1 = g2.
Proof.
  intros H1 H2 Hc. apply list_eq_same_length with n; [apply H2|apply H1|].
  intros x c1 c2 Hx Hc1 Hc2.
  apply list_eq_same_length with n;
    [by eapply (square_lookup n g2)|by eapply (square_lookup n g1)|].
  intros y v1 v2 Hy Hv1 Hv2. specialize (Hc x y Hx Hy). unfold cell in Hc.
  rewrite Hc1, Hc2 in Hc. simpl in Hc. congruence.
Qed.

(** Assignments inside a square all succeed; afterwards a cell holds a value
    assigned to it, or what it held before if nothing was assigned to it. *)
Lemma replay_in_range (n : nat) (ws : list (Z * Z * option Colour)) (g : Grid) :
  square n g ->
  (forall w, w ∈ ws -> 0 <= w.1.1 < Z.of_nat n /\ 0 <= w.1.2 < Z.of_nat n) ->
  exists g',
    replay ws g = Ok g' /\ square n g' /\
    forall x y, (x < n)%nat -> (y < n)%nat ->
      (exists v, (Z.of_nat x, Z.of_nat y, v) ∈ ws /\ cell g' x y = Some v) \/
      (((Z.of_nat x, Z.of_nat y) ∉ coords ws) /\ cell g' x y = cell g x y).
Proof.
  revert g. induction ws as [|[[wx wy] v] ws IH]; intros g Hsq Hin.
  - exists g. split; [done|]. split; [done|]. intros x y _ _. right.
    split; [apply not_elem_of_nil|done].
  - destruct (Hin (wx, wy, v)) as [Hx Hy]; [by left|]. simpl in Hx, Hy.
    destruct (lookup_lt_is_Some_2 g (Z.to_nat wx)) as [col Hcol];
      [destruct Hsq; lia|].
    pose proof (square_lookup n g _ col Hsq Hcol) as Hlen.
    assert (Hset : setitem2 g wx wy v
                   = Ok (<[Z.to_nat wx := <[Z.to_nat wy := v]> col]> g)).
    { rewrite <- (Z2Nat.id wx) at 1 by lia. rewrite <- (Z2Nat.id wy) at 1 by lia.
      apply setitem2_nat; [done|lia]. }
    destruct (IH (<[Z.to_nat wx := <[Z.to_nat wy := v]> col]> g))
      as (g' & Hrep & Hsq' & Hcells).
    { by apply square_insert. }
    { intros w Hw. apply Hin. by right. }
    exists g'. split; [|split; [done|]].
    { unfold replay in *. simpl. rewrite Hset, bind_ok. exact Hrep. }
    intros x y Hx' Hy'. destruct (Hcells x y Hx' Hy') as [(v' & Hv' & Hc)|[Hnot Hc]].
    + left. exists v'. split; [by right|done].
    + rewrite cell_insert in Hc by (done || lia).
      destruct (decide (x = Z.to_nat wx /\ y = Z.to_nat wy)) as [[-> ->]|Hne].
      * left. exists v. split; [|done]. rewrite !Z2Nat.id by lia. by left.
      * right. split; [|done]. rewrite fmap_cons, not_elem_of_cons. split; [|done].
        simpl. intros [= <- <-]. apply Hne. by rewrite !Nat2Z.id.
Qed.

(** The leaf case is the replay of its assignments. *)
Lemma fill_replay (n : nat) (c : Colour) (final : Grid) :
  fill n (Some c) final
  = replay ((fun '(i, j) => (Z.of_nat j, Z.of_nat i, Some c)) <$> range2 n) final.
Proof.
  unfold fill, replay. rewrite for_each_fmap. apply for_each_ext.
  by intros [i j] s _.
Qed.

(** Splicing a square child is the replay of its assignments. *)
Lemma splice_replay (m : nat) (block child : Block) (unit_size : Z)
    (temp final : Grid) :
  unit_size <> 0 -> square m temp ->
  splice block child unit_size temp final
  = replay (child_assignments block child unit_size temp) final.
Proof.
  intros Hu Hsq. unfold splice, replay, child_assignments.
  rewrite for_each_fmap. apply for_each_ext. intros [i j] s Hij.
  assert (length temp = m) as Hlen by apply Hsq. rewrite Hlen in Hij.
  apply elem_of_range2 in Hij as [Hi Hj].
  unfold splice_cell, floordiv. destruct (Z.eqb_spec unit_size 0); [done|].
  rewrite !bind_ok. destruct (square_cell m temp j i Hsq Hj Hi) as [v Hv].
  by rewrite (getitem2_cell temp j i v Hv), bind_ok, Hv.
Qed.

(** ** The cells that the assignments reach *)

(** The coordinates of the square of side [m] at offset [(ox, oy)], in the
    order the splice visits them. *)
Local Abbreviation rect ox oy m :=
  (fmap (M:=list) (fun ij : nat * nat => (ox + Z.of_nat ij.2, oy + Z.of_nat ij.1))
     (range2 m)).

Lemma elem_of_rect (ox oy : Z) (m : nat) (x y : Z) :
  (x, y) ∈ rect ox oy m <->
  ox <= x < ox + Z.of_nat m /\ oy <= y < oy + Z.of_nat m.
Proof.
  rewrite list_elem_of_fmap. split.
  - intros ([i j] & [= -> ->] & [Hi Hj]%elem_of_range2). simpl. lia.
  - intros [Hx Hy]. exists (Z.to_nat (y - oy), Z.to_nat (x - ox)). split.
    + simpl. f_equal; lia.
    + apply elem_of_range2. lia.
Qed.

Lemma NoDup_rect (ox oy : Z) (m : nat) : NoDup (rect ox oy m).
Proof.
  apply NoDup_fmap_2_strong; [|apply NoDup_range2].
  intros [i j] [i' j'] _ _ [= ? ?]. f_equal; lia.
Qed.

Lemma coords_child_assignments (block child : Block) (u : Z) (temp : Grid) :
  coords (child_assignments block child u temp)
  = rect (((position child).1 - (position block).1) / u)
         (((position child).2 - (position block).2) / u) (length temp).
Proof.
  unfold child_assignments. rewrite <- list_fmap_compose.
  apply list_fmap_ext. by intros _ [i j] _.
Qed.

Lemma coords_bind {A : Type} (f : A -> list (Z * Z * option Colour)) (l : list A) :
  coords (l ≫= f) = l ≫= fun a => coords (f a).
Proof.
  induction l as [|a l IH]; [done|]. by rewrite !bind_cons, fmap_app, IH.
Qed.

(** The unit cell of a board of sound geometry. *)
Lemma wf_board_unit (b : Block) :
  wf_board b = true ->
  0 < size b / 2 ^ (max_depth b - level b) /\
  size b = size b / 2 ^ (max_depth b - level b) * Z.of_nat (side b).
Proof.
  intros Hwf. destruct (wf_board_inv b Hwf) as (Hl & Hs & Hm & _).
  assert (Hp : 0 < 2 ^ (max_depth b - level b)) by (apply Z.pow_pos_nonneg; lia).
  unfold side. rewrite Z2Nat.id by lia.
  pose proof (Z_div_mod_eq_full (size b) (2 ^ (max_depth b - level b))) as Hd.
  rewrite Hm in Hd. split; [|lia].
  apply Z.div_str_pos. split; [done|].
  destruct (Z.le_gt_cases (2 ^ (max_depth b - level b)) (size b)); [done|].
  rewrite Z.mod_small in Hm by lia. lia.
Qed.

(** The offset of a child, in unit cells, is 0 or half the side, according
    to its corner. *)
Lemma child_offsets (b : Block) (m : nat) :
  wf_board b = true -> colour b = None -> side b = (2 * m)%nat ->
  (fun p : Z * Z =>
     (((p.1 - (position b).1) / (size b / 2 ^ (max_depth b - level b))),
      ((p.2 - (position b).2) / (size b / 2 ^ (max_depth b - level b)))))
    <$> corners (position b) (size b / 2)
  = [(Z.of_nat m, 0); (0, 0); (0, Z.of_nat m); (Z.of_nat m, Z.of_nat m)].
Proof.
  intros Hwf Hcol Hside. destruct (wf_board_unit b Hwf) as [Hu Hsz].
  set (u := size b / 2 ^ (max_depth b - level b)) in *.
  assert (Hh : size b / 2 = Z.of_nat m * u).
  { rewrite Hsz, Hside. replace (u * Z.of_nat (2 * m)) with (Z.of_nat m * u * 2) by lia.
    by rewrite Z.div_mul. }
  unfold corners. simpl. rewrite Hh.
  replace ((position b).1 + Z.of_nat m * u - (position b).1) with (Z.of_nat m * u) by lia.
  replace ((position b).2 + Z.of_nat m * u - (position b).2) with (Z.of_nat m * u) by lia.
  rewrite !Z.sub_diag, Z.div_mul, Z.div_0_l by lia. reflexivity.
Qed.

Lemma quadrants_cover (m : nat) (x y : Z) :
  (x, y) ∈ rect (Z.of_nat m) 0 m ++ rect 0 0 m ++ rect 0 (Z.of_nat m) m
           ++ rect (Z.of_nat m) (Z.of_nat m) m <->
  0 <= x < Z.of_nat (2 * m) /\ 0 <= y < Z.of_nat (2 * m).
Proof. rewrite !elem_of_app, !elem_of_rect. lia. Qed.

Lemma quadrants_NoDup (m : nat) :
  NoDup (rect (Z.of_nat m) 0 m ++ rect 0 0 m ++ rect 0 (Z.of_nat m) m
         ++ rect (Z.of_nat m) (Z.of_nat m) m).
Proof.
  repeat (apply NoDup_app; split; [apply NoDup_rect|split]); try apply NoDup_rect.
  all: intros [x y]; rewrite ?elem_of_app, !elem_of_rect; lia.
Qed.

(** The assignments of an internal node reach the four quadrants. *)
Lemma quadrants_perm (b : Block) (m : nat) :
  wf_board b = true -> colour b = None -> side b = (2 * m)%nat ->
  (children b ≫= fun c =>
     rect (((position c).1 - (position b).1) / (size b / 2 ^ (max_depth b - level b)))
          (((position c).2 - (position b).2) / (size b / 2 ^ (max_depth b - level b))) m)
  ≡ₚ rect (Z.of_nat m) 0 m ++ rect 0 0 m ++ rect 0 (Z.of_nat m) m
     ++ rect (Z.of_nat m) (Z.of_nat m) m.
Proof.
  intros Hwf Hcol Hside.
  set (off := fun p : Z * Z =>
     (((p.1 - (position b).1) / (size b / 2 ^ (max_depth b - level b))),
      ((p.2 - (position b).2) / (size b / 2 ^ (max_depth b - level b))))).
  transitivity ((off <$> (position <$> children b)) ≫= fun o => rect o.1 o.2 m).
  { by rewrite !list_fmap_bind. }
  rewrite (children_positions b Hwf Hcol).
  unfold off. rewrite (child_offsets b m Hwf Hcol Hside).
  rewrite !bind_cons. simpl. by rewrite app_nil_r.
Qed.

(** The loop over the children replays their assignments. *)
Lemma flatten_children_replay (m : nat) (b : Block) (u : Z) (cs : list Block)
    (final : Grid) :
  u <> 0 ->
  (forall c, c ∈ cs -> exists temp, flatten c = Ok temp /\ square m temp) ->
  flatten_children b u cs final
  = replay (cs ≫= fun child =>
              match flatten child with
              | Ok temp => child_assignments b child u temp
              | _ => []
              end) final.
Proof.
  intros Hu. revert final. induction cs as [|c cs IH]; intros final Hcs; [done|].
  destruct (Hcs c) as (temp & Htemp & Hsq); [by left|].
  cbn [flatten_children]. rewrite bind_cons, replay_app, Htemp, !bind_ok.
  rewrite (splice_replay m) by done.
  destruct (replay _ final) as [final'| |]; [|done..].
  rewrite !bind_ok. apply IH. intros c' Hc'. apply Hcs. by right.
Qed.

Lemma flatten_wf_main (b : Block) :
  wf_board b = true ->
  exists g,
    flatten b = Ok g /\
    replay (assignments b) (blank (side b)) = Ok g /\
    NoDup (assigned_cells b) /\
    (forall x y, (x, y) ∈ assigned_cells b <->
       0 <= x < Z.of_nat (side b) /\ 0 <= y < Z.of_nat (side b)) /\
    (forall x y, (x < side b)%nat -> (y < side b)%nat ->
       exists c, cell g x y = Some (Some c)) /\
    (forall c, colour b = Some c ->
       g = replicate (side b) (replicate (side b) (Some c))).
Proof.
  induction b as [pos sz col lvl md chs IH] using Block_induction. intros Hwf.
  set (b := mkBlock pos sz col lvl md chs) in *.
  destruct (wf_board_inv b Hwf) as (Hl & _ & _ & Hshape).
  assert (Hneg : (max_depth b - level b <? 0) = false) by (apply Z.ltb_ge; lia).
  (* what is left once the assignments are known to cover the square *)
  assert (Hfinish : forall ws : list (Z * Z * option Colour),
    assignments b = ws -> flatten b = replay ws (blank (side b)) ->
    NoDup (coords ws) ->
    (forall x y, (x, y) ∈ coords ws <->
       0 <= x < Z.of_nat (side b) /\ 0 <= y < Z.of_nat (side b)) ->
    (forall x y v, (x, y, v) ∈ ws -> exists c, v = Some c) ->
    exists g,
      flatten b = Ok g /\ replay (assignments b) (blank (side b)) = Ok g /\
      NoDup (assigned_cells b) /\
      (forall x y, (x, y) ∈ assigned_cells b <->
         0 <= x < Z.of_nat (side b) /\ 0 <= y < Z.of_nat (side b)) /\
      (forall x y, (x < side b)%nat -> (y < side b)%nat ->
         exists c, cell g x y = Some (Some c)) /\
      (forall x y v, (x < side b)%nat -> (y < side b)%nat -> cell g x y = Some v ->
         (Z.of_nat x, Z.of_nat y, v) ∈ ws)).
  { intros ws Hws Hflat Hnd Hcover Hvals.
    destruct (replay_in_range (side b) ws (blank (side b))) as (g & Hg & Hsq & Hcells).
    { apply square_replicate. }
    { intros [[x y] v] Hw. apply Hcover. apply list_elem_of_fmap.
      exists (x, y, v). by split. }
    assert (Hcell : forall x y, (x < side b)%nat -> (y < side b)%nat ->
              exists v, (Z.of_nat x, Z.of_nat y, v) ∈ ws /\ cell g x y = Some v).
    { intros x y Hx Hy. destruct (Hcells x y Hx Hy) as [?|[Hnot _]]; [done|].
      exfalso. apply Hnot, Hcover. lia. }
    exists g. unfold assigned_cells. rewrite Hws. split_and!; try done.
    - by rewrite Hflat.
    - intros x y Hx Hy. destruct (Hcell x y Hx Hy) as (v & Hv & ->).
      destruct (Hvals _ _ _ Hv) as [c ->]. eauto.
    - intros x y v Hx Hy Hv. destruct (Hcell x y Hx Hy) as (v' & Hv' & Hc). congruence. }
  destruct col as [c|] eqn:Hcol.
  - (* a leaf *)
    destruct (Hfinish ((fun '(i, j) => (Z.of_nat j, Z.of_nat i, Some c)) <$> range2 (side b)))
      as (g & Hg & Hrep & Hnd & Hcov & Hpop & Hval).
    + reflexivity.
    + rewrite flatten_unfold, Hneg. simpl colour. cbv iota. apply fill_replay.
    + rewrite <- list_fmap_compose.
      rewrite (list_fmap_ext _ (fun ij : nat * nat => (0 + Z.of_nat ij.2, 0 + Z.of_nat ij.1)))
        by (by intros _ [i j] _).
      apply NoDup_rect.
    + intros x y. rewrite <- list_fmap_compose.
      rewrite (list_fmap_ext _ (fun ij : nat * nat => (0 + Z.of_nat ij.2, 0 + Z.of_nat ij.1)))
        by (by intros _ [i j] _).
      rewrite elem_of_rect. lia.
    + intros x y v ([i j] & [= _ _ ->] & _)%list_elem_of_fmap. eauto.
    + exists g. split_and!; try done. intros c' [= <-].
      apply (grid_ext (side b)); [by apply flatten_square|apply square_replicate|].
      intros x y Hx Hy. rewrite cell_replicate by done.
      destruct (Hpop x y Hx Hy) as [c' Hc']. rewrite Hc'.
      apply Hval in Hc'; [|done..].
      by apply list_elem_of_fmap in Hc' as ([i j] & [= _ _ ->] & _).
  - (* an internal node *)
    destruct Hshape as (Hlen & Hch & _). simpl in Hch, Hlen.
    destruct (wf_board_half b Hwf eq_refl) as (Hlt & _ & _).
    destruct (wf_board_unit b Hwf) as [Hu _].
    set (u := size b / 2 ^ (max_depth b - level b)) in *.
    assert (Hc0 : exists c0, c0 ∈ chs) by (destruct chs; [done|eexists; by left]).
    destruct Hc0 as [c0 Hc0].
    set (m := side c0).
    rewrite Forall_forall in IH, Hch.
    assert (Hside_c : forall c, c ∈ chs -> side c = m /\ side b = (2 * m)%nat).
    { destruct (Hch c0 Hc0) as (Hl0 & Hm0 & _).
      pose proof (side_child b c0 Hlt Hl0 Hm0) as H0.
      intros c Hc. destruct (Hch c Hc) as (Hlc & Hmc & _).
      pose proof (side_child b c Hlt Hlc Hmc). unfold m. lia. }
    assert (Hside : side b = (2 * m)%nat).
    { by apply (Hside_c c0). }
    assert (Hkids : forall c, c ∈ chs ->
              exists temp, flatten c = Ok temp /\ square m temp /\
                forall x y, (x < m)%nat -> (y < m)%nat ->
                  exists c', cell temp x y = Some (Some c')).
    { intros c Hc. destruct (Hch c Hc) as (_ & _ & _ & Hcwf).
      destruct (IH c Hc Hcwf) as (temp & Htemp & _ & _ & _ & Hpop & _).
      destruct (Hside_c c Hc) as [Hm _]. exists temp. split; [done|].
      rewrite <- Hm. split; [by apply flatten_square|done]. }
    set (asg := fun child => match flatten child with
                             | Ok temp => child_assignments b child u temp
                             | _ => []
                             end).
    assert (Hcoords : coords (chs ≫= asg) ≡ₚ
              rect (Z.of_nat m) 0 m ++ rect 0 0 m ++ rect 0 (Z.of_nat m) m
              ++ rect (Z.of_nat m) (Z.of_nat m) m).
    { rewrite <- (quadrants_perm b m Hwf eq_refl Hside). rewrite coords_bind.
      apply reflexive_eq, Forall_bind_ext, Forall_forall. intros c Hc.
      destruct (Hkids c Hc) as (temp & Htemp & [Hlt' _] & _).
      unfold asg. rewrite Htemp, coords_child_assignments, Hlt'. reflexivity. }
    destruct (Hfinish (chs ≫= asg)) as (g & Hg & Hrep & Hnd & Hcov & Hpop & _).
    + reflexivity.
    + rewrite flatten_unfold, Hneg. simpl colour. cbv iota. simpl children.
      apply (flatten_children_replay m); [lia|].
      intros c Hc. destruct (Hkids c Hc) as (temp & ? & ? & _). eauto.
    + rewrite Hcoords. apply quadrants_NoDup.
    + intros x y. rewrite Hcoords, quadrants_cover, Hside. done.
    + intros x y v (c & Hv & Hc)%list_elem_of_bind.
      destruct (Hkids c Hc) as (temp & Htemp & Hsq & Hpop).
      unfold asg in Hv. rewrite Htemp in Hv. unfold child_assignments in Hv.
      apply list_elem_of_fmap in Hv as ([i j] & [= _ _ ->] & Hij).
      destruct Hsq as [Hlt' _]. rewrite Hlt' in Hij.
      apply elem_of_range2 in Hij as [Hi Hj].
      destruct (Hpop j i Hj Hi) as [c' ->]. simpl. eauto.
    + exists g. split_and!; try done.
Qed.

(** A uniform leaf flattens to a grid of its colour, whatever its size. *)
Lemma flatten_leaf (b : Block) (c : Colour) :
  colour b = Some c -> level b <= max_depth b ->
  flatten b = Ok (replicate (side b) (replicate (side b) (Some c))).
Proof.
  intros Hcol Hl. rewrite flatten_unfold, Hcol.
  replace (max_depth b - level b <? 0) with false by (symmetry; apply Z.ltb_ge; lia).
  rewrite fill_replay.
  set (ws := (fun '(i, j) => (Z.of_nat j, Z.of_nat i, Some c)) <$> range2 (side b)).
  assert (Hws : forall x y v, (x, y, v) ∈ ws ->
            0 <= x < Z.of_nat (side b) /\ 0 <= y < Z.of_nat (side b) /\ v = Some c).
  { intros x y v ([i j] & [= -> -> ->] & [Hi Hj]%elem_of_range2)%list_elem_of_fmap.
    split_and!; [lia..|done]. }
  destruct (replay_in_range (side b) ws (blank (side b))) as (g & Hg & Hsq & Hcells).
  { apply square_replicate. }
  { intros [[x y] v] Hw. destruct (Hws x y v Hw) as (? & ? & _). done. }
  rewrite Hg. f_equal.
  apply (grid_ext (side b)); [done|apply square_replicate|].
  intros x y Hx Hy. rewrite cell_replicate by done.
  destruct (Hcells x y Hx Hy) as [(v & Hv & ->)|[Hnot _]].
  - by destruct (Hws _ _ _ Hv) as (_ & _ & ->).
  - exfalso. apply Hnot. apply list_elem_of_fmap.
    exists (Z.of_nat x, Z.of_nat y, Some c). split; [done|].
    apply list_elem_of_fmap. exists (y, x). split; [done|]. by apply elem_of_range2.
Qed.

(** C1 as stated fails on a board that satisfies the leaf/children invariant
    but is smaller than the number of its unit cells: the side 2 over the 4
    cells across gives a unit size of 0, and the splice divides by it. *)
Lemma flatten_tiny_board_counterexample :
  Board_invariant tiny_board = true /\
  flatten tiny_board = Raise ZeroDivisionError /\
  forall g, flatten tiny_board <> Ok g.
Proof. split_and!; [reflexivity|reflexivity|discriminate]. Qed.

(** C1 (amended): a uniform leaf of colour C whose level does not exceed the
    maximal depth flattens to the grid of side n = 2^(max_depth - level)
    whose cells all are C (n = 1 at the maximal depth).  A board of sound
    geometry (the side a positive multiple of the number of unit cells
    across, the children of every internal node its four quadrants one level
    down) flattens to a square grid of that side with a colour in every cell;
    the grid is the outcome of the assignments that the call performs on its
    own [final], and these assign every cell of the square exactly once and
    nothing outside it. *)
Theorem flatten_populated (b : Block) :
  (forall c, colour b = Some c -> level b <= max_depth b ->
     flatten b = Ok (replicate (side b) (replicate (side b) (Some c))) /\
     (level b = max_depth b -> side b = 1%nat)) /\
  (wf_board b = true ->
   exists g,
     flatten b = Ok g /\ square (side b) g /\
     Z.of_nat (side b) = 2 ^ (max_depth b - level b) /\
     (forall x y, (x < side b)%nat -> (y < side b)%nat ->
        exists c, cell g x y = Some (Some c)) /\
     replay (assignments b) (blank (side b)) = Ok g /\
     NoDup (assigned_cells b) /\
     (forall x y, (x, y) ∈ assigned_cells b <->
        0 <= x < Z.of_nat (side b) /\ 0 <= y < Z.of_nat (side b))).
Proof.
  split.
  - intros c Hcol Hl. split; [by apply flatten_leaf|].
    intros Heq. unfold side. rewrite Heq, Z.sub_diag. reflexivity.
  - intros Hwf. destruct (flatten_wf_main b Hwf) as (g & Hg & Hrep & Hnd & Hcov & Hpop & _).
    destruct (wf_board_inv b Hwf) as (Hl & _).
    exists g. split_and!; try done.
    + by apply flatten_square.
    + unfold side. rewrite Z2Nat.id; [done|]. apply Z.pow_nonneg. lia.
Qed.

Lemma flatten_populated_witness :
  flatten sample_board
  = Ok [[Some OLD_OLIVE; Some REAL_RED]; [Some REAL_RED; Some PACIFIC_POINT]] /\
  NoDup (assigned_cells sample_board) /\
  flatten unit_board = Ok [[Some REAL_RED]].
Proof.
  destruct (flatten_populated sample_board) as [_ Hwf].
  destruct Hwf as (g & Hg & _ & _ & _ & _ & Hnd & _); [reflexivity|].
  destruct (flatten_populated unit_board) as [Hleaf _].
  destruct (Hleaf REAL_RED) as [Hunit _]; [reflexivity|simpl; lia|].
  split_and!; [reflexivity|exact Hnd|exact Hunit].
Defined.

End Flatten.

(** * Sums *)

Lemma sumZ_app (l1 l2 : list Z) : sumZ (l1 ++ l2) = sumZ l1 + sumZ l2.
Proof. unfold sumZ. induction l1; simpl; lia. Qed.

Lemma sumZ_fmap_plus {A : Type} (f g : A -> Z) (l : list A) :
  sumZ ((fun a => f a + g a) <$> l) = sumZ (f <$> l) + sumZ (g <$> l).
Proof.
  induction l as [|a l IH]; [done|]. unfold sumZ in *. csimpl. rewrite IH. lia.
Qed.

Lemma sumZ_cons (x : Z) (l : list Z) : sumZ (x :: l) = x + sumZ l.
Proof. reflexivity. Qed.

Lemma sumZ_fmap_ext {A : Type} (f g : A -> Z) (l : list A) :
  (forall a, a ∈ l -> f a = g a) -> sumZ (f <$> l) = sumZ (g <$> l).
Proof.
  induction l as [|a l IH]; intros H; [done|].
  rewrite !fmap_cons, !sumZ_cons, H by left.
  rewrite IH; [done|]. intros; apply H; by right.
Qed.

Lemma sumZ_zero {A : Type} (f : A -> Z) (l : list A) :
  (forall a, a ∈ l -> f a = 0) -> sumZ (f <$> l) = 0.
Proof.
  induction l as [|a l IH]; intros H; [done|].
  rewrite !fmap_cons, !sumZ_cons, H by left.
  rewrite IH; [done|]. intros; apply H; by right.
Qed.

(** A sum in which only the term at [k] may differ from 0. *)
Lemma sumZ_single_seq (f : nat -> Z) (lo n k : nat) :
  sumZ ((fun a => if decide (a = k) then f a else 0) <$> seq lo n)
  = if decide (lo <= k < lo + n)%nat then f k else 0.
Proof.
  revert lo. induction n as [|n IH]; intros lo.
  - simpl. by rewrite decide_False by lia.
  - rewrite <- cons_seq, fmap_cons, sumZ_cons, IH.
    repeat case_decide; subst; lia.
Qed.

Lemma sumZ_single (f : nat -> Z) (n k : nat) :
  (k < n)%nat ->
  sumZ ((fun a => if decide (a = k) then f a else 0) <$> range n) = f k.
Proof.
  intros Hk. unfold range. rewrite sumZ_single_seq. by rewrite decide_True by lia.
Qed.

Lemma sumZ_pairs {A B : Type} (f : A * B -> Z) (xs : list A) (ys : list B) :
  sumZ (f <$> (xs ≫= fun x => (fun y => (x, y)) <$> ys))
  = sumZ ((fun x => sumZ ((fun y => f (x, y)) <$> ys)) <$> xs).
Proof.
  induction xs as [|x xs IH]; [done|].
  rewrite bind_cons, fmap_app, sumZ_app, IH, fmap_cons, sumZ_cons. f_equal.
  by rewrite <- list_fmap_compose.
Qed.

Lemma sumZ_range2 (f : nat * nat -> Z) (n : nat) :
  sumZ (f <$> range2 n)
  = sumZ ((fun x => sumZ ((fun y => f (x, y)) <$> range n)) <$> range n).
Proof. apply sumZ_pairs. Qed.

Lemma sumZ_range_S (f : nat -> Z) (k : nat) :
  sumZ (f <$> range (S k)) = sumZ (f <$> range k) + f k.
Proof.
  unfold range. rewrite seq_S, fmap_app, sumZ_app. unfold sumZ at 2. simpl. lia.
Qed.

(** * goal.py: PerimeterGoal.score *)

Lemma count_if_matches (g : Grid) (target : Colour) (x y : nat)
    (v : option Colour) (count : Z) :
  cell g x y = Some v -> count_if v target count = count + matches g target x y.
Proof.
  intros Hc. unfold count_if, matches. rewrite Hc.
  destruct (decide (v = Some target)) as [->|Hne].
  - rewrite decide_True by done. lia.
  - rewrite decide_False by congruence. lia.
Qed.

Lemma PerimeterGoal_scan_Ok (target : Colour) (g : Grid) (i : nat) (count : Z) :
  square (length g) g -> (i < length g)%nat ->
  PerimeterGoal_scan target g i count
  = Ok (count + (matches g target 0 i + matches g target i 0 +
                 matches g target i (length g - 1) +
                 matches g target (length g - 1) i)).
Proof.
  intros Hsq Hi. unfold PerimeterGoal_scan.
  replace (Z.of_nat (length g) - 1) with (Z.of_nat (length g - 1)) by lia.
  change 0 with (Z.of_nat 0) at 1 2.
  destruct (square_cell _ g 0 i Hsq) as [v1 H1]; [lia..|].
  destruct (square_cell _ g i 0 Hsq) as [v2 H2]; [lia..|].
  destruct (square_cell _ g i (length g - 1) Hsq) as [v3 H3]; [lia..|].
  destruct (square_cell _ g (length g - 1) i Hsq) as [v4 H4]; [lia..|].
  rewrite (getitem2_cell _ _ _ _ H1), bind_ok, (getitem2_cell _ _ _ _ H2), bind_ok,
    (getitem2_cell _ _ _ _ H3), bind_ok, (getitem2_cell _ _ _ _ H4), bind_ok.
  rewrite (count_if_matches g target _ _ _ _ H4), (count_if_matches g target _ _ _ _ H3),
    (count_if_matches g target _ _ _ _ H2), (count_if_matches g target _ _ _ _ H1).
  f_equal. lia.
Qed.

Lemma PerimeterGoal_loop (target : Colour) (g : Grid) :
  square (length g) g ->
  for_each (range (length g)) (PerimeterGoal_scan target g) 0 = Ok (scan_count g target).
Proof.
  intros Hsq.
  set (f := fun i => matches g target 0 i + matches g target i 0 +
                     matches g target i (length g - 1) +
                     matches g target (length g - 1) i).
  destruct (for_each_invariant
              (fun k count => count = sumZ (f <$> range k))
              (range (length g)) (PerimeterGoal_scan target g) 0)
    as (count & -> & Hc).
  - intros k a count Hk ->. apply range_lookup in Hk as [-> Hk].
    rewrite PerimeterGoal_scan_Ok by done. eexists. split; [done|].
    by rewrite sumZ_range_S.
  - done.
  - rewrite range_length in Hc. by rewrite Hc.
Qed.

(** The scans regrouped by cell. *)
Lemma scan_count_by_cell (g : Grid) (target : Colour) :
  scan_count g target = perimeter_count g target.
Proof.
  unfold scan_count, perimeter_count. set (n := length g). set (m := matches g target).
  clearbody n m. destruct (decide (n = 0%nat)) as [->|Hn]; [done|].
  rewrite sumZ_range2.
  transitivity
    (sumZ ((fun x => (if decide (x = 0%nat) then sumZ (m x <$> range n) else 0)
                     + m x 0%nat
                     + (if decide (x = (n - 1)%nat) then sumZ (m x <$> range n) else 0)
                     + m x (n - 1)%nat) <$> range n)).
  - rewrite !sumZ_fmap_plus.
    rewrite (sumZ_single (fun x => sumZ (m x <$> range n)) n 0) by lia.
    rewrite (sumZ_single (fun x => sumZ (m x <$> range n)) n (n - 1)) by lia. ring.
  - apply sumZ_fmap_ext. intros x Hx. apply elem_of_range in Hx.
    unfold sides_touched.
    transitivity
      (sumZ ((fun y => (if decide (x = 0%nat) then m x y else 0)
                       + (if decide (y = 0%nat) then m x y else 0)
                       + (if decide (x = (n - 1)%nat) then m x y else 0)
                       + (if decide (y = (n - 1)%nat) then m x y else 0)) <$> range n)).
    + rewrite !sumZ_fmap_plus.
      rewrite (sumZ_single (m x) n 0) by lia.
      rewrite (sumZ_single (m x) n (n - 1)) by lia.
      destruct (decide (x = 0%nat)), (decide (x = (n - 1)%nat));
        rewrite ?(sumZ_zero (fun _ => 0)) by done; reflexivity.
    + apply sumZ_fmap_ext. intros y Hy. apply elem_of_range in Hy.
      repeat case_decide; lia.
Qed.

Lemma sides_touched_spec (n x y : nat) :
  (2 <= n)%nat -> (x < n)%nat -> (y < n)%nat ->
  sides_touched n x y = spec_weight n x y.
Proof.
  intros Hn Hx Hy. unfold sides_touched, spec_weight, is_corner, on_boundary.
  repeat case_bool_decide; repeat case_decide; lia.
Qed.

Lemma perimeter_count_spec (g : Grid) (target : Colour) :
  (2 <= length g)%nat -> perimeter_count g target = spec_perimeter_count g target.
Proof.
  intros Hn. unfold perimeter_count, spec_perimeter_count.
  apply sumZ_fmap_ext. intros [x y] [Hx Hy]%elem_of_range2.
  by rewrite sides_touched_spec.
Qed.

Lemma matches_0_1 (g : Grid) (target : Colour) (x y : nat) :
  matches g target x y = 0 \/
  (matches g target x y = 1 /\ cell g x y = Some (Some target)).
Proof. unfold matches. case_decide; auto. Qed.

(** C3 as stated fails on a board of a single unit cell: the cell is tested
    by all four scans and counts four times, where the stated weights (a
    corner counts twice) give 2. *)
Lemma PerimeterGoal_unit_board_counterexample :
  Board_invariant unit_board = true /\
  exists g,
    flatten unit_board = Ok g /\
    PerimeterGoal_score REAL_RED unit_board = Ok 4 /\
    spec_perimeter_count g REAL_RED = 2 /\
    PerimeterGoal_score REAL_RED unit_board <> Ok (spec_perimeter_count g REAL_RED).
Proof.
  split; [reflexivity|]. eexists. split; [reflexivity|].
  split; [reflexivity|]. split; [reflexivity|]. vm_compute. discriminate.
Qed.

(** C3 (amended): on the grid [g] that [flatten] returns for the board,
    [PerimeterGoal.score] returns the count of the four boundary scans; that
    count is every cell of the target colour counted once per side of the
    board it lies on.  On a grid of side at least 2 this is once for a
    boundary cell that is no corner, twice for a corner and never for an
    interior cell; the single cell of a 1 x 1 grid counts four times.  A grid
    whose target cells are all interior scores 0, a 2 x 2 grid all of the
    target colour scores 8. *)
Theorem PerimeterGoal_score_sides (target : Colour) (b : Block) (g : Grid) :
  flatten b = Ok g ->
  PerimeterGoal_score target b = Ok (scan_count g target) /\
  scan_count g target = perimeter_count g target /\
  ((2 <= length g)%nat -> scan_count g target = spec_perimeter_count g target) /\
  (length g = 1%nat -> cell g 0 0 = Some (Some target) -> scan_count g target = 4) /\
  ((forall x y, cell g x y = Some (Some target) ->
      (0 < x)%nat /\ (S x < length g)%nat /\ (0 < y)%nat /\ (S y < length g)%nat) ->
   scan_count g target = 0) /\
  (length g = 2%nat ->
   (forall x y, (x < 2)%nat -> (y < 2)%nat -> cell g x y = Some (Some target)) ->
   scan_count g target = 8).
Proof.
  intros Hflat. pose proof (flatten_square b g Hflat) as Hsq.
  rewrite <- (flatten_length b g Hflat) in Hsq.
  split_and!.
  - unfold PerimeterGoal_score. rewrite Hflat, bind_ok. by apply PerimeterGoal_loop.
  - apply scan_count_by_cell.
  - intros Hn. rewrite scan_count_by_cell. by apply perimeter_count_spec.
  - intros Hn Hc. rewrite scan_count_by_cell. unfold perimeter_count. rewrite Hn.
    simpl. unfold matches. by rewrite decide_True.
  - intros Hint. rewrite scan_count_by_cell. unfold perimeter_count.
    apply sumZ_zero. intros [x y] _.
    destruct (matches_0_1 g target x y) as [->|[-> Hc]]; [lia|].
    destruct (Hint x y Hc) as (? & ? & ? & ?). unfold sides_touched.
    repeat case_decide; lia.
  - intros Hn Hall. rewrite scan_count_by_cell. unfold perimeter_count. rewrite Hn.
    simpl. unfold matches. rewrite !decide_True by (apply Hall; lia). reflexivity.
Qed.

Lemma PerimeterGoal_score_sides_witness :
  PerimeterGoal_score REAL_RED red_board = Ok 8 /\
  PerimeterGoal_score REAL_RED interior_board = Ok 0.
Proof.
  split.
  - destruct (PerimeterGoal_score_sides REAL_RED red_board
                [[Some REAL_RED; Some REAL_RED]; [Some REAL_RED; Some REAL_RED]])
      as (Hscore & _ & _ & _ & _ & Hall).
    + reflexivity.
    + rewrite Hscore, Hall; [reflexivity|reflexivity|].
      intros [|[|x]] [|[|y]] Hx Hy; solve [reflexivity | lia].
  - destruct (PerimeterGoal_score_sides REAL_RED interior_board
                [[Some OLD_OLIVE; Some OLD_OLIVE; Some OLD_OLIVE; Some OLD_OLIVE];
                 [Some OLD_OLIVE; Some REAL_RED; Some OLD_OLIVE; Some OLD_OLIVE];
                 [Some OLD_OLIVE; Some OLD_OLIVE; Some OLD_OLIVE; Some OLD_OLIVE];
                 [Some OLD_OLIVE; Some OLD_OLIVE; Some OLD_OLIVE; Some OLD_OLIVE]])
      as (Hscore & _ & _ & _ & Hint & _).
    + reflexivity.
    + rewrite Hscore, Hint; [reflexivity|].
      intros [|[|[|[|x]]]] [|[|[|[|y]]]] Hc; simpl in Hc; try discriminate.
      simpl. lia.
Defined.

(** * goal.py: BlobGoal.score *)

(** ** Marks *)

Lemma mark_in_grid (n : nat) (V : Visited) (p : Cell) :
  square n V -> (is_Some (mark V p) <-> in_grid n p).
Proof.
  intros Hsq. unfold mark, in_grid.
  destruct (Z.leb_spec 0 p.1), (Z.leb_spec 0 p.2); simpl;
    try (split; [intros [? [=]]|lia]).
  split.
  - intros [v Hv]. apply (cell_Some_lt n) in Hv; [lia|done].
  - intros [? ?]. apply (square_cell n); [done|lia..].
Qed.

Lemma mark_nat (V : Visited) (x y : nat) :
  mark V (Z.of_nat x, Z.of_nat y) = cell V x y.
Proof.
  unfold mark. simpl.
  destruct (Z.leb_spec 0 (Z.of_nat x)), (Z.leb_spec 0 (Z.of_nat y)); try lia.
  simpl. by rewrite !Nat2Z.id.
Qed.

(** Setting the mark of a cell of the map. *)
Lemma setitem2_mark (n : nat) (V : Visited) (p : Cell) (v : Z) :
  square n V -> in_grid n p ->
  exists V',
    setitem2 V p.1 p.2 v = Ok V' /\ square n V' /\
    forall q, mark V' q = if decide (q = p) then Some v else mark V q.
Proof.
  intros Hsq [Hx Hy].
  destruct (lookup_lt_is_Some_2 V (Z.to_nat p.1)) as [col Hcol]; [destruct Hsq; lia|].
  pose proof (square_lookup n V _ col Hsq Hcol) as Hlen.
  exists (<[Z.to_nat p.1 := <[Z.to_nat p.2 := v]> col]> V). split_and!.
  - rewrite <- (Z2Nat.id p.1) at 1 by lia. rewrite <- (Z2Nat.id p.2) at 1 by lia.
    apply setitem2_nat; [done|lia].
  - by apply square_insert.
  - intros q. unfold mark.
    destruct (Z.leb_spec 0 q.1), (Z.leb_spec 0 q.2); simpl.
    + rewrite cell_insert by (done || lia).
      destruct p as [px py], q as [qx qy]; simpl in *.
      destruct (decide (Z.to_nat qx = Z.to_nat px /\ Z.to_nat qy = Z.to_nat py))
        as [[? ?]|Hne].
      * rewrite decide_True; [done|]. f_equal; lia.
      * rewrite decide_False; [done|]. intros [= -> ->]. by apply Hne.
    + rewrite decide_False; [done|]. intros ->. lia.
    + rewrite decide_False; [done|]. intros ->. lia.
    + rewrite decide_False; [done|]. intros ->. lia.
Qed.

Lemma getitem2_mark {A : Type} (g : list (list A)) (p : Cell) (v : A) :
  0 <= p.1 -> 0 <= p.2 -> cell g (Z.to_nat p.1) (Z.to_nat p.2) = Some v ->
  getitem2 g p.1 p.2 = Ok v.
Proof.
  intros Hx Hy Hc. rewrite <- (Z2Nat.id p.1) at 1 by lia.
  rewrite <- (Z2Nat.id p.2) at 1 by lia. by apply getitem2_cell.
Qed.

(** ** Connection *)

Section Blob.

Variables (g : Grid) (target : Colour).

Local Abbreviation is_target := (is_target g target).
Local Abbreviation connected := (connected g target).
Local Abbreviation blob_step := (blob_step g target).

Lemma adjacent_sym (p q : Cell) : adjacent p q -> adjacent q p.
Proof.
  unfold adjacent. destruct p as [px py], q as [qx qy]. simpl.
  intros [H|[H|[H|H]]]; injection H as -> ->;
    [right; left|left|right; right; right|right; right; left]; f_equal; lia.
Qed.

Lemma blob_step_sym (p q : Cell) : blob_step p q -> blob_step q p.
Proof. intros (? & ? & ?). split_and!; [by apply adjacent_sym|done..]. Qed.

Lemma rtc_blob_step_sym (p q : Cell) : rtc blob_step p q -> rtc blob_step q p.
Proof.
  induction 1 as [|p r q Hstep _ IH]; [constructor|].
  eapply rtc_r; [exact IH|]. by apply blob_step_sym.
Qed.

Lemma rtc_blob_step_target (p q : Cell) : rtc blob_step p q -> is_target p -> is_target q.
Proof. induction 1 as [|p r q (_ & _ & ?) _ IH]; auto. Qed.

Lemma connected_refl (p : Cell) : is_target p -> connected p p.
Proof. intros H. split; [done|constructor]. Qed.

Lemma connected_sym (p q : Cell) : connected p q -> connected q p.
Proof.
  intros [Hp Hr]. split; [by eapply rtc_blob_step_target|by apply rtc_blob_step_sym].
Qed.

Lemma connected_trans (p q r : Cell) : connected p q -> connected q r -> connected p r.
Proof. intros [Hp H1] [_ H2]. split; [done|by etrans]. Qed.

Lemma connected_step (p q r : Cell) :
  is_target p -> adjacent p q -> connected q r -> connected p r.
Proof.
  intros Hp Hadj [Hq Hr]. split; [done|]. eapply rtc_l; [|exact Hr]. by split_and!.
Qed.

(** A blob holds every cell connected to one of its cells. *)
Lemma blob_closed (l : list Cell) (p q : Cell) :
  blob g target l -> p ∈ l -> connected p q -> q ∈ l.
Proof.
  intros [_ Hclosed] Hp [_ Hr]. induction Hr as [|p r q (Hadj & _ & Hr') _ IH]; [done|].
  apply IH. by eapply Hclosed.
Qed.

(** So a region that meets a blob is no larger than the blob. *)
Lemma region_in_blob (l l' : list Cell) (p : Cell) :
  blob g target l -> region g target l' -> p ∈ l -> p ∈ l' ->
  (length l' <= length l)%nat.
Proof.
  intros Hblob (Hnd & _ & Hconn) Hp Hp'.
  apply submseteq_length, NoDup_submseteq; [done|].
  intros q Hq. eapply blob_closed; eauto.
Qed.

End Blob.

(** ** The flood fill *)

Section Fill.

Variables (g : Grid) (target : Colour) (n : nat).
Hypothesis Hg : square n g.
Hypothesis Hn : length g = n.

Local Abbreviation is_target := (is_target g target).
Local Abbreviation connected := (connected g target).
Local Abbreviation grows := (grows g target n).

Lemma grows_refl (V : Visited) : square n V -> grows V V [].
Proof.
  intros Hsq. split_and!; [done|done|constructor| |auto].
  intros q. split; [by intros ?%elem_of_nil|]. intros [H1 H2]. congruence.
Qed.

Lemma grows_unvisited (V V' : Visited) (new : list Cell) (q : Cell) :
  grows V V' new -> mark V' q = Some (-1) -> mark V q = Some (-1).
Proof.
  intros (_ & Hmono & _) Hq.
  destruct (decide (mark V q = Some (-1))) as [|Hne]; [done|].
  rewrite (Hmono q Hne) in Hq. done.
Qed.

Lemma grows_visited (V V' : Visited) (new : list Cell) (q : Cell) :
  grows V V' new -> mark V q <> Some (-1) -> mark V' q <> Some (-1).
Proof. intros (_ & Hmono & _) Hq. by rewrite (Hmono q Hq). Qed.

Lemma grows_trans (V V1 V2 : Visited) (new1 new2 : list Cell) :
  grows V V1 new1 -> grows V1 V2 new2 -> grows V V2 (new1 ++ new2).
Proof.
  intros H1 H2.
  pose proof H1 as (Hsq1 & Hm1 & Hnd1 & Hnew1 & Htri1).
  pose proof H2 as (Hsq2 & Hm2 & Hnd2 & Hnew2 & Htri2).
  split_and!.
  - done.
  - intros q Hq. rewrite Hm2; [by apply Hm1|]. by rewrite Hm1.
  - apply NoDup_app. split_and!; [done| |done].
    intros q [_ Hq1]%Hnew1 [Hq2 _]%Hnew2. congruence.
  - intros q. rewrite elem_of_app, Hnew1, Hnew2. split.
    + intros [[Hq Hq1]|[Hq1 Hq2]].
      * split; [done|]. rewrite Hm2; [done|congruence].
      * split; [|done]. by eapply grows_unvisited.
    + intros [Hq Hq2]. destruct (Htri1 q Hq) as [Hq1|[[Hq1 _]|[Hq1 _]]]; auto.
      rewrite Hm2 in Hq2; congruence.
  - intros q Hq. destruct (Htri1 q Hq) as [Hq1|[[Hq1 Ht]|[Hq1 Ht]]].
    + by apply Htri2.
    + right. left. split; [|done]. rewrite Hm2; [done|congruence].
    + right. right. split; [|done]. rewrite Hm2; [done|congruence].
Qed.

(** Marking an unvisited cell. *)
Lemma grows_set (V : Visited) (p : Cell) (v : Z) :
  square n V -> in_grid n p -> mark V p = Some (-1) ->
  (v = 0 /\ ~ is_target p) \/ (v = 1 /\ is_target p) ->
  exists V',
    setitem2 V p.1 p.2 v = Ok V' /\ mark V' p = Some v /\
    grows V V' (if decide (v = 1) then [p] else []).
Proof.
  intros Hsq Hin Hp Hv.
  destruct (setitem2_mark n V p v Hsq Hin) as (V' & Hset & Hsq' & Hmark).
  exists V'. split; [done|].
  assert (Hpv : mark V' p = Some v) by (by rewrite Hmark, decide_True).
  split; [done|]. split_and!.
  - done.
  - intros q Hq. rewrite Hmark, decide_False; [done|congruence].
  - destruct (decide (v = 1)); [apply NoDup_singleton|constructor].
  - intros q. rewrite Hmark. destruct (decide (v = 1)) as [->|Hv1].
    + rewrite list_elem_of_singleton. destruct (decide (q = p)) as [->|Hne]; [tauto|].
      split; [done|]. intros [H1 H2]. congruence.
    + rewrite elem_of_nil. destruct (decide (q = p)) as [->|Hne].
      * split; [done|]. intros [_ [= ?]]. done.
      * split; [done|]. intros [H1 H2]. congruence.
  - intros q Hq. rewrite Hmark. destruct (decide (q = p)) as [->|Hne]; [|auto].
    destruct Hv as [[-> ?]|[-> ?]]; auto.
Qed.

End Fill.

Section Search.

Variables (g : Grid) (target : Colour) (n : nat).
Hypothesis Hg : square n g.
Hypothesis Hn : length g = n.

Local Abbreviation is_target := (is_target g target).
Local Abbreviation connected := (connected g target).
Local Abbreviation grows := (grows g target n).

Lemma bounds_check (p : Cell) :
  (p.1 <? 0) || (p.1 >=? Z.of_nat n) || (p.2 <? 0) || (p.2 >=? Z.of_nat n) = false
  <-> in_grid n p.
Proof.
  unfold in_grid. rewrite !orb_false_iff, !Z.geb_leb, !Z.ltb_ge, !Z.leb_gt. lia.
Qed.

(** A call of [_undiscovered_blob_size] with more fuel than unvisited cells
    returns; it marks at least [pos] if [pos] is on the map, and the cells it
    newly marks 1, as many as it counts, are target cells connected to [pos]
    whose neighbours are all visited afterwards. *)
Lemma _undiscovered_blob_size_spec (fuel : nat) :
  forall (p : Cell) (V : Visited) (U : list Cell),
    square n V ->
    (forall q, mark V q = Some (-1) -> q ∈ U) ->
    (length U < fuel)%nat ->
    exists k V' new,
      _undiscovered_blob_size fuel target p g V = Ok (k, V') /\
      grows V V' new /\ k = Z.of_nat (length new) /\
      (forall q, q ∈ new -> connected p q) /\
      (forall q q', q ∈ new -> adjacent q q' -> in_grid n q' ->
                    mark V' q' <> Some (-1)) /\
      (in_grid n p -> mark V' p <> Some (-1)).
Proof.
  induction fuel as [|fuel IH]; intros p V U Hsq HU Hfuel; [lia|].
  cbn [_undiscovered_blob_size]. rewrite Hn.
  destruct ((p.1 <? 0) || (p.1 >=? Z.of_nat n) || (p.2 <? 0) || (p.2 >=? Z.of_nat n))
    eqn:Hb.
  { exists 0, V, []. split_and!; [done|by apply grows_refl|done| | |].
    - by intros q ?%elem_of_nil.
    - by intros q q' ?%elem_of_nil.
    - intros Hin%bounds_check. congruence. }
  apply bounds_check in Hb. pose proof Hb as [Hx Hy].
  destruct (square_cell n g (Z.to_nat p.1) (Z.to_nat p.2) Hg) as [colour Hcol]; [lia..|].
  destruct (proj2 (mark_in_grid n V p Hsq) Hb) as [v Hv].
  assert (Hv' : cell V (Z.to_nat p.1) (Z.to_nat p.2) = Some v).
  { unfold mark in Hv. destruct (Z.leb_spec 0 p.1), (Z.leb_spec 0 p.2); try lia. done. }
  rewrite (getitem2_mark g p colour) by (done || lia). rewrite bind_ok.
  rewrite (getitem2_mark V p v) by (done || lia). rewrite bind_ok.
  destruct (Z.eqb_spec v (-1)) as [->|Hv1]; simpl negb; cbv iota.
  2:{ exists 0, V, []. split_and!; [done|by apply grows_refl|done| | |].
      - by intros q ?%elem_of_nil.
      - by intros q q' ?%elem_of_nil.
      - intros _. congruence. }
  assert (Htarget : is_target p <-> colour = Some target).
  { split.
    - intros (_ & _ & H). rewrite Hcol in H. by injection H.
    - intros ->. split; [lia|]. split; [lia|]. exact Hcol. }
  destruct (bool_decide_reflect (colour = Some target)) as [Hc|Hc]; simpl negb; cbv iota.
  2:{ destruct (grows_set g target n V p 0 Hsq Hb Hv) as (V' & Hset & Hp & Hgrow).
      { left. split; [done|]. by rewrite Htarget. }
      rewrite Hset, bind_ok. exists 0, V', []. split_and!; [done|done|done| | |].
      - by intros q ?%elem_of_nil.
      - by intros q q' ?%elem_of_nil.
      - intros _. congruence. }
  apply Htarget in Hc.
  destruct (grows_set g target n V p 1 Hsq Hb Hv) as (V1 & Hset & Hp & Hgrow1).
  { by right. }
  rewrite decide_True in Hgrow1 by done. rewrite Hset, bind_ok.
  set (U1 := filter (fun q => q <> p) U).
  assert (HU1 : (length U1 < fuel)%nat).
  { assert (length U1 < length U)%nat; [|lia].
    apply (length_filter_lt _ _ p); [by apply HU|]. by intros ?. }
  assert (Hin1 : forall q, mark V1 q = Some (-1) -> q ∈ U1).
  { intros q Hq. apply list_elem_of_filter. split; [congruence|].
    apply HU. by eapply grows_unvisited. }
  destruct (IH (p.1 + 1, p.2) V1 U1) as (c1 & V2 & n1 & Hcall1 & Hg1 & Hk1 & Hcon1 & Hcl1 & Hv1);
    [apply Hgrow1|done|done|].
  assert (Hin2 : forall q, mark V2 q = Some (-1) -> q ∈ U1).
  { intros q Hq. apply Hin1. by eapply grows_unvisited. }
  destruct (IH (p.1 - 1, p.2) V2 U1) as (c2 & V3 & n2 & Hcall2 & Hg2 & Hk2 & Hcon2 & Hcl2 & Hv2);
    [apply Hg1|done|done|].
  assert (Hin3 : forall q, mark V3 q = Some (-1) -> q ∈ U1).
  { intros q Hq. apply Hin2. by eapply grows_unvisited. }
  destruct (IH (p.1, p.2 + 1) V3 U1) as (c3 & V4 & n3 & Hcall3 & Hg3 & Hk3 & Hcon3 & Hcl3 & Hv3);
    [apply Hg2|done|done|].
  assert (Hin4 : forall q, mark V4 q = Some (-1) -> q ∈ U1).
  { intros q Hq. apply Hin3. by eapply grows_unvisited. }
  destruct (IH (p.1, p.2 - 1) V4 U1) as (c4 & V5 & n4 & Hcall4 & Hg4 & Hk4 & Hcon4 & Hcl4 & Hv4);
    [apply Hg3|done|done|].
  rewrite Hcall1, bind_ok. cbv beta iota. rewrite Hcall2, bind_ok. cbv beta iota.
  rewrite Hcall3, bind_ok. cbv beta iota. rewrite Hcall4, bind_ok. cbv beta iota.
  exists (0 + c1 + c2 + c3 + c4 + 1), V5, ([p] ++ n1 ++ n2 ++ n3 ++ n4).
  assert (Hkeep2 : forall q, mark V2 q <> Some (-1) -> mark V5 q <> Some (-1)).
  { intros q Hq. eapply grows_visited; [exact Hg4|].
    eapply grows_visited; [exact Hg3|]. by eapply grows_visited. }
  assert (Hkeep3 : forall q, mark V3 q <> Some (-1) -> mark V5 q <> Some (-1)).
  { intros q Hq. eapply grows_visited; [exact Hg4|]. by eapply grows_visited. }
  assert (Hkeep4 : forall q, mark V4 q <> Some (-1) -> mark V5 q <> Some (-1)).
  { intros q Hq. by eapply grows_visited. }
  split_and!.
  - done.
  - repeat (eapply grows_trans; [eassumption|]). exact Hg4.
  - rewrite !length_app. simpl. lia.
  - intros q. rewrite !elem_of_app, list_elem_of_singleton.
    intros [->|[Hq|[Hq|[Hq|Hq]]]].
    + by apply connected_refl.
    + eapply connected_step; [done| |by apply Hcon1]. by left.
    + eapply connected_step; [done| |by apply Hcon2]. right. by left.
    + eapply connected_step; [done| |by apply Hcon3]. right. right. by left.
    + eapply connected_step; [done| |by apply Hcon4]. right. right. by right.
  - intros q q'. rewrite !elem_of_app, list_elem_of_singleton.
    intros [->|[Hq|[Hq|[Hq|Hq]]]] Hadj Hin'.
    + destruct Hadj as [-> | [-> | [-> | ->]]]; auto.
    + apply Hkeep2. by eapply Hcl1.
    + apply Hkeep3. by eapply Hcl2.
    + apply Hkeep4. by eapply Hcl3.
    + by eapply Hcl4.
  - intros _. apply Hkeep2. eapply grows_visited; [exact Hg1|]. congruence.
Qed.

End Search.

(** ** The recursion limit *)









(** ** The scan of the whole grid *)

Lemma length_pairs {A B : Type} (xs : list A) (ys : list B) :
  length (xs ≫= fun i => (fun j => (i, j)) <$> ys) = (length xs * length ys)%nat.
Proof.
  induction xs as [|x xs IH]; [done|].
  rewrite bind_cons, length_app, IH, length_fmap. simpl. lia.
Qed.

Lemma length_range2 (n : nat) : length (range2 n) = (n * n)%nat.
Proof. unfold range2. by rewrite length_pairs, range_length. Qed.

Lemma py_max_spec (l : list Z) :
  l <> [] -> exists m, py_max l = Ok m /\ m ∈ l /\ forall x, x ∈ l -> x <= m.
Proof.
  destruct l as [|x l]; [done|]. intros _. simpl. eexists. split; [done|].
  revert x. induction l as [|y l IH]; intros x; simpl.
  - split; [by left|]. intros z ->%list_elem_of_singleton. lia.
  - destruct (IH (Z.max x y)) as [Hin Hmax]. split.
    + apply elem_of_cons in Hin as [Heq|Hin]; [|by do 2 right].
      rewrite Heq. destruct (Z.max_spec x y) as [[_ ->]|[_ ->]]; [right|]; by left.
    + intros z Hz. apply elem_of_cons in Hz as [->|Hz].
      * etrans; [|apply Hmax; by left]. lia.
      * apply elem_of_cons in Hz as [->|Hz].
        -- etrans; [|apply Hmax; by left]. lia.
        -- apply Hmax. by right.
Qed.

Section Scan.

Variables (g : Grid) (target : Colour) (n : nat).
Hypothesis Hg : square n g.
Hypothesis Hn : length g = n.

Local Abbreviation is_target := (is_target g target).
Local Abbreviation connected := (connected g target).

Lemma is_target_in_grid (p : Cell) : is_target p -> in_grid n p.
Proof.
  intros (Hx & Hy & Hc). apply (cell_Some_lt n) in Hc; [|done].
  unfold in_grid. lia.
Qed.

Lemma scanned_start : scanned g target n ([], replicate n (replicate n (-1))).
Proof.
  assert (Hmark : forall q v, mark (replicate n (replicate n (-1))) q = Some v -> v = -1).
  { intros q v Hq.
    assert (Hin : in_grid n q).
    { apply (mark_in_grid n (replicate n (replicate n (-1)))); [apply square_replicate|eauto]. }
    unfold mark in Hq. destruct Hin as [? ?].
    destruct (Z.leb_spec 0 q.1), (Z.leb_spec 0 q.2); try lia. simpl in Hq.
    rewrite cell_replicate in Hq by lia. congruence. }
  split_and!; simpl.
  - apply square_replicate.
  - intros q v Hq. left. by eapply Hmark.
  - intros q q' Hq. apply Hmark in Hq. lia.
  - by intros r ?%elem_of_nil.
  - intros q Hq. apply Hmark in Hq. lia.
Qed.

End Scan.

Section Step.

Variables (g : Grid) (target : Colour) (n : nat).
Hypothesis Hg : square n g.
Hypothesis Hn : length g = n.

Local Abbreviation is_target := (is_target g target).
Local Abbreviation connected := (connected g target).

(** One flood fill of the double loop keeps [scanned] and visits its cell. *)
Lemma BlobGoal_loop_scanned (fuel : nat) (ij : nat * nat) (st : list Z * Visited) :
  (n * n < fuel)%nat -> scanned g target n st ->
  exists st',
    BlobGoal_loop fuel target g ij st = Ok st' /\ scanned g target n st' /\
    length st'.1 = S (length st.1) /\
    (forall q, mark st.2 q <> Some (-1) -> mark st'.2 q <> Some (-1)) /\
    (in_grid n (Z.of_nat ij.1, Z.of_nat ij.2) ->
     mark st'.2 (Z.of_nat ij.1, Z.of_nat ij.2) <> Some (-1)).
Proof.
  destruct st as [final V]. intros Hfuel (Hsq & Hcons & Hclosed & Hres & Hblob).
  simpl in Hsq, Hcons, Hclosed, Hres, Hblob.
  set (p := (Z.of_nat ij.1, Z.of_nat ij.2)).
  destruct (_undiscovered_blob_size_spec g target n Hg Hn fuel p V
              ((fun ij : nat * nat => (Z.of_nat ij.1, Z.of_nat ij.2)) <$> range2 n))
    as (c & V' & new & Hcall & Hgrow & Hc & Hconn & Hcl & Hp).
  { done. }
  { intros q Hq. assert (Hin : in_grid n q) by (apply (mark_in_grid n V); eauto).
    destruct Hin as [? ?]. apply list_elem_of_fmap.
    exists (Z.to_nat q.1, Z.to_nat q.2). split.
    - destruct q as [qx qy]. simpl in *. f_equal; lia.
    - apply elem_of_range2. lia. }
  { by rewrite length_fmap, length_range2. }
  pose proof Hgrow as (Hsq' & Hmono & Hnd & Hnew & Htri).
  exists (final ++ [c], V'). unfold BlobGoal_loop. fold p. rewrite Hcall, bind_ok.
  split; [done|].
  assert (Hcons' : forall q v, mark V' q = Some v ->
            v = -1 \/ (v = 0 /\ ~ is_target q) \/ (v = 1 /\ is_target q)).
  { intros q v Hq. destruct (decide (mark V q = Some (-1))) as [Hu|Hu].
    - destruct (Htri q Hu) as [H|[[H ?]|[H ?]]]; rewrite H in Hq;
        injection Hq as <-; auto.
    - rewrite (Hmono q Hu) in Hq. by apply Hcons. }
  assert (Hold : forall q, mark V' q = Some 1 -> mark V q = Some 1 \/ q ∈ new).
  { intros q Hq. destruct (decide (mark V q = Some (-1))) as [Hu|Hu].
    - right. by apply Hnew.
    - left. by rewrite <- (Hmono q Hu). }
  assert (Hnewblob : new <> [] -> blob g target new).
  { intros Hne. split; [split_and!|]; [done|done| |].
    - intros q1 q2 H1 H2. eapply connected_trans; [|by apply Hconn].
      by apply connected_sym, Hconn.
    - intros q q' Hq Hadj Ht'.
      pose proof (is_target_in_grid g target n Hg Hn _ Ht') as Hin'.
      destruct (proj2 (mark_in_grid n V' q' Hsq') Hin') as [v Hv].
      destruct (Hcons' q' v Hv) as [->|[[_ ?]|[-> _]]]; [|done|].
      + exfalso. by eapply Hcl.
      + destruct (Hold q' Hv) as [Hold'|?]; [|done]. exfalso.
        apply Hnew in Hq as [Hq _].
        eapply (Hclosed q' q); [done|by apply adjacent_sym| |done].
        apply (mark_in_grid n V); eauto. }
  assert (Hscan' : scanned g target n (final ++ [c], V')).
  { unfold scanned. simpl. split_and!.
    - done.
    - done.
    - intros q q' Hq Hadj Hin'. destruct (Hold q Hq) as [Hq0|Hq0].
      + eapply grows_visited; [exact Hgrow|]. by eapply Hclosed.
      + by eapply Hcl.
    - intros r [Hr | ->%list_elem_of_singleton]%elem_of_app; [by apply Hres|].
      destruct new as [|q0 new0] eqn:Hnew0; [by left|]. right.
      exists (q0 :: new0). split; [by apply Hnewblob|done].
    - intros q Hq. destruct (Hold q Hq) as [Hq0|Hq0].
      + destruct (Hblob q Hq0) as (l & ? & ? & ?). exists l. split_and!; [done..|].
        apply elem_of_app. by left.
      + exists new. split_and!; [|done|].
        * apply Hnewblob. intros ->. by apply elem_of_nil in Hq0.
        * apply elem_of_app. right. rewrite Hc. by apply list_elem_of_singleton. }
  split_and!; simpl.
  - done.
  - rewrite length_app. simpl. lia.
  - intros q Hq. by eapply grows_visited.
  - done.
Qed.

(** The double loop visits every cell. *)
Lemma BlobGoal_scan (fuel : nat) :
  (n * n < fuel)%nat ->
  exists final V,
    for_each (range2 n) (BlobGoal_loop fuel target g)
      ([], replicate n (replicate n (-1))) = Ok (final, V) /\
    scanned g target n (final, V) /\ length final = (n * n)%nat /\
    forall q, in_grid n q -> mark V q <> Some (-1).
Proof.
  intros Hfuel.
  destruct (for_each_invariant
              (fun k st => scanned g target n st /\ length st.1 = k /\
                 forall j ij, (j < k)%nat -> range2 n !! j = Some ij ->
                   mark st.2 (Z.of_nat ij.1, Z.of_nat ij.2) <> Some (-1))
              (range2 n) (BlobGoal_loop fuel target g)
              ([], replicate n (replicate n (-1))))
    as ([final V] & Hloop & Hscan & Hlen & Hall).
  - intros k ij st Hk (Hscan & Hlen & Hall).
    destruct (BlobGoal_loop_scanned fuel ij st Hfuel Hscan)
      as (st' & Hst' & Hscan' & Hlen' & Hkeep & Hhere).
    exists st'. split_and!; [done|done|lia|].
    intros j ij' Hj Hij'. destruct (decide (j = k)) as [->|Hne].
    + assert (ij' = ij) as -> by congruence. apply Hhere.
      apply list_elem_of_lookup_2 in Hk. destruct ij as [i j'].
      apply elem_of_range2 in Hk. unfold in_grid. simpl. lia.
    + apply Hkeep. apply (Hall j); [lia|done].
  - split_and!; [by apply scanned_start|done|]. intros; lia.
  - simpl in Hlen. rewrite length_range2 in Hlen.
    exists final, V. split_and!; [done|done|done|].
    intros q [Hx Hy].
    assert (Hin : (Z.to_nat q.1, Z.to_nat q.2) ∈ range2 n) by (apply elem_of_range2; lia).
    apply list_elem_of_lookup in Hin as [j Hj].
    specialize (Hall j _ (lookup_lt_Some _ _ _ Hj) Hj). simpl in Hall.
    rewrite !Z2Nat.id in Hall by lia. by destruct q.
Qed.

End Step.

(** ** The score *)

Lemma flatten_Ok_side (b : Block) (g : Grid) :
  flatten b = Ok g -> (0 < side b)%nat.
Proof.
  intros H. unfold side.
  assert (0 <= max_depth b - level b).
  { destruct b as [pos sz col lvl md chs]. simpl in *.
    destruct (Z.ltb_spec (md - lvl) 0); [discriminate|lia]. }
  assert (0 < 2 ^ (max_depth b - level b)) by (by apply Z.pow_pos_nonneg).
  lia.
Qed.


Lemma BlobGoal_score_enough (frames : nat) (target : Colour) (b : Block) (g : Grid) :
  flatten b = Ok g -> (length g * length g < frames)%nat ->
  exists m, BlobGoal_score frames target b = Ok m /\ largest_region_size g target m.
Proof.
  intros Hflat Hfuel. pose proof (flatten_square b g Hflat) as Hsq.
  pose proof (flatten_length b g Hflat) as Hlen.
  pose proof (flatten_Ok_side b g Hflat) as Hpos.
  rewrite Hlen in Hfuel. set (n := side b) in *.
  destruct (BlobGoal_scan g target n Hsq Hlen frames)
    as (final & V & Hloop & Hscan & Hfin & Hall); [done|].
  destruct Hscan as (HsqV & Hcons & _ & Hres & Hblob). simpl in HsqV, Hcons, Hres, Hblob.
  destruct (py_max_spec final) as (m & Hm & Hin & Hmax).
  { intros ->. simpl in Hfin. nia. }
  assert (Hmarked : forall p, is_target g target p -> mark V p = Some 1).
  { intros p Hp. pose proof (is_target_in_grid g target n Hsq Hlen p Hp) as Hgrid.
    destruct (proj2 (mark_in_grid n V p HsqV) Hgrid) as [v Hv].
    destruct (Hcons p v Hv) as [->|[[_ ?]|[-> _]]]; [|done|done].
    exfalso. by eapply Hall. }
  assert (Hbound : forall p, is_target g target p ->
            exists l, blob g target l /\ p ∈ l /\ Z.of_nat (length l) <= m).
  { intros p Hp. destruct (Hblob p (Hmarked p Hp)) as (l & Hl & Hpl & Hlin).
    exists l. split_and!; [done..|]. by apply Hmax. }
  exists m. split.
  - unfold BlobGoal_score. rewrite Hflat, bind_ok. cbv zeta. rewrite Hlen.
    fold n. rewrite Hloop, bind_ok. exact Hm.
  - split.
    + destruct (Hres m Hin) as [->|?]; [|by right]. left. split; [done|].
      intros p Hp. destruct (Hbound p Hp) as (l & _ & Hpl & Hle).
      destruct l; [by apply elem_of_nil in Hpl|]. simpl in Hle. lia.
    + intros l' Hreg. pose proof Hreg as (_ & Hne & Hconn).
      destruct l' as [|p l']; [done|].
      assert (Hp : is_target g target p) by (apply (Hconn p p); by left).
      destruct (Hbound p Hp) as (l & Hl & Hpl & Hle).
      pose proof (region_in_blob g target l (p :: l') p Hl Hreg Hpl) as Hlen'.
      etrans; [|exact Hle]. apply inj_le. apply Hlen'. by left.
Qed.





(** * The goals on boards of sound geometry *)

(** On a board of sound geometry both scores return. *)
Lemma PerimeterGoal_score_returns (target : Colour) (b : Block) :
  wf_board b = true ->
  exists g, flatten b = Ok g /\
            PerimeterGoal_score target b = Ok (perimeter_count g target).
Proof.
  intros Hwf. destruct (flatten_wf_main b Hwf) as (g & Hg & _). exists g.
  split; [done|]. pose proof (flatten_square b g Hg) as Hsq.
  rewrite <- (flatten_length b g Hg) in Hsq.
  unfold PerimeterGoal_score. rewrite Hg, bind_ok, PerimeterGoal_loop by done.
  by rewrite scan_count_by_cell.
Qed.

Lemma BlobGoal_score_returns (frames : nat) (target : Colour) (b : Block) :
  wf_board b = true -> (side b * side b < frames)%nat ->
  exists g m, flatten b = Ok g /\ BlobGoal_score frames target b = Ok m /\
              largest_region_size g target m.
Proof.
  intros Hwf Hframes. destruct (flatten_wf_main b Hwf) as (g & Hg & _).
  destruct (BlobGoal_score_enough frames target b g Hg) as (m & Hm & Hl).
  { by rewrite (flatten_length b g Hg). }
  by exists g, m.
Qed.

(** * player.py: the human player *)

Lemma HumanPlayer_generate_move_None (self : HumanPlayer) (mouse_pos : Z * Z)
    (board : Block) :
  _desired_action self = None ->
  (HumanPlayer_generate_move self mouse_pos board).1 = None.
Proof.
  intros H. unfold HumanPlayer_generate_move. rewrite H.
  destruct (get_selected_block self mouse_pos board); reflexivity.
Qed.

(** C10: after every call of [HumanPlayer.generate_move] the pending action
    is [None]: also a call that returns [None], because the lookup found no
    block or because no action was pending, discards the pending action, so
    the next call (whatever the pointer and the board are then) returns
    [None]; a call returns a move exactly when a block is selected and an
    action is pending, and the move is that action on that block. *)
Theorem HumanPlayer_generate_move_resets (self : HumanPlayer)
    (mouse_pos : Z * Z) (board : Block) :
  let '(move, self') := HumanPlayer_generate_move self mouse_pos board in
  _desired_action self' = None /\
  (forall mouse_pos' board',
     (HumanPlayer_generate_move self' mouse_pos' board').1 = None) /\
  (move = None <->
     get_selected_block self mouse_pos board = None \/
     _desired_action self = None) /\
  (forall a block, move = Some (a, block) ->
     _desired_action self = Some a /\
     get_selected_block self mouse_pos board = Some block) /\
  (move = None ->
     _level self' = Z.max 0 (Z.min (_level self) (max_depth board))).
Proof.
  destruct (HumanPlayer_generate_move self mouse_pos board) as [move self'] eqn:E.
  assert (Hd : _desired_action self' = None).
  { unfold HumanPlayer_generate_move in E.
    destruct (get_selected_block self mouse_pos board), (_desired_action self);
      inversion E; reflexivity. }
  split; [exact Hd|]. split.
  { intros. apply HumanPlayer_generate_move_None, Hd. }
  unfold HumanPlayer_generate_move in E.
  destruct (get_selected_block self mouse_pos board) as [blk|] eqn:Eb,
           (_desired_action self) as [a|] eqn:Ea;
    inversion E; subst; clear E; simpl.
  - split; [split; [discriminate|intros [?|?]; discriminate]|].
    split; [|discriminate]. intros a' b' H; inversion H; auto.
  - split; [split; auto|]. split; [discriminate|auto].
  - split; [split; auto|]. split; [discriminate|auto].
  - split; [split; auto|]. split; [discriminate|auto].
Qed.

(** * player.py: the choice of the smart player *)

Section BestOf.

Variable penalty : Action -> Z.

Local Abbreviation net := (net penalty).
Local Abbreviation best_of := (best_of penalty).

Lemma best_of_none (total : list Trial) (best_score : Z) (best_move : option Move) :
  (forall t, t ∈ total -> net t <= best_score) ->
  best_of total best_score best_move = (best_score, best_move).
Proof.
  induction total as [|t total IH]; intros H; simpl; [reflexivity|].
  assert (net t <= best_score) by (apply H; left).
  destruct (Z.gtb_spec (net t) best_score); [lia|].
  apply IH. intros t' Ht'. apply H. by right.
Qed.

(** When some trial beats the starting score, the loop ends on the first
    trial of largest net. *)
Lemma best_of_some (total : list Trial) (best_score : Z) (best_move : option Move) :
  (exists t, t ∈ total /\ best_score < net t) ->
  exists i t,
    total !! i = Some t /\
    best_of total best_score best_move = (net t, Some (t.1.1, t.1.2)) /\
    best_score < net t /\
    (forall j t', total !! j = Some t' -> net t' <= net t) /\
    (forall j t', (j < i)%nat -> total !! j = Some t' -> net t' < net t).
Proof.
  revert best_score best_move.
  induction total as [|t total IH]; intros best_score best_move (t0 & Hin & Hgt).
  { by apply elem_of_nil in Hin. }
  simpl. destruct (Z.gtb_spec (net t) best_score) as [Hbeat|Hnot].
  - destruct (decide (Exists (fun t' => net t < net t') total)) as [Hlater|Hlast];
      rewrite Exists_exists in Hlater || rewrite Exists_exists in Hlast.
    + destruct (IH (net t) (Some (t.1.1, t.1.2)) Hlater)
        as (i & t1 & Hi & Hb & Hlt & Hmax & Hfirst).
      exists (S i), t1. split; [done|]. split; [done|]. split; [lia|]. split.
      * intros [|j] t' Hj; simpl in Hj; [injection Hj as <-; lia|eauto].
      * intros [|j] t' Hji Hj; simpl in Hj; [injection Hj as <-; lia|].
        apply (Hfirst j); [lia|done].
    + exists 0%nat, t. split; [done|]. split.
      * apply best_of_none. intros t' Ht'.
        destruct (Z.le_gt_cases (net t') (net t)); [done|].
        exfalso. apply Hlast. eauto.
      * split; [lia|]. split; [|intros; lia].
        intros [|j] t' Hj; simpl in Hj; [injection Hj as <-; lia|].
        destruct (Z.le_gt_cases (net t') (net t)); [done|].
        exfalso. apply Hlast. exists t'. split; [|lia].
        by eapply list_elem_of_lookup_2.
  - assert (Hlater : exists t', t' ∈ total /\ best_score < net t').
    { apply elem_of_cons in Hin as [->|Hin]; [lia|eauto]. }
    destruct (IH best_score best_move Hlater)
      as (i & t1 & Hi & Hb & Hlt & Hmax & Hfirst).
    exists (S i), t1. split; [done|]. split; [done|]. split; [lia|]. split.
    + intros [|j] t' Hj; simpl in Hj; [injection Hj as <-; lia|eauto].
    + intros [|j] t' Hji Hj; simpl in Hj; [injection Hj as <-; lia|].
      apply (Hfirst j); [lia|done].
Qed.

End BestOf.

(** C4: a triggered [SmartPlayer] whose trial loop recorded [total] on a
    real board of tree [b].  When its goal scores the unmodified real board
    [baseline], the player returns a move and clears its flag: if no recorded
    trial has a score minus the penalty of its action above the baseline, the
    move is [PASS] on the real board itself; otherwise the move is the action
    and real-board node of the first trial whose score minus penalty is the
    largest of all (no trial has a larger one and no earlier trial an equal
    one); with a difficulty of 0 (or less) no trial is run, the store is
    untouched and the move is [PASS] on the real board.  When the score of
    the real board raises an exception, so does the player, whatever the
    trials and the difficulty are: it does not pass. *)
Theorem SmartPlayer_generate_move_best
    (penalty : Action -> Z)
    (apply_node : Action -> Block -> Colour -> bool * Block)
    (apply_none : Action -> Colour -> result bool) (frames : nat)
    (rnd : nat -> nat) (self : ComputerPlayer) (board : nat)
    (s s' : Store) (total : list Trial) (b : Block) :
  _proceed self = true ->
  for_eachM (range (Z.to_nat (_num_test self)))
    (SmartPlayer_trial apply_node apply_none frames rnd self board) [] s
    = (s', Ok total) ->
  s' !! board = Some b ->
  (forall baseline, score frames (c_goal self) b = Ok baseline ->
   exists move,
     SmartPlayer_generate_move penalty apply_node apply_none frames rnd self board s
       = (s', Ok (Some move, set_proceed self false)) /\
     ((forall t, t ∈ total -> t.2 - penalty t.1.1 <= baseline) ->
        move = (PASS, Some (board, []))) /\
     ((exists t, t ∈ total /\ baseline < t.2 - penalty t.1.1) ->
        exists i t,
          total !! i = Some t /\ move = (t.1.1, t.1.2) /\
          baseline < t.2 - penalty t.1.1 /\
          (forall j t', total !! j = Some t' ->
                        t'.2 - penalty t'.1.1 <= t.2 - penalty t.1.1) /\
          (forall j t', (j < i)%nat -> total !! j = Some t' ->
                        t'.2 - penalty t'.1.1 < t.2 - penalty t.1.1)) /\
     (_num_test self <= 0 ->
        total = [] /\ s' = s /\ move = (PASS, Some (board, [])))) /\
  (forall e, score frames (c_goal self) b = Raise e ->
     SmartPlayer_generate_move penalty apply_node apply_none frames rnd self board s
       = (s', Raise e)).
Proof.
  intros Hproceed Hloop Hb. split.
  - intros baseline Hscore.
    assert (Hrun : forall bs bm, best_of penalty total baseline None = (bs, bm) ->
              SmartPlayer_generate_move penalty apply_node apply_none frames rnd self
                board s
              = (s', if bs <=? baseline
                     then Ok (Some (PASS, Some (board, [])), set_proceed self false)
                     else Ok (bm, set_proceed self false))).
    { intros bs bm Hbest. unfold SmartPlayer_generate_move. rewrite Hproceed.
      unfold mbind at 1. unfold M_bind. rewrite Hloop.
      unfold mbind at 1. unfold M_bind, load. rewrite Hb.
      unfold mbind at 1. unfold M_bind, lift. rewrite Hscore, Hbest.
      unfold mbind at 1. unfold M_bind. rewrite Hb.
      unfold mbind at 1. unfold M_bind. simpl c_goal. rewrite Hscore.
      destruct (bs <=? baseline); reflexivity. }
    destruct (decide (Exists (fun t => baseline < net penalty t) total)) as [Hex|Hnone].
    + rewrite Exists_exists in Hex.
      destruct (best_of_some penalty total baseline None Hex)
        as (i & t & Hi & Hbest & Hlt & Hmax & Hfirst).
      exists (t.1.1, t.1.2). rewrite (Hrun _ _ Hbest).
      destruct (Z.leb_spec (net penalty t) baseline); [lia|].
      unfold net in *.
      split; [reflexivity|]. split; [|split].
      * intros Hall. destruct Hex as (t0 & Hin & Hgt). specialize (Hall t0 Hin). lia.
      * intros _. exists i, t. auto.
      * intros Hzero. exfalso.
        replace (Z.to_nat (_num_test self)) with 0%nat in Hloop by lia.
        simpl in Hloop. injection Hloop as _ <-. destruct Hex as (t0 & Hin & _).
        by apply elem_of_nil in Hin.
    + assert (Hall : forall t, t ∈ total -> net penalty t <= baseline).
      { intros t Ht. destruct (Z.le_gt_cases (net penalty t) baseline); [done|].
        exfalso. apply Hnone, Exists_exists. eauto. }
      exists (PASS, Some (board, [])).
      rewrite (Hrun _ _ (best_of_none penalty total baseline None Hall)).
      rewrite Z.leb_refl. unfold net in *.
      split; [reflexivity|]. split; [done|]. split.
      * intros (t & Hin & Hgt). specialize (Hall t Hin). lia.
      * intros Hzero. replace (Z.to_nat (_num_test self)) with 0%nat in Hloop by lia.
        simpl in Hloop. by injection Hloop as -> <-.
  - intros e Hscore. unfold SmartPlayer_generate_move. rewrite Hproceed.
    unfold mbind at 1. unfold M_bind. rewrite Hloop.
    unfold mbind at 1. unfold M_bind, load. rewrite Hb.
    unfold mbind at 1. unfold M_bind, lift. rewrite Hscore. reflexivity.
Qed.

Lemma SmartPlayer_generate_move_best_witness :
  exists s',
    SmartPlayer_generate_move sample_penalty sample_apply_node sample_apply_none
      1000 sample_rnd (sample_smart 2) 0%nat sample_store
    = (s', Ok (Some (PAINT, Some (0%nat, [1%nat])), set_proceed (sample_smart 2) false)).
Proof.
  destruct (SmartPlayer_generate_move_best sample_penalty sample_apply_node
              sample_apply_none 1000 sample_rnd (sample_smart 2) 0%nat sample_store
              (for_eachM (range 2) (SmartPlayer_trial sample_apply_node
                 sample_apply_none 1000 sample_rnd (sample_smart 2) 0%nat) []
                 sample_store).1
              [(PAINT, Some (0%nat, [1%nat]), 6); (PAINT, Some (0%nat, [3%nat]), 6)]
              sample_board)
    as [Hret _].
  - reflexivity.
  - vm_compute. reflexivity.
  - vm_compute. reflexivity.
  - destruct (Hret 4) as (move & Hmove & _ & Hbest & _); [vm_compute; reflexivity|].
    eexists. rewrite Hmove. do 3 f_equal.
    destruct Hbest as (i & t & Hi & -> & _ & _ & Hfirst); [|revert Hfirst].
    + exists (PAINT, Some (0%nat, [1%nat]), 6). split; [by left|]. vm_compute. reflexivity.
    + intros Hfirst. destruct i as [|[|i]]; simpl in Hi; [| |discriminate].
      * by injection Hi as <-.
      * exfalso. injection Hi as <-.
        specialize (Hfirst 0%nat (PAINT, Some (0%nat, [1%nat]), 6)).
        specialize (Hfirst (le_n 1) eq_refl). vm_compute in Hfirst. discriminate.
Defined.

(** A triggered [SmartPlayer] of difficulty 0 on [tiny_board], a board that
    satisfies the leaf/children invariant: the score of the real board
    divides by a unit size of 0, and the player raises instead of passing. *)
Lemma SmartPlayer_difficulty_0_counterexample :
  Board_invariant tiny_board = true /\
  _proceed (sample_smart 0) = true /\ _num_test (sample_smart 0) = 0 /\
  SmartPlayer_generate_move sample_penalty sample_apply_node sample_apply_none
    1000 sample_rnd (sample_smart 0) 0%nat {[ 0%nat := tiny_board ]}
  = ({[ 0%nat := tiny_board ]}, Raise ZeroDivisionError).
Proof. split_and!; [reflexivity..|]. vm_compute. reflexivity. Qed.

(** * player.py: the computer players leave the real board alone *)

Section Frame.

Variable penalty : Action -> Z.
Variable apply_node : Action -> Block -> Colour -> bool * Block.
Variable apply_none : Action -> Colour -> result bool.
Variable frames : nat.

(** A draw writes one object only: the copy it has just made. *)
Lemma draw_store (rnd : nat -> nat) (k : nat) (colour : Colour) (board : nat)
    (s s' : Store) (r : result (Action * option Ref * nat * bool)) :
  draw apply_node apply_none rnd k colour board s = (s', r) ->
  (s !! board = None /\ s' = s /\ r = Raise AttributeError) \/
  (exists b b', s !! board = Some b /\ s' = <[fresh (dom s) := b']> s).
Proof.
  unfold draw, mbind, M_bind, create_copy, lift, load, _get_block_ref, mret,
    M_ret, Action_apply.
  destruct (s !! board) as [b|] eqn:Hb; [|intros [= <- <-]; by left].
  intros H. right. exists b.
  assert (Hnew : (<[fresh (dom s) := b]> s) !! fresh (dom s) = Some b)
    by apply lookup_insert_eq.
  assert (Hne : board <> fresh (dom s)).
  { intros ->. pose proof (is_fresh (dom s)) as Hf.
    apply Hf, elem_of_dom. eauto. }
  assert (Hold : (<[fresh (dom s) := b]> s) !! board = Some b)
    by (by rewrite lookup_insert_ne).
  repeat (first [rewrite Hnew in H | rewrite Hold in H
                | progress (unfold mbind, M_bind, load, mret, M_ret in H)
                | progress simpl in H
                | destruct (choice _ _) in H
                | destruct (randint _ _ _) in H
                | destruct (locate _ _ _) in H
                | destruct (apply_none _ _) in H
                | destruct (subblock _ _) in H
                | destruct (apply_node _ _ _) in H ]).
  all: simplify_eq; eauto.
  eexists. split; [done|]. apply insert_insert_eq.
Qed.

Lemma draw_frame (rnd : nat -> nat) (k : nat) (colour : Colour) (board : nat)
    (s s' : Store) (r : result (Action * option Ref * nat * bool)) :
  draw apply_node apply_none rnd k colour board s = (s', r) -> s ⊆ s'.
Proof.
  intros [(_ & -> & _)|(b & b' & _ & ->)]%draw_store; [done|].
  apply insert_subseteq, not_elem_of_dom, is_fresh.
Qed.

Lemma RandomPlayer_loop_frame (fuel : nat) (rnd : nat -> nat) (k : nat)
    (self : ComputerPlayer) (board : nat) (s s' : Store)
    (r : result (option Move * ComputerPlayer)) :
  RandomPlayer_loop apply_node apply_none fuel rnd k self board s = (s', r) -> s ⊆ s'.
Proof.
  revert k s. induction fuel as [|fuel IH]; intros k s; simpl.
  - unfold lift. by intros [= <- _].
  - unfold mbind, M_bind.
    destruct (draw apply_node apply_none rnd k (target (c_goal self)) board s) as [s1 r1] eqn:Hd.
    apply draw_frame in Hd.
    destruct r1 as [[[[a mv] nb] [|]]|e|]; simpl.
    + unfold mret, M_ret. by intros [= <- _].
    + intros H. etrans; [exact Hd|]. by eapply IH.
    + by intros [= <- _].
    + by intros [= <- _].
Qed.

Lemma SmartPlayer_trial_frame (rnd : nat -> nat) (self : ComputerPlayer)
    (board k : nat) (total : list Trial) (s s' : Store) (r : result (list Trial)) :
  SmartPlayer_trial apply_node apply_none frames rnd self board k total s = (s', r) ->
  s ⊆ s'.
Proof.
  unfold SmartPlayer_trial, mbind, M_bind.
  destruct (draw apply_node apply_none rnd k (target (c_goal self)) board s) as [s1 r1] eqn:Hd.
  apply draw_frame in Hd.
  destruct r1 as [[[[a mv] nb] [|]]|e|]; simpl; unfold load, lift, mret, M_ret;
    intros H; repeat (case_match; simplify_eq/=); by simplify_eq.
Qed.

Lemma for_eachM_frame {A St : Type} (l : list A) (body : A -> St -> M St) (st : St)
    (s s' : Store) (r : result St) :
  (forall a st s s' r, body a st s = (s', r) -> s ⊆ s') ->
  for_eachM l body st s = (s', r) -> s ⊆ s'.
Proof.
  intros Hbody. revert st s. induction l as [|a l IH]; intros st s; simpl.
  - unfold mret, M_ret. by intros [= <- _].
  - unfold mbind, M_bind. destruct (body a st s) as [s1 r1] eqn:Hb.
    apply Hbody in Hb. destruct r1; try by intros [= <- _].
    intros H. etrans; [exact Hb|]. by eapply IH.
Qed.

Lemma RandomPlayer_generate_move_frame (fuel : nat) (rnd : nat -> nat)
    (self : ComputerPlayer) (board : nat) (s s' : Store)
    (r : result (option Move * ComputerPlayer)) :
  RandomPlayer_generate_move apply_node apply_none fuel rnd self board s = (s', r) ->
  s ⊆ s'.
Proof.
  unfold RandomPlayer_generate_move. destruct (_proceed self).
  - apply RandomPlayer_loop_frame.
  - unfold mret, M_ret. by intros [= <- _].
Qed.

Lemma SmartPlayer_generate_move_frame (rnd : nat -> nat)
    (self : ComputerPlayer) (board : nat) (s s' : Store)
    (r : result (option Move * ComputerPlayer)) :
  SmartPlayer_generate_move penalty apply_node apply_none frames rnd self board s
    = (s', r) ->
  s ⊆ s'.
Proof.
  unfold SmartPlayer_generate_move. destruct (_proceed self).
  - unfold mbind at 1. unfold M_bind at 1.
    destruct (for_eachM _ _ _ s) as [s1 r1] eqn:Hl.
    apply for_eachM_frame in Hl; [|intros; by eapply SmartPlayer_trial_frame].
    destruct r1; try by intros [= <- _].
    unfold mbind, M_bind, load, lift, mret, M_ret.
    intros H; repeat (case_match; simplify_eq/=); by simplify_eq.
  - unfold mret, M_ret. by intros [= <- _].
Qed.

(** The trial loop makes one copy per trial. *)
Lemma SmartPlayer_trials_count (rnd : nat -> nat) (self : ComputerPlayer)
    (board : nat) (real : Block) (l : list nat) (total total' : list Trial)
    (s s' : Store) :
  s !! board = Some real ->
  for_eachM l (SmartPlayer_trial apply_node apply_none frames rnd self board) total s
    = (s', Ok total') ->
  base.size s' = (base.size s + length l)%nat.
Proof.
  revert total s. induction l as [|k l IH]; intros total s Hreal; simpl.
  - unfold mret, M_ret. intros [= <- _]. lia.
  - unfold mbind, M_bind.
    destruct (SmartPlayer_trial _ _ _ _ _ _ _ _ s) as [s1 r1] eqn:Ht.
    destruct r1 as [total1| |]; try discriminate. intros Hl.
    assert (Hsub : s ⊆ s1) by (by eapply SmartPlayer_trial_frame).
    rewrite (IH total1 s1); [|by eapply lookup_weaken|done].
    enough (base.size s1 = S (base.size s)) by lia.
    unfold SmartPlayer_trial, mbind, M_bind in Ht.
    destruct (draw apply_node apply_none rnd k (target (c_goal self)) board s) as [s2 r2] eqn:Hd.
    assert (s2 = s1) as ->.
    { destruct r2 as [[[[a mv] nb] [|]]|e|]; simpl in Ht;
        unfold load, lift, mret, M_ret in Ht;
        repeat (case_match; simplify_eq/=); by simplify_eq. }
    apply draw_store in Hd as [(Hnone & _)|(b & b' & _ & ->)]; [congruence|].
    apply map_size_insert_None, not_elem_of_dom, is_fresh.
Qed.

End Frame.

(** C6: neither [RandomPlayer.generate_move] nor [SmartPlayer.generate_move]
    mutates the real board: however the call ends (a move, no move, an
    exception, the iteration budget used up), the object [board] of the store
    holds the same tree afterwards, as does every other object that existed
    before.  Every draw makes one new copy, an object that did not exist
    before, and the copy is the only object the draw writes; a completed run
    of the trial loop of the smart player has made as many copies as there are
    trials. *)
Theorem generate_move_leaves_board
    (penalty : Action -> Z)
    (apply_node : Action -> Block -> Colour -> bool * Block)
    (apply_none : Action -> Colour -> result bool) (frames : nat)
    (rnd : nat -> nat) (fuel : nat) (self : ComputerPlayer) (board : nat)
    (real : Block) (s : Store) :
  s !! board = Some real ->
  (forall s' r,
     RandomPlayer_generate_move apply_node apply_none fuel rnd self board s = (s', r) ->
     s' !! board = Some real /\ s ⊆ s') /\
  (forall s' r,
     SmartPlayer_generate_move penalty apply_node apply_none frames rnd self board s
       = (s', r) ->
     s' !! board = Some real /\ s ⊆ s') /\
  (forall k colour s' r,
     draw apply_node apply_none rnd k colour board s = (s', r) ->
     s !! fresh (dom s) = None /\
     exists copy, s' = <[fresh (dom s) := copy]> s) /\
  (forall s' total,
     for_eachM (range (Z.to_nat (_num_test self)))
       (SmartPlayer_trial apply_node apply_none frames rnd self board) [] s
       = (s', Ok total) ->
     base.size s' = (base.size s + Z.to_nat (_num_test self))%nat).
Proof.
  intros Hreal. split_and!.
  - intros s' r H%RandomPlayer_generate_move_frame.
    split; [by eapply lookup_weaken|done].
  - intros s' r H%SmartPlayer_generate_move_frame.
    split; [by eapply lookup_weaken|done].
  - intros k colour s' r [(Hnone & _)|(b & b' & _ & ->)]%draw_store; [congruence|].
    split; [apply not_elem_of_dom, is_fresh|eauto].
  - intros s' total H%(SmartPlayer_trials_count _ _ _ _ _ _ real); [|done].
    by rewrite range_length in H.
Qed.

Lemma generate_move_leaves_board_witness :
  (SmartPlayer_generate_move sample_penalty sample_apply_node sample_apply_none
     1000 sample_rnd (sample_smart 2) 0%nat sample_store).1 !! 0%nat = Some sample_board /\
  (RandomPlayer_generate_move sample_apply_node sample_apply_none 3
     sample_rnd (sample_smart 2) 0%nat sample_store).1 !! 0%nat = Some sample_board.
Proof.
  destruct (generate_move_leaves_board sample_penalty sample_apply_node
              sample_apply_none 1000 sample_rnd 3 (sample_smart 2) 0%nat sample_board
              sample_store) as (Hrandom & Hsmart & _).
  - reflexivity.
  - split.
    + eapply Hsmart. apply surjective_pairing.
    + eapply Hrandom. apply surjective_pairing.
Defined.

(** * player.py: the coordinates that a draw samples *)

(** On a board at the origin the sampled range is the extent of the board. *)
Lemma randint_origin (sz : Z) (r : nat) (x : Z) :
  randint 0 (sz - 1) r = Ok x -> 0 <= x < 0 + sz.
Proof. intros H%randint_Ok. lia. Qed.

Lemma draw_coordinate_range (pos sz : Z) (r : nat) (x : Z) :
  randint pos (sz - 1) r = Ok x -> pos <= x <= sz - 1.
Proof. apply randint_Ok. Qed.

(** C7 (the code departs from it): the sampled coordinate is drawn from
    [position .. size - 1], not from the extent [position .. position + size - 1].
    On a board whose position exceeds its size the range is empty and every
    draw raises [ValueError]; on a board at a negative position a draw can
    land outside the extent, so that [_get_block] answers [None] on the real
    board and on the copy; on a board at (1, 1) of size 2 the coordinate 2,
    which lies in the extent, is never drawn. *)
Theorem draw_off_origin
    (apply_node : Action -> Block -> Colour -> bool * Block)
    (apply_none : Action -> Colour -> result bool)
    (rnd : nat -> nat) (k : nat) (colour : Colour) :
  (draw apply_node apply_none rnd k colour 0%nat {[ 0%nat := shifted_board ]}).2
    = Raise ValueError /\
  (rnd (4 * k + 1)%nat = 2%nat -> rnd (4 * k + 2)%nat = 2%nat ->
   contains negative_board (0, 0) = false /\
   _get_block negative_board (0, 0) 0 = None /\
   exists a,
     (draw apply_node apply_none rnd k colour 0%nat {[ 0%nat := negative_board ]}).2
     = (ok ← apply_none a colour; Ok (a, None, 1%nat, ok))) /\
  (forall r, randint (position near_board).1 (size near_board - 1) r = Ok 1) /\
  contains near_board (2, 2) = true.
Proof.
  assert (Hchoice : exists a, choice moves (rnd (4 * k)%nat) = Ok a).
  { destruct (choice_elem moves (rnd (4 * k)%nat)) as (a & Ha & _); [done|eauto]. }
  destruct Hchoice as (a & Ha).
  split_and!.
  - unfold draw, mbind, M_bind, create_copy, lift, load.
    rewrite lookup_singleton_eq. cbn [fst snd].
    rewrite lookup_insert_eq, Ha. reflexivity.
  - intros Hx Hy. split; [reflexivity|]. split; [reflexivity|]. exists a.
    unfold draw, mbind, M_bind, create_copy, lift, load, _get_block_ref, mret, M_ret.
    assert (Hne : (fresh (dom ({[0%nat := negative_board]} : gmap nat Block))) = 1%nat)
      by reflexivity.
    rewrite Hne.
    assert (Hlevel : randint 0 0 (rnd (4 * k + 3)%nat) = Ok 0).
    { unfold randint. simpl. by rewrite Z.mod_1_r. }
    repeat first [ rewrite lookup_insert_eq | rewrite lookup_insert_ne by done
                 | rewrite lookup_singleton_eq | rewrite Ha | rewrite Hx | rewrite Hy
                 | rewrite Hlevel
                 | progress cbn [fst snd position size level max_depth negative_board] ].
    change (randint (-2) (2 - 1) 2%nat) with (Ok (A:=Z) 0).
    unfold mbind, M_bind, load.
    repeat first [ rewrite lookup_insert_eq | rewrite lookup_insert_ne by done
                 | rewrite lookup_singleton_eq | rewrite Hlevel
                 | progress cbn [fst snd position size level max_depth negative_board] ].
    change (locate _ (0, 0) 0) with (@None (list nat)). cbn [fmap option_fmap option_map].
    unfold Action_apply. by destruct (apply_none a colour).
  - intros r. unfold randint. simpl. f_equal. rewrite Z.mod_1_r. reflexivity.
  - reflexivity.
Qed.

(** * Further properties *)

(** * goal.py: the palette and the descriptions *)

(** The loop of [generate_goals] as far as the palette lasts. *)
Lemma generate_goals_loop (rnd : nat -> nat) (n : nat) :
  (n <= length COLOUR_LIST)%nat ->
  exists st,
    for_each (range n) (generate_goals_step rnd) (COLOUR_LIST, []) = Ok st /\
    goals_invariant n st.
Proof.
  intros Hn.
  destruct (for_each_invariant
              (fun k st => (k <= n)%nat /\ goals_invariant k st)
              (range n) (generate_goals_step rnd) (COLOUR_LIST, []))
    as (st & Hst & _ & Hinv).
  - intros k a st Hk [Hle Hinv]. apply range_lookup in Hk as [-> Hk].
    destruct (generate_goals_step_invariant rnd k st) as (st' & ? & ?); [lia|done|].
    exists st'. split; [done|]. split; [lia|done].
  - split; [lia|]. repeat split; simpl; rewrite ?app_nil_r; auto.
    apply COLOUR_LIST_NoDup.
  - rewrite range_length in Hinv. eauto.
Qed.

Lemma generate_goals_Ok (rnd : nat -> nat) (n : nat) :
  (n <= length COLOUR_LIST)%nat ->
  exists colours goals,
    generate_goals rnd n = Ok goals /\ goals_invariant n (colours, goals).
Proof.
  intros Hn. destruct (generate_goals_loop rnd n Hn) as ([colours goals] & Hst & Hinv).
  exists colours, goals. unfold generate_goals. by rewrite Hst.
Qed.

Lemma generate_goals_too_many (rnd : nat -> nat) (num_goals : nat) :
  (length COLOUR_LIST < num_goals)%nat ->
  generate_goals rnd num_goals = Raise IndexError.
Proof.
  intros Hn. set (m := length COLOUR_LIST) in *.
  destruct (generate_goals_loop rnd m) as ([colours final] & Hst & Hinv); [done|].
  destruct Hinv as (_ & Hlen & _); cbn [fst snd] in Hlen.
  assert (colours = []) as -> by (apply nil_length_inv; fold m in Hlen; lia).
  unfold generate_goals, range.
  replace num_goals with (m + S (num_goals - m - 1))%nat by lia.
  rewrite seq_app, for_each_app. fold (range m). rewrite Hst, bind_ok.
  reflexivity.
Qed.

(** X1: a request for more goals than the palette has colours fails: after
    the four colours are used up, [random.choice] is handed the empty list
    and [generate_goals] raises [IndexError], whatever the random draws. *)
Theorem generate_goals_exhausts (rnd : nat -> nat) (num_goals : nat) :
  (length COLOUR_LIST < num_goals)%nat ->
  generate_goals rnd num_goals = Raise IndexError.
Proof. apply generate_goals_too_many. Qed.

Lemma generate_goals_exhausts_witness :
  generate_goals (fun k => (3 * k + 1)%nat) 5 = Raise IndexError.
Proof.
  apply (generate_goals_exhausts (fun k => (3 * k + 1)%nat) 5). simpl; lia.
Defined.

(** X2: a request for as many goals as the palette has colours uses every
    colour of [COLOUR_LIST] exactly once, whatever the random draws. *)
Theorem generate_goals_palette (rnd : nat -> nat) :
  exists goals,
    generate_goals rnd (length COLOUR_LIST) = Ok goals /\
    target <$> goals ≡ₚ COLOUR_LIST.
Proof.
  destruct (generate_goals_Ok rnd (length COLOUR_LIST)) as (colours & goals & Hg & Hinv);
    [done|].
  exists goals. split; [done|].
  destruct Hinv as (Hnd & Hlen & Hfin & Hsub); cbn [fst snd] in *.
  assert (colours = []) as -> by (apply nil_length_inv; lia).
  simpl in Hnd, Hsub.
  apply submseteq_length_Permutation.
  - by apply NoDup_submseteq.
  - rewrite length_fmap. lia.
Qed.

(** ** Descriptions *)

Lemma colour_name_Ok (c : Colour) (name : string) :
  colour_name c = Ok name -> (c, name) ∈ colour_names.
Proof.
  intros H. destruct (decide (c ∈ COLOUR_LIST)) as [Hin|Hout].
  - unfold COLOUR_LIST in Hin.
    repeat (apply elem_of_cons in Hin as [-> | Hin];
            [vm_compute in H; injection H as <-; unfold colour_names;
             rewrite !elem_of_cons; tauto|]).
    by apply elem_of_nil in Hin.
  - by rewrite colour_name_unknown in H.
Qed.

Lemma description_Ok (g : Goal) (s : string) :
  description g = Ok s ->
  exists name, (target g, name) ∈ colour_names /\
    s = match kind g with
        | PerimeterGoal =>
          ("Maximize the presence of " ++ name ++ " on the board's perimeter")%string
        | BlobGoal =>
          ("Create the largest connected blob of " ++ name
             ++ " anywhere within the Block")%string
        end.
Proof.
  unfold description, PerimeterGoal_description, BlobGoal_description.
  destruct (kind g); intros H; apply bind_Ok in H as (name & Hn & [= <-]);
    exists name; (split; [by apply colour_name_Ok|done]).
Qed.

Lemma description_palette (g : Goal) :
  target g ∈ COLOUR_LIST -> exists s, description g = Ok s.
Proof.
  intros Hin. unfold description, PerimeterGoal_description, BlobGoal_description.
  unfold COLOUR_LIST in Hin.
  repeat (apply elem_of_cons in Hin as [-> | Hin];
          [destruct (kind g); eexists; reflexivity|]).
  by apply elem_of_nil in Hin.
Qed.

(** X3: a description tells the goal: [description] returns exactly for the
    goals whose colour is in the palette (it raises [UnknownColourError] for
    the others), and two goals with the same description are the same kind of
    goal for the same colour. *)
Theorem description_identifies (g1 g2 : Goal) :
  ((exists s, description g1 = Ok s) <-> target g1 ∈ COLOUR_LIST) /\
  (target g1 ∉ COLOUR_LIST -> description g1 = Raise UnknownColourError) /\
  (forall s, description g1 = Ok s -> description g2 = Ok s -> g1 = g2).
Proof.
  split_and!.
  - split; [|apply description_palette].
    intros [s Hs]. apply description_Ok in Hs as (name & Hin & _).
    destruct (decide (target g1 ∈ COLOUR_LIST)) as [|Hout]; [done|].
    exfalso. unfold colour_names in Hin.
    rewrite !elem_of_cons, elem_of_nil in Hin.
    apply Hout. unfold COLOUR_LIST. rewrite !elem_of_cons.
    destruct Hin as [[= -> _]|[[= -> _]|[[= -> _]|[[= -> _]|[]]]]]; tauto.
  - intros Hout. unfold description, PerimeterGoal_description, BlobGoal_description.
    rewrite (colour_name_unknown _ Hout). by destruct (kind g1).
  - intros s H1 H2.
    apply description_Ok in H1 as (n1 & Hin1 & E1).
    apply description_Ok in H2 as (n2 & Hin2 & E2).
    destruct g1 as [k1 c1], g2 as [k2 c2]; cbn [kind target] in *.
    unfold colour_names in Hin1, Hin2.
    rewrite !elem_of_cons, elem_of_nil in Hin1, Hin2.
    destruct Hin1 as [[= -> ->]|[[= -> ->]|[[= -> ->]|[[= -> ->]|[]]]]];
    destruct Hin2 as [[= -> ->]|[[= -> ->]|[[= -> ->]|[[= -> ->]|[]]]]];
    destruct k1, k2; subst s; first [reflexivity | discriminate E2].
Qed.

(** X4: every goal that [generate_goals] hands out can be described: within
    the palette, [description] returns a text for each goal of the list. *)
Theorem generate_goals_described (rnd : nat -> nat) (num_goals : nat) :
  (num_goals <= length COLOUR_LIST)%nat ->
  exists goals,
    generate_goals rnd num_goals = Ok goals /\
    Forall (fun g => exists s, description g = Ok s) goals.
Proof.
  intros Hn.
  destruct (generate_goals_Ok rnd num_goals Hn) as (colours & goals & Hg & Hinv).
  exists goals. split; [done|].
  destruct Hinv as (_ & _ & _ & Hsub); cbn [fst snd] in Hsub.
  apply Forall_forall. intros g Hin. apply description_palette, Hsub.
  apply elem_of_app. right. by apply list_elem_of_fmap_2.
Qed.

Lemma generate_goals_described_witness :
  exists goals,
    generate_goals (fun k => (5 * k + 2)%nat) 4 = Ok goals /\
    Forall (fun g => exists s, description g = Ok s) goals.
Proof.
  apply (generate_goals_described (fun k => (5 * k + 2)%nat) 4). simpl; lia.
Defined.

(** * player.py: more on _get_block *)

Lemma locate_unfold (b : Block) (location : Z * Z) (lvl : Z) :
  locate b location lvl
  = if negb (contains b location) then None
    else if lvl =? level b then Some []
    else if colour b is Some _ then Some []
    else locate_children 0 (children b) location lvl.
Proof.
  destruct b as [pos sz col l md chs]. cbn [locate level colour children].
  destruct (negb _); [done|]. destruct (lvl =? l); [done|]. destruct col; [done|].
  generalize 0%nat. induction chs as [|c cs IH]; intros k; [done|].
  cbn [locate_children]. destruct (locate c location lvl); [done|]. apply IH.
Qed.

(** The path that [locate] answers leads to the node that [_get_block]
    answers. *)
Lemma locate_get_block (b : Block) (loc : Z * Z) (t : Z) :
  match locate b loc t with
  | Some p => exists d, subblock b p = Some d /\ _get_block b loc t = Some d
  | None => _get_block b loc t = None
  end.
Proof.
  induction b as [pos sz col lvl md chs IH] using Block_induction.
  rewrite locate_unfold, _get_block_unfold.
  set (b := mkBlock pos sz col lvl md chs) in *.
  destruct (negb (contains b loc)); [done|].
  destruct (t =? level b); [by exists b|].
  destruct (colour b); [by exists b|].
  cbn [children b].
  assert (Hloop : forall k,
    match locate_children k chs loc t with
    | Some p => exists i c p' d, p = (k + i)%nat :: p' /\ chs !! i = Some c /\
                  subblock c p' = Some d /\ _get_block_children chs loc t = Some d
    | None => _get_block_children chs loc t = None
    end).
  { clear b. induction IH as [|c cs Hc _ IHcs]; intros k; [done|].
    cbn [locate_children _get_block_children].
    destruct (locate c loc t) as [p|].
    - destruct Hc as (d & Hsub & ->). exists 0%nat, c, p, d.
      split_and!; [f_equal; lia|done..].
    - rewrite Hc. specialize (IHcs (S k)).
      destruct (locate_children (S k) cs loc t) as [p|]; [|done].
      destruct IHcs as (i & c' & p' & d & -> & Hi & Hsub & Hd).
      exists (S i), c', p', d. split_and!; [f_equal; lia|done..]. }
  specialize (Hloop 0%nat).
  destruct (locate_children 0 chs loc t) as [p|]; [|done].
  destruct Hloop as (i & c & p' & d & -> & Hi & Hsub & Hd).
  exists d. split; [|done]. cbn [subblock children b]. simpl. by rewrite Hi.
Qed.

(** Whatever the tree, a block that [_get_block] answers is a node of the
    board that contains the location. *)
Lemma _get_block_Some (b : Block) (loc : Z * Z) (t : Z) :
  forall d, _get_block b loc t = Some d ->
    in_board d b /\ contains d loc = true /\ contains b loc = true /\
    (level d = t \/ is_Some (colour d)).
Proof.
  induction b as [pos sz col lvl md chs IH] using Block_induction.
  intros d. rewrite _get_block_unfold.
  set (b := mkBlock pos sz col lvl md chs) in *.
  destruct (contains b loc) eqn:Hin; simpl negb; cbv iota; [|done].
  destruct (Z.eqb_spec t (level b)) as [Heq|Hne].
  { intros [= <-]. split_and!; [constructor|done|done|auto]. }
  destruct (colour b) eqn:Hcol.
  { intros [= <-]. split_and!; [constructor|done|done|]. right. by rewrite Hcol. }
  pose proof (_get_block_children_spec (children b) loc t) as Hloop.
  intros Hd. rewrite Hd in Hloop. destruct Hloop as (i & c & Hi & Hc & _).
  assert (Hcin : c ∈ chs) by (by eapply list_elem_of_lookup_2).
  rewrite Forall_forall in IH.
  destruct (IH c Hcin d Hc) as (Hdc & Hdin & _ & Hlev).
  split_and!; [by eapply in_board_child|done..].
Qed.

(** X5: on any tree of blocks, sound or not, [_get_block] answers nothing for
    a location outside the extent of the block, the block itself when asked
    for its own level at a location inside, and otherwise only a node of the
    board that contains the location and that is at the level asked for or
    has a colour. *)
Theorem _get_block_contains (b : Block) (loc : Z * Z) (t : Z) :
  (contains b loc = false -> _get_block b loc t = None) /\
  (contains b loc = true -> _get_block b loc (level b) = Some b) /\
  (forall d, _get_block b loc t = Some d ->
     in_board d b /\ contains d loc = true /\ contains b loc = true /\
     (level d = t \/ is_Some (colour d))).
Proof.
  split_and!.
  - intros Hout. by rewrite _get_block_unfold, Hout.
  - intros Hin. by rewrite _get_block_unfold, Hin, Z.eqb_refl.
  - apply _get_block_Some.
Qed.

(** A level outside the range of the board: the lookup is the one at the
    maximal depth. *)
Lemma _get_block_level_out (b : Block) (loc : Z * Z) (t : Z) :
  wf_board b = true -> t < level b \/ max_depth b < t ->
  _get_block b loc t = _get_block b loc (max_depth b).
Proof.
  induction b as [pos sz col lvl md chs IH] using Block_induction.
  intros Hwf Ht. rewrite !_get_block_unfold.
  set (b := mkBlock pos sz col lvl md chs) in *.
  destruct (negb (contains b loc)); [done|].
  destruct (wf_board_inv b Hwf) as (Hle & _).
  destruct (Z.eqb_spec t (level b)) as [Heq|Hne]; [lia|].
  destruct (colour b) eqn:Hcol.
  { by destruct (max_depth b =? level b). }
  destruct (wf_board_half b Hwf Hcol) as (Hlt & _).
  destruct (Z.eqb_spec (max_depth b) (level b)) as [Heq|_]; [lia|].
  assert (Hch : forall c, c ∈ chs ->
            _get_block c loc t = _get_block c loc (max_depth b)).
  { intros c Hc. destruct (child_facts b c Hwf Hc) as (_ & Hl & Hm & _ & Hcwf & _).
    rewrite Forall_forall in IH. rewrite <- Hm. apply IH; [done..|]. lia. }
  cbn [children b].
  assert (Hloop : forall cs,
            (forall c, c ∈ cs -> _get_block c loc t = _get_block c loc (max_depth b)) ->
            _get_block_children cs loc t = _get_block_children cs loc (max_depth b)).
  { induction cs as [|c cs IHcs]; intros Hcs; [done|].
    cbn [_get_block_children]. rewrite (Hcs c) by apply list_elem_of_here.
    rewrite IHcs; [done|]. intros c' Hc'. apply Hcs. by apply list_elem_of_further. }
  by apply Hloop.
Qed.

(** X6: outside the documented range of levels the lookup answers the
    deepest block: on a board of sound geometry, for a location inside the
    board and a level below the level of the board or beyond its maximal
    depth, [_get_block] returns the leaf that contains the location, the
    answer it gives for the maximal depth. *)
Theorem _get_block_deepest (b : Block) (loc : Z * Z) (t : Z) :
  wf_board b = true -> contains b loc = true ->
  t < level b \/ max_depth b < t ->
  exists d,
    _get_block b loc t = Some d /\
    _get_block b loc (max_depth b) = Some d /\
    in_board d b /\ contains d loc = true /\
    is_Some (colour d) /\ children d = [].
Proof.
  intros Hwf Hin Ht. rewrite (_get_block_level_out b loc t Hwf Ht).
  destruct (wf_board_inv b Hwf) as (Hle & _).
  destruct (_get_block_sound b loc (max_depth b) Hwf) as (Hnone & Hsound & _); [lia|].
  destruct (_get_block b loc (max_depth b)) as [d|] eqn:Hd.
  2:{ destruct Hnone as [Hn _]. rewrite Hn in Hin; done. }
  exists d. destruct (Hsound d eq_refl) as (Hdb & Hdin & Hlev).
  destruct (in_board_facts d b loc Hdb Hwf) as (Hdwf & _ & Hmd & _).
  assert (Hcol : is_Some (colour d)).
  { destruct Hlev as [Hl|[_ ?]]; [|done].
    destruct (colour d) eqn:Hc; [done|].
    destruct (wf_board_half d Hdwf Hc) as (? & _). lia. }
  split_and!; try done.
  destruct (wf_board_inv d Hdwf) as (_ & _ & _ & Hch).
  destruct Hcol as [c Hc]. by rewrite Hc in Hch.
Qed.

Lemma _get_block_deepest_witness :
  exists d,
    _get_block sample_board (3, 1) (-1) = Some d /\
    _get_block sample_board (3, 1) (max_depth sample_board) = Some d /\
    in_board d sample_board /\ contains d (3, 1) = true /\
    is_Some (colour d) /\ children d = [].
Proof.
  apply (_get_block_deepest sample_board (3, 1) (-1)).
  - reflexivity.
  - reflexivity.
  - left. simpl. lia.
Defined.

(** * player.py: create_players *)

Lemma list_pop_snoc {A : Type} (l : list A) (a : A) : list_pop (l ++ [a]) = Ok (a, l).
Proof.
  unfold list_pop. rewrite last_snoc, length_app. simpl.
  replace (length l + 1 - 1)%nat with (length l) by lia.
  by rewrite take_app_length.
Qed.

Lemma list_pop_nil {A : Type} : list_pop (@nil A) = Raise IndexError.
Proof. reflexivity. Qed.

Lemma create_players_step_snoc (make : Z -> Goal -> Player) (final : list Player)
    (pid : Z) (rest : list Goal) (g : Goal) :
  create_players_step make (final, pid, rest ++ [g])
  = Ok (final ++ [make pid g], pid + 1, rest).
Proof. unfold create_players_step. by rewrite list_pop_snoc. Qed.

(** One loop of [create_players]: the goals leave the list from its end. *)
Lemma create_players_loop {A : Type} (make : A -> Z -> Goal -> Player) (l : list A) :
  forall (gs : list Goal) (final : list Player) (pid : Z) (rest : list Goal),
    length gs = length l ->
    for_each l (fun a => create_players_step (make a)) (final, pid, rest ++ reverse gs)
    = Ok (final ++ roster make l pid gs, pid + Z.of_nat (length l), rest).
Proof.
  induction l as [|a l IH]; intros [|g gs] final pid rest Hlen; try discriminate.
  - simpl. by rewrite !app_nil_r, Z.add_0_r.
  - cbn [for_each roster].
    rewrite reverse_cons, app_assoc, create_players_step_snoc, bind_ok.
    rewrite IH by (simpl in Hlen; lia).
    rewrite <- app_assoc. simpl. do 3 f_equal. lia.
Qed.

Section Roster.
Context {A : Type} (make : A -> Z -> Goal -> Player).

Lemma roster_length (l : list A) :
  forall pid gs, length gs = length l -> length (roster make l pid gs) = length l.
Proof.
  induction l as [|a l IH]; intros pid [|g gs] Hlen; try discriminate; [done|].
  simpl. rewrite IH; [done|]. simpl in Hlen. lia.
Qed.

Lemma roster_goal (l : list A) :
  (forall a i g, player_goal (make a i g) = g) ->
  forall pid gs, length gs = length l -> player_goal <$> roster make l pid gs = gs.
Proof.
  intros Hmk. induction l as [|a l IH]; intros pid [|g gs] Hlen; try discriminate; [done|].
  simpl. rewrite Hmk, IH; [done|]. simpl in Hlen. lia.
Qed.

Lemma roster_id (l : list A) :
  (forall a i g, player_id (make a i g) = i) ->
  forall p gs, length gs = length l ->
    player_id <$> roster make l (Z.of_nat p) gs = Z.of_nat <$> seq p (length l).
Proof.
  intros Hmk. induction l as [|a l IH]; intros p [|g gs] Hlen; try discriminate; [done|].
  cbn [roster fmap list_fmap length seq]. rewrite Hmk. f_equal.
  replace (Z.of_nat p + 1) with (Z.of_nat (S p)) by lia.
  apply IH. simpl in Hlen. lia.
Qed.

Lemma roster_kind (kd : A -> PlayerKind) (l : list A) :
  (forall a i g, player_kind (make a i g) = kd a) ->
  forall pid gs, length gs = length l -> player_kind <$> roster make l pid gs = kd <$> l.
Proof.
  intros Hmk. induction l as [|a l IH]; intros pid [|g gs] Hlen; try discriminate; [done|].
  simpl. rewrite Hmk, IH; [done|]. simpl in Hlen. lia.
Qed.

Lemma roster_unstarted (l : list A) :
  (forall a i g, unstarted (make a i g)) ->
  forall pid gs, Forall unstarted (roster make l pid gs).
Proof.
  intros Hmk. induction l as [|a l IH]; intros pid [|g gs]; simpl; auto.
Qed.

End Roster.

(** What [create_players] returns when the goals suffice: the three rosters
    over the goals of [generate_goals] read from the end. *)
Lemma create_players_Ok (rnd : nat -> nat) (num_human num_random : Z)
    (smart_players : list Z) :
  0 <= num_human -> 0 <= num_random ->
  num_human + num_random + Z.of_nat (length smart_players)
    <= Z.of_nat (length COLOUR_LIST) ->
  exists colours goals gs1 gs2 gs3,
    generate_goals rnd
      (Z.to_nat (num_human + num_random + Z.of_nat (length smart_players))) = Ok goals /\
    goals_invariant (length goals) (colours, goals) /\
    reverse goals = gs1 ++ gs2 ++ gs3 /\
    length gs1 = Z.to_nat num_human /\ length gs2 = Z.to_nat num_random /\
    length gs3 = length smart_players /\
    create_players rnd num_human num_random smart_players
    = Ok (roster (fun _ pid goal => Human (HumanPlayer_init pid goal))
            (range (Z.to_nat num_human)) 0 gs1
          ++ roster (fun _ pid goal => Random (RandomPlayer_init pid goal))
               (range (Z.to_nat num_random)) num_human gs2
          ++ roster (fun difficulty pid goal => Smart (SmartPlayer_init pid goal difficulty))
               smart_players (num_human + num_random) gs3).
Proof.
  intros Hh Hr Hn.
  set (n := Z.to_nat (num_human + num_random + Z.of_nat (length smart_players))).
  destruct (generate_goals_Ok rnd n) as (colours & goals & Hg & Hinv); [lia|].
  assert (Hlen : length goals = n) by (by destruct Hinv as (_ & _ & ? & _)).
  set (h := Z.to_nat num_human). set (r := Z.to_nat num_random).
  set (gs := reverse goals).
  exists colours, goals, (take h gs), (take r (drop h gs)), (drop (h + r) gs).
  assert (Hgs : length gs = (h + r + length smart_players)%nat).
  { unfold gs. rewrite length_reverse, Hlen. unfold n, h, r. lia. }
  assert (H1 : length (take h gs) = h) by (rewrite length_take; lia).
  assert (H2 : length (take r (drop h gs)) = r)
    by (rewrite length_take, length_drop; lia).
  assert (H3 : length (drop (h + r) gs) = length smart_players)
    by (rewrite length_drop; lia).
  assert (Hsplit : gs = take h gs ++ take r (drop h gs) ++ drop (h + r) gs).
  { rewrite <- (take_drop h gs) at 1. f_equal.
    rewrite <- (take_drop r (drop h gs)) at 1. f_equal.
    by rewrite drop_drop. }
  split_and!; [done|by rewrite Hlen|done..|].
  unfold create_players. fold n. rewrite Hg, bind_ok.
  assert (Hgoals : goals = reverse (drop (h + r) gs) ++ reverse (take r (drop h gs))
                           ++ reverse (take h gs)).
  { rewrite <- !reverse_app, <- app_assoc, <- Hsplit. unfold gs.
    by rewrite reverse_involutive. }
  rewrite Hgoals at 1. rewrite app_assoc.
  rewrite (create_players_loop (fun _ pid goal => Human (HumanPlayer_init pid goal)))
    by (by rewrite range_length).
  rewrite bind_ok.
  rewrite (create_players_loop (fun _ pid goal => Random (RandomPlayer_init pid goal)))
    by (by rewrite range_length).
  rewrite bind_ok.
  rewrite <- (app_nil_l (reverse (drop (h + r) gs))).
  rewrite (create_players_loop
             (fun difficulty pid goal => Smart (SmartPlayer_init pid goal difficulty)))
    by done.
  rewrite bind_ok. cbv beta iota. rewrite !range_length. simpl app.
  rewrite <- app_assoc. fold h r.
  replace (0 + Z.of_nat h) with num_human by (unfold h; lia).
  replace (num_human + Z.of_nat r) with (num_human + num_random) by (unfold r; lia).
  reflexivity.
Qed.

(** X7: within the palette, [create_players] returns the human players
    first, then the random players, then one smart player for each
    difficulty, in order; the ids count up from 0 in the order of the list,
    and no player has played yet (no penalty, level 0 and no pending action
    for a human, no request to proceed for a computer). *)
Theorem create_players_roster (rnd : nat -> nat) (num_human num_random : Z)
    (smart_players : list Z) :
  0 <= num_human -> 0 <= num_random ->
  num_human + num_random + Z.of_nat (length smart_players)
    <= Z.of_nat (length COLOUR_LIST) ->
  exists players,
    create_players rnd num_human num_random smart_players = Ok players /\
    player_kind <$> players
    = replicate (Z.to_nat num_human) KHuman ++ replicate (Z.to_nat num_random) KRandom
      ++ (KSmart <$> smart_players) /\
    player_id <$> players = Z.of_nat <$> seq 0 (length players) /\
    Forall unstarted players.
Proof.
  intros Hh Hr Hn.
  destruct (create_players_Ok rnd num_human num_random smart_players Hh Hr Hn)
    as (colours & goals & gs1 & gs2 & gs3 & _ & _ & _ & H1 & H2 & H3 & ->).
  eexists. split; [reflexivity|]. split_and!.
  - rewrite !fmap_app.
    rewrite (roster_kind _ (fun _ => KHuman)) by (by rewrite ?range_length).
    rewrite (roster_kind _ (fun _ => KRandom)) by (by rewrite ?range_length).
    rewrite (roster_kind _ KSmart) by done.
    f_equal; [|f_equal].
    + unfold range. generalize (Z.to_nat num_human) 0%nat.
      induction n as [|n IH]; intros k; simpl; [done|]. by rewrite IH.
    + unfold range. generalize (Z.to_nat num_random) 0%nat.
      induction n as [|n IH]; intros k; simpl; [done|]. by rewrite IH.
  - rewrite !length_app, !roster_length by (by rewrite ?range_length).
    rewrite !range_length, !seq_app, !fmap_app. simpl.
    change 0 with (Z.of_nat 0).
    replace num_human with (Z.of_nat (Z.to_nat num_human)) at 2 by lia.
    replace (num_human + num_random)
      with (Z.of_nat (Z.to_nat num_human + Z.to_nat num_random)) by lia.
    rewrite !roster_id by (by rewrite ?range_length).
    by rewrite !range_length.
  - rewrite !Forall_app. split_and!; by apply roster_unstarted.
Qed.

Lemma create_players_roster_witness :
  exists players,
    create_players (fun k => (3 * k + 1)%nat) 1 1 [6] = Ok players /\
    player_kind <$> players
    = replicate (Z.to_nat 1) KHuman ++ replicate (Z.to_nat 1) KRandom
      ++ (KSmart <$> [6]) /\
    player_id <$> players = Z.of_nat <$> seq 0 (length players) /\
    Forall unstarted players.
Proof.
  apply (create_players_roster (fun k => (3 * k + 1)%nat) 1 1 [6]); simpl; lia.
Defined.

(** X8: the players receive the goals of [generate_goals] from the last to
    the first (each player is handed [goals.pop()]); within the palette no
    two players have goals of the same colour, and every player's goal has a
    description. *)
Theorem create_players_goals (rnd : nat -> nat) (num_human num_random : Z)
    (smart_players : list Z) :
  0 <= num_human -> 0 <= num_random ->
  num_human + num_random + Z.of_nat (length smart_players)
    <= Z.of_nat (length COLOUR_LIST) ->
  exists goals players,
    generate_goals rnd
      (Z.to_nat (num_human + num_random + Z.of_nat (length smart_players))) = Ok goals /\
    create_players rnd num_human num_random smart_players = Ok players /\
    player_goal <$> players = reverse goals /\
    NoDup ((fun p => target (player_goal p)) <$> players) /\
    Forall (fun p => exists s, description (player_goal p) = Ok s) players.
Proof.
  intros Hh Hr Hn.
  destruct (create_players_Ok rnd num_human num_random smart_players Hh Hr Hn)
    as (colours & goals & gs1 & gs2 & gs3 & Hg & Hinv & Hrev & H1 & H2 & H3 & ->).
  eexists goals, _. split; [done|]. split; [reflexivity|].
  assert (Hgoal : player_goal <$>
            (roster (fun _ pid goal => Human (HumanPlayer_init pid goal))
               (range (Z.to_nat num_human)) 0 gs1
             ++ roster (fun _ pid goal => Random (RandomPlayer_init pid goal))
                  (range (Z.to_nat num_random)) num_human gs2
             ++ roster (fun difficulty pid goal =>
                          Smart (SmartPlayer_init pid goal difficulty))
                  smart_players (num_human + num_random) gs3)
          = reverse goals).
  { rewrite !fmap_app, !roster_goal by (by rewrite ?range_length). by rewrite Hrev. }
  destruct Hinv as (Hnd & _ & _ & Hsub); cbn [fst snd] in Hnd, Hsub.
  split_and!; [done| |].
  - rewrite (list_fmap_compose player_goal target), Hgoal, fmap_reverse.
    rewrite reverse_Permutation. by apply NoDup_app in Hnd as (_ & _ & ?).
  - apply Forall_forall. intros p Hp. apply description_palette, Hsub.
    apply elem_of_app. right. apply list_elem_of_fmap_2.
    apply elem_of_reverse. rewrite <- Hgoal. by apply list_elem_of_fmap_2.
Qed.

Lemma create_players_goals_witness :
  exists goals players,
    generate_goals (fun k => (3 * k + 1)%nat)
      (Z.to_nat (1 + 1 + Z.of_nat (length [6]))) = Ok goals /\
    create_players (fun k => (3 * k + 1)%nat) 1 1 [6] = Ok players /\
    player_goal <$> players = reverse goals /\
    NoDup ((fun p => target (player_goal p)) <$> players) /\
    Forall (fun p => exists s, description (player_goal p) = Ok s) players.
Proof.
  apply (create_players_goals (fun k => (3 * k + 1)%nat) 1 1 [6]); simpl; lia.
Defined.

(** X9: a game of more players than the palette has colours cannot be set
    up: [create_players] raises [IndexError] (from [generate_goals]) before
    any player is created, whatever the random draws. *)
Theorem create_players_too_many (rnd : nat -> nat) (num_human num_random : Z)
    (smart_players : list Z) :
  Z.of_nat (length COLOUR_LIST)
    < num_human + num_random + Z.of_nat (length smart_players) ->
  create_players rnd num_human num_random smart_players = Raise IndexError.
Proof.
  intros Hn. unfold create_players.
  rewrite generate_goals_too_many; [done|]. lia.
Qed.

Lemma create_players_too_many_witness :
  create_players (fun k => k) 2 1 [3; 4] = Raise IndexError.
Proof.
  apply (create_players_too_many (fun k => k) 2 1 [3; 4]). simpl. lia.
Defined.

(** * player.py: the draws of the computer players *)

Section Draw.

Variable apply_node : Action -> Block -> Colour -> bool * Block.
Variable apply_none : Action -> Colour -> result bool.
Variable frames : nat.

Lemma M_bind_Ok {A B : Type} (m : M A) (k : A -> M B) (s s1 : Store) (a : A) :
  m s = (s1, Ok a) -> (m ≫= k) s = k a s1.
Proof. intros H. unfold mbind, M_bind. by rewrite H. Qed.

(** A draw on the store comes to [draw_result] on the tree of the board; it
    adds the copy to the store and changes no other object. *)
Lemma draw_result_spec (rnd : nat -> nat) (k : nat) (colour : Colour) (board : nat)
    (s : Store) (b : Block) :
  s !! board = Some b ->
  exists copy,
    draw apply_node apply_none rnd k colour board s
    = (<[fresh (dom s) := copy]> s,
       match draw_result apply_node apply_none rnd k colour b with
       | Ok (a, p, ok) => Ok (a, (fun p => (board, p)) <$> p, fresh (dom s), ok)
       | Raise e => Raise e
       | OutOfFuel => OutOfFuel
       end) /\
    match draw_result apply_node apply_none rnd k colour b with
    | Ok (a, p, _) => copy = draw_copy apply_node a p colour b
    | _ => copy = b
    end.
Proof.
  intros Hb. set (nb := fresh (dom s)). set (s1 := <[nb := b]> s).
  assert (Hnew : s1 !! nb = Some b) by apply lookup_insert_eq.
  assert (Hne : board <> nb).
  { intros ->. pose proof (is_fresh (dom s)) as Hf.
    apply Hf, elem_of_dom. eauto. }
  assert (Hold : s1 !! board = Some b) by (unfold s1; by rewrite lookup_insert_ne).
  assert (Hs1 : <[nb := b]> s = s1) by done.
  assert (Hfail : forall r : result (Action * option Ref * nat * bool),
            match r with Ok _ => False | _ => True end ->
            exists copy, (s1, r) = (<[nb := copy]> s, r) /\ copy = b)
    by (intros; by exists b).
  unfold draw, draw_result, sample.
  rewrite (M_bind_Ok _ _ s s1 nb) by (unfold create_copy; by rewrite Hb).
  destruct (choice moves (rnd (4 * k)%nat)) as [a|e|] eqn:Ha; [|exists b; split; [reflexivity|cbn; reflexivity]..].
  rewrite (M_bind_Ok _ _ s1 s1 a) by done.
  rewrite (M_bind_Ok _ _ s1 s1 b) by (unfold load; by rewrite Hnew).
  rewrite (M_bind_Ok _ _ s1 s1 b) by (unfold load; by rewrite Hold).
  rewrite bind_ok.
  destruct (randint (position b).1 _ _) as [x|e|] eqn:Hx; [|exists b; split; [reflexivity|cbn; reflexivity]..].
  rewrite (M_bind_Ok _ _ s1 s1 x) by done. rewrite bind_ok.
  destruct (randint (position b).2 _ _) as [y|e|] eqn:Hy; [|exists b; split; [reflexivity|cbn; reflexivity]..].
  rewrite (M_bind_Ok _ _ s1 s1 y) by done. rewrite bind_ok.
  destruct (randint (level b) _ _) as [lv|e|] eqn:Hlv; [|exists b; split; [reflexivity|cbn; reflexivity]..].
  rewrite (M_bind_Ok _ _ s1 s1 lv) by done. rewrite !bind_ok. cbv beta iota.
  rewrite (M_bind_Ok _ _ s1 s1 ((fun p => (board, p)) <$> locate b (x, y) lv))
    by (unfold _get_block_ref; by rewrite (M_bind_Ok _ _ s1 s1 b)
          by (unfold load; by rewrite Hold)).
  rewrite (M_bind_Ok _ _ s1 s1 ((fun p => (nb, p)) <$> locate b (x, y) lv))
    by (unfold _get_block_ref; by rewrite (M_bind_Ok _ _ s1 s1 b)
          by (unfold load; by rewrite Hnew)).
  destruct (locate b (x, y) lv) as [p|]; cbn [fmap option_fmap option_map].
  - unfold mbind at 1. unfold M_bind, Action_apply. rewrite Hnew.
    destruct (subblock b p) as [d|] eqn:Hsub; [|exists b; split; [reflexivity|cbn; reflexivity]].
    destruct (apply_node a d colour) as [ok d'] eqn:Hap.
    exists (replace_at b p d'). unfold s1. rewrite insert_insert_eq.
    split; [reflexivity|]. cbn [draw_copy]. by rewrite Hsub, Hap.
  - unfold mbind at 1. unfold M_bind, Action_apply.
    destruct (apply_none a colour) as [ok|e|]; exists b; split; reflexivity.
Qed.

(** ** What a draw samples *)

Lemma choice_Ok {A : Type} (l : list A) (r : nat) (a : A) :
  choice l r = Ok a -> a ∈ l.
Proof.
  unfold choice. destruct (l !! _) as [a'|] eqn:Hl; [|discriminate].
  intros [= <-]. by eapply list_elem_of_lookup_2.
Qed.

Lemma moves_not_PASS (a : Action) : a ∈ moves -> a <> PASS.
Proof.
  unfold moves. rewrite !elem_of_cons, elem_of_nil. intros H ->.
  repeat (destruct H as [H|H]; [discriminate|]). done.
Qed.

Lemma sample_Ok (rnd : nat -> nat) (k : nat) (b : Block) (a : Action) (x y lv : Z) :
  sample rnd k b = Ok (a, x, y, lv) ->
  a ∈ moves /\ (position b).1 <= x <= size b - 1 /\
  (position b).2 <= y <= size b - 1 /\ level b <= lv <= max_depth b.
Proof.
  unfold sample. intros H.
  apply bind_Ok in H as (a' & Ha & H). apply bind_Ok in H as (x' & Hx & H).
  apply bind_Ok in H as (y' & Hy & H). apply bind_Ok in H as (lv' & Hlv & H).
  injection H as -> -> -> ->.
  split; [by eapply choice_Ok|]. split; [by eapply randint_Ok|].
  split; by eapply randint_Ok.
Qed.

(** On a board of sound geometry placed at the origin every draw samples a
    location of the board and a level of its range. *)
Lemma sample_at_origin (rnd : nat -> nat) (k : nat) (b : Block) :
  wf_board b = true -> position b = (0, 0) ->
  exists a x y lv,
    sample rnd k b = Ok (a, x, y, lv) /\ a ∈ moves /\
    contains b (x, y) = true /\ level b <= lv <= max_depth b.
Proof.
  intros Hwf Hpos. destruct (wf_board_inv b Hwf) as (Hle & Hsz & _).
  destruct (choice_elem moves (rnd (4 * k)%nat)) as (a & Ha & Hin); [done|].
  destruct (randint_range (position b).1 (size b - 1) (rnd (4 * k + 1)%nat))
    as (x & Hx & Hxr); [rewrite Hpos; simpl; lia|].
  destruct (randint_range (position b).2 (size b - 1) (rnd (4 * k + 2)%nat))
    as (y & Hy & Hyr); [rewrite Hpos; simpl; lia|].
  destruct (randint_range (level b) (max_depth b) (rnd (4 * k + 3)%nat))
    as (lv & Hlv & Hlvr); [lia|].
  exists a, x, y, lv. unfold sample. rewrite Ha, bind_ok, Hx, bind_ok, Hy, bind_ok, Hlv.
  split; [done|]. split; [done|]. split; [|lia].
  apply contains_spec. rewrite Hpos in *. simpl in *. lia.
Qed.

Lemma draw_result_at_origin (rnd : nat -> nat) (k : nat) (colour : Colour) (b : Block) :
  wf_board b = true -> position b = (0, 0) ->
  exists a x y lv p d,
    sample rnd k b = Ok (a, x, y, lv) /\ a ∈ moves /\
    contains b (x, y) = true /\ level b <= lv <= max_depth b /\
    _get_block b (x, y) lv = Some d /\ subblock b p = Some d /\
    draw_result apply_node apply_none rnd k colour b
    = Ok (a, Some p, (apply_node a d colour).1).
Proof.
  intros Hwf Hpos.
  destruct (sample_at_origin rnd k b Hwf Hpos) as (a & x & y & lv & Hs & Ha & Hin & Hlv).
  destruct (_get_block_sound b (x, y) lv Hwf Hlv) as (Hnone & _).
  pose proof (locate_get_block b (x, y) lv) as Hloc.
  destruct (locate b (x, y) lv) as [p|] eqn:Hp.
  - destruct Hloc as (d & Hsub & Hd). exists a, x, y, lv, p, d.
    split_and!; try done; try lia. unfold draw_result. rewrite Hs, bind_ok.
    cbv beta iota. by rewrite Hp, Hsub.
  - apply Hnone in Hloc. congruence.
Qed.

(** ** The loop of the random player *)

Lemma RandomPlayer_loop_step (fuel : nat) (rnd : nat -> nat) (k : nat)
    (self : ComputerPlayer) (board : nat) (s : Store) (b : Block) :
  s !! board = Some b ->
  exists s1,
    s1 !! board = Some b /\ base.size s1 = S (base.size s) /\
    RandomPlayer_loop apply_node apply_none (S fuel) rnd k self board s
    = match draw_result apply_node apply_none rnd k (target (c_goal self)) b with
      | Ok (a, p, true) =>
        (s1, Ok (Some (a, (fun p => (board, p)) <$> p), set_proceed self false))
      | Ok (_, _, false) =>
        RandomPlayer_loop apply_node apply_none fuel rnd (S k) self board s1
      | Raise e => (s1, Raise e)
      | OutOfFuel => (s1, OutOfFuel)
      end.
Proof.
  intros Hb.
  destruct (draw_result_spec rnd k (target (c_goal self)) board s b Hb)
    as (copy & Hd & _).
  exists (<[fresh (dom s) := copy]> s).
  assert (Hfresh : s !! fresh (dom s) = None) by apply not_elem_of_dom, is_fresh.
  split_and!.
  - rewrite lookup_insert_ne; [done|]. intros Heq. rewrite Heq in Hfresh. congruence.
  - by rewrite map_size_insert_None.
  - cbn [RandomPlayer_loop]. unfold mbind at 1. unfold M_bind. rewrite Hd.
    destruct (draw_result _ _ _ _ _ _) as [[[a p] [|]]|e|]; reflexivity.
Qed.

(** A move that the loop returns is the first draw that applies. *)
Lemma RandomPlayer_loop_Ok (fuel : nat) (rnd : nat -> nat) (self : ComputerPlayer)
    (board : nat) (b : Block) :
  forall (k : nat) (s s' : Store) (m : option Move) (self' : ComputerPlayer),
    s !! board = Some b ->
    RandomPlayer_loop apply_node apply_none fuel rnd k self board s
      = (s', Ok (m, self')) ->
    exists j a p,
      (k <= j < k + fuel)%nat /\
      draw_result apply_node apply_none rnd j (target (c_goal self)) b = Ok (a, p, true) /\
      (forall i, (k <= i < j)%nat ->
         exists a' p', draw_result apply_node apply_none rnd i (target (c_goal self)) b
                       = Ok (a', p', false)) /\
      m = Some (a, (fun p => (board, p)) <$> p) /\ self' = set_proceed self false /\
      s' !! board = Some b /\ base.size s' = (base.size s + S (j - k))%nat.
Proof.
  induction fuel as [|fuel IH]; intros k s s' m self' Hb; [discriminate|].
  destruct (RandomPlayer_loop_step fuel rnd k self board s b Hb) as (s1 & Hb1 & Hsz & ->).
  destruct (draw_result _ _ _ k _ _) as [[[a p] [|]]|e|] eqn:Hd; try discriminate.
  - intros [= <- <- <-]. exists k, a, p. split_and!; try done; lia.
  - intros Hloop.
    destruct (IH (S k) s1 s' m self' Hb1 Hloop)
      as (j & a' & p' & Hj & Hdj & Hfirst & -> & -> & Hb' & Hsz').
    exists j, a', p'. split_and!; try done; try lia.
    intros i Hi. destruct (decide (i = k)) as [->|Hne]; [eauto|].
    apply Hfirst. lia.
Qed.

(** The loop returns the first draw that applies, if the budget reaches it. *)
Lemma RandomPlayer_loop_first (rnd : nat -> nat) (self : ComputerPlayer)
    (board : nat) (b : Block) (j : nat) (a : Action) (p : option (list nat)) :
  draw_result apply_node apply_none rnd j (target (c_goal self)) b = Ok (a, p, true) ->
  forall (fuel k : nat) (s : Store),
    (k <= j < k + fuel)%nat ->
    (forall i, (k <= i < j)%nat ->
       exists a' p', draw_result apply_node apply_none rnd i (target (c_goal self)) b
                     = Ok (a', p', false)) ->
    s !! board = Some b ->
    exists s',
      RandomPlayer_loop apply_node apply_none fuel rnd k self board s
      = (s', Ok (Some (a, (fun p => (board, p)) <$> p), set_proceed self false)) /\
      s' !! board = Some b /\ base.size s' = (base.size s + S (j - k))%nat.
Proof.
  intros Hj. induction fuel as [|fuel IH]; intros k s Hk Hfirst Hb; [lia|].
  destruct (RandomPlayer_loop_step fuel rnd k self board s b Hb) as (s1 & Hb1 & Hsz & ->).
  destruct (decide (k = j)) as [->|Hne].
  - rewrite Hj. exists s1. split_and!; [done..|]. rewrite Hsz. lia.
  - destruct (Hfirst k) as (a' & p' & ->); [lia|].
    destruct (IH (S k) s1) as (s' & -> & Hb' & Hsz'); [lia| |done|].
    + intros i Hi. apply Hfirst. lia.
    + exists s'. split_and!; [done..|]. rewrite Hsz', Hsz. lia.
Qed.

(** ** The trials of the smart player *)

Lemma SmartPlayer_trial_spec (rnd : nat -> nat) (self : ComputerPlayer)
    (board k : nat) (total : list Trial) (s : Store) (b : Block) :
  s !! board = Some b ->
  exists s1,
    s1 !! board = Some b /\
    SmartPlayer_trial apply_node apply_none frames rnd self board k total s
    = (s1, trial_step apply_node apply_none frames rnd (c_goal self) board b k total).
Proof.
  intros Hb.
  destruct (draw_result_spec rnd k (target (c_goal self)) board s b Hb)
    as (copy & Hd & Hcopy).
  exists (<[fresh (dom s) := copy]> s).
  assert (Hfresh : s !! fresh (dom s) = None) by apply not_elem_of_dom, is_fresh.
  split.
  - rewrite lookup_insert_ne; [done|]. intros Heq. rewrite Heq in Hfresh. congruence.
  - unfold SmartPlayer_trial, trial_step. unfold mbind at 1. unfold M_bind. rewrite Hd.
    destruct (draw_result _ _ _ _ _ _) as [[[a p] [|]]|e|]; try reflexivity.
    rewrite bind_ok. cbv beta iota.
    rewrite (M_bind_Ok _ _ _ (<[fresh (dom s) := copy]> s) copy)
      by (unfold load; by rewrite lookup_insert_eq).
    subst copy. unfold mbind at 1. unfold M_bind, lift.
    by destruct (score _ _ _).
Qed.

Lemma SmartPlayer_trials_spec (rnd : nat -> nat) (self : ComputerPlayer)
    (board : nat) (b : Block) (l : list nat) :
  forall (total : list Trial) (s : Store),
    s !! board = Some b ->
    exists s',
      s' !! board = Some b /\
      for_eachM l (SmartPlayer_trial apply_node apply_none frames rnd self board) total s
      = (s', for_each l (trial_step apply_node apply_none frames rnd (c_goal self) board b)
               total).
Proof.
  induction l as [|k l IH]; intros total s Hb; [by exists s|].
  destruct (SmartPlayer_trial_spec rnd self board k total s b Hb) as (s1 & Hb1 & Ht).
  cbn [for_eachM for_each]. unfold mbind at 1. unfold M_bind. rewrite Ht.
  destruct (trial_step _ _ _ _ _ _ _ k total) as [total1|e|]; [|by exists s1..].
  rewrite bind_ok. by apply IH.
Qed.

End Draw.

(** X10: on a board of sound geometry placed at the origin, the case the
    game constructs, a draw never fails: the sampled location lies on the
    board and the sampled level in its range, [_get_block] finds a node on the
    real board, the node at the same place of the copy is the one handed to
    [apply], and only the copy is written. *)
Theorem draw_at_origin
    (apply_node : Action -> Block -> Colour -> bool * Block)
    (apply_none : Action -> Colour -> result bool)
    (rnd : nat -> nat) (k : nat) (colour : Colour) (board : nat)
    (s : Store) (b : Block) :
  s !! board = Some b -> wf_board b = true -> position b = (0, 0) ->
  exists a x y lv p d,
    a ∈ moves /\ 0 <= x < size b /\ 0 <= y < size b /\
    level b <= lv <= max_depth b /\
    _get_block b (x, y) lv = Some d /\ subblock b p = Some d /\
    draw apply_node apply_none rnd k colour board s
    = (<[fresh (dom s) := replace_at b p (apply_node a d colour).2]> s,
       Ok (a, Some (board, p), fresh (dom s), (apply_node a d colour).1)).
Proof.
  intros Hb Hwf Hpos.
  destruct (draw_result_at_origin apply_node apply_none rnd k colour b Hwf Hpos)
    as (a & x & y & lv & p & d & _ & Ha & Hin & Hlv & Hd & Hsub & Hres).
  destruct (draw_result_spec apply_node apply_none rnd k colour board s b Hb)
    as (copy & Hdraw & Hcopy).
  rewrite Hres in Hdraw, Hcopy. cbn [draw_copy] in Hcopy. rewrite Hsub in Hcopy.
  subst copy. exists a, x, y, lv, p, d.
  apply contains_spec in Hin. rewrite Hpos in Hin. simpl in Hin.
  split_and!; try done; lia.
Qed.

Lemma draw_at_origin_witness :
  exists a x y lv p d,
    a ∈ moves /\ 0 <= x < size sample_board /\ 0 <= y < size sample_board /\
    level sample_board <= lv <= max_depth sample_board /\
    _get_block sample_board (x, y) lv = Some d /\ subblock sample_board p = Some d /\
    draw sample_apply_node sample_apply_none sample_rnd 0 REAL_RED 0%nat sample_store
    = (<[fresh (dom sample_store)
         := replace_at sample_board p (sample_apply_node a d REAL_RED).2]> sample_store,
       Ok (a, Some (0%nat, p), fresh (dom sample_store),
           (sample_apply_node a d REAL_RED).1)).
Proof.
  apply (draw_at_origin sample_apply_node sample_apply_none sample_rnd 0 REAL_RED
           0%nat sample_store sample_board); reflexivity.
Defined.

(** X11: a move that [RandomPlayer.generate_move] returns is valid: its
    action is one of the seven moves, never PASS, it comes from a draw on
    which [apply] reported success, every earlier draw of the call having
    failed, and the player is left waiting; each draw made one copy and the
    real board is as it was.  On a board of sound geometry placed at the
    origin the target is a node of the real board. *)
Theorem RandomPlayer_generate_move_valid
    (apply_node : Action -> Block -> Colour -> bool * Block)
    (apply_none : Action -> Colour -> result bool)
    (fuel : nat) (rnd : nat -> nat) (self : ComputerPlayer) (board : nat)
    (s s' : Store) (b : Block) (m : option Move) (self' : ComputerPlayer) :
  _proceed self = true -> s !! board = Some b ->
  RandomPlayer_generate_move apply_node apply_none fuel rnd self board s
    = (s', Ok (m, self')) ->
  exists j a p,
    m = Some (a, (fun p => (board, p)) <$> p) /\ a ∈ moves /\ a <> PASS /\
    self' = set_proceed self false /\
    draw_result apply_node apply_none rnd j (target (c_goal self)) b = Ok (a, p, true) /\
    (forall i, (i < j)%nat ->
       exists a' p', draw_result apply_node apply_none rnd i (target (c_goal self)) b
                     = Ok (a', p', false)) /\
    s' !! board = Some b /\ base.size s' = (base.size s + S j)%nat /\
    (wf_board b = true -> position b = (0, 0) ->
     exists q d, p = Some q /\ subblock b q = Some d /\ in_board d b /\
                 (apply_node a d (target (c_goal self))).1 = true).
Proof.
  intros Hp Hb. unfold RandomPlayer_generate_move. rewrite Hp. intros Hloop.
  destruct (RandomPlayer_loop_Ok apply_node apply_none fuel rnd self board b
              0%nat s s' m self' Hb Hloop)
    as (j & a & p & Hj & Hd & Hfirst & -> & -> & Hb' & Hsz).
  assert (Ha : a ∈ moves).
  { unfold draw_result in Hd. apply bind_Ok in Hd as ([[[a0 x] y] lv] & Hs & Hd).
    apply sample_Ok in Hs as (Ha & _).
    destruct (locate b (x, y) lv); [destruct (subblock b l)|]; simplify_eq; [done|].
    by apply bind_Ok in Hd as (ok & _ & [= <- _ _]). }
  exists j, a, p. split_and!; try done.
  - by apply moves_not_PASS.
  - intros i Hi. apply Hfirst. lia.
  - rewrite Hsz. lia.
  - intros Hwf Hpos.
    destruct (draw_result_at_origin apply_node apply_none rnd j (target (c_goal self)) b
                Hwf Hpos)
      as (a0 & x & y & lv & q & d & _ & _ & _ & _ & Hget & Hsub & Hres).
    rewrite Hres in Hd. injection Hd as -> <- Hok.
    exists q, d. split_and!; try done.
    by destruct (_get_block_Some b (x, y) lv d Hget).
Qed.

Lemma RandomPlayer_generate_move_valid_witness :
  exists a p,
    a ∈ moves /\ a <> PASS /\
    RandomPlayer_generate_move sample_apply_node sample_apply_none 3 sample_rnd
      (sample_smart 2) 0%nat sample_store
    = ((RandomPlayer_generate_move sample_apply_node sample_apply_none 3 sample_rnd
          (sample_smart 2) 0%nat sample_store).1,
       Ok (Some (a, (fun p => (0%nat, p)) <$> p), set_proceed (sample_smart 2) false)).
Proof.
  destruct (RandomPlayer_generate_move_valid sample_apply_node sample_apply_none 3
              sample_rnd (sample_smart 2) 0%nat sample_store
              (RandomPlayer_generate_move sample_apply_node sample_apply_none 3
                 sample_rnd (sample_smart 2) 0%nat sample_store).1
              sample_board (Some (PAINT, Some (0%nat, [1%nat])))
              (set_proceed (sample_smart 2) false))
    as (j & a & p & Hm & Ha & Hne & _); [reflexivity|reflexivity|by vm_compute|].
  exists a, p. split; [done|]. split; [done|]. rewrite <- Hm. by vm_compute.
Defined.

(** X12: [RandomPlayer.generate_move] returns the first draw on which
    [apply] reports success: if draw number [j] applies, every earlier draw
    fails and the iteration budget exceeds [j], the call returns the move of
    draw [j], leaves the player waiting, has made [j + 1] copies and has left
    the real board as it was. *)
Theorem RandomPlayer_generate_move_first
    (apply_node : Action -> Block -> Colour -> bool * Block)
    (apply_none : Action -> Colour -> result bool)
    (fuel : nat) (rnd : nat -> nat) (self : ComputerPlayer) (board : nat)
    (s : Store) (b : Block) (j : nat) (a : Action) (p : option (list nat)) :
  _proceed self = true -> s !! board = Some b -> (j < fuel)%nat ->
  draw_result apply_node apply_none rnd j (target (c_goal self)) b = Ok (a, p, true) ->
  (forall i, (i < j)%nat ->
     exists a' p', draw_result apply_node apply_none rnd i (target (c_goal self)) b
                   = Ok (a', p', false)) ->
  exists s',
    RandomPlayer_generate_move apply_node apply_none fuel rnd self board s
    = (s', Ok (Some (a, (fun p => (board, p)) <$> p), set_proceed self false)) /\
    s' !! board = Some b /\ base.size s' = (base.size s + S j)%nat.
Proof.
  intros Hp Hb Hj Hd Hfirst. unfold RandomPlayer_generate_move. rewrite Hp.
  destruct (RandomPlayer_loop_first apply_node apply_none rnd self board b j a p Hd
              fuel 0%nat s) as (s' & Hloop & Hb' & Hsz); [lia| |done|].
  - intros i Hi. apply Hfirst. lia.
  - exists s'. split_and!; [done..|]. rewrite Hsz. lia.
Qed.

Lemma RandomPlayer_generate_move_first_witness :
  exists s',
    RandomPlayer_generate_move sample_apply_node sample_apply_none 2
      (fun i => nth i [0; 0; 0; 0; 5; 0; 0; 1]%nat 0%nat) (sample_smart 2) 0%nat
      sample_store
    = (s', Ok (Some (PAINT, Some (0%nat, [1%nat])), set_proceed (sample_smart 2) false)) /\
    s' !! 0%nat = Some sample_board /\
    base.size s' = (base.size sample_store + 2)%nat.
Proof.
  apply (RandomPlayer_generate_move_first sample_apply_node sample_apply_none 2
           (fun i => nth i [0; 0; 0; 0; 5; 0; 0; 1]%nat 0%nat) (sample_smart 2) 0%nat
           sample_store sample_board 1 PAINT (Some [1%nat])).
  - reflexivity.
  - reflexivity.
  - lia.
  - reflexivity.
  - intros [|i] Hi; [|lia]. exists ROTATE_CLOCKWISE, (Some []). reflexivity.
Defined.

(** X25: the outcome of a draw depends on the tree of the real board and on
    the random draws only, not on what else the store holds: the action, the
    place of the located node and the report of [apply] are those of
    [draw_result] on the tree, the new object is the copy, holding the tree
    with the located node handed to [apply], and no other object changes. *)
Theorem draw_depends_on_board_only
    (apply_node : Action -> Block -> Colour -> bool * Block)
    (apply_none : Action -> Colour -> result bool)
    (rnd : nat -> nat) (k : nat) (colour : Colour) (board : nat)
    (s : Store) (b : Block) :
  s !! board = Some b ->
  s !! fresh (dom s) = None /\
  exists copy,
    draw apply_node apply_none rnd k colour board s
    = (<[fresh (dom s) := copy]> s,
       match draw_result apply_node apply_none rnd k colour b with
       | Ok (a, p, ok) => Ok (a, (fun p => (board, p)) <$> p, fresh (dom s), ok)
       | Raise e => Raise e
       | OutOfFuel => OutOfFuel
       end) /\
    copy = match draw_result apply_node apply_none rnd k colour b with
           | Ok (a, p, _) => draw_copy apply_node a p colour b
           | _ => b
           end.
Proof.
  intros Hb. split; [apply not_elem_of_dom, is_fresh|].
  destruct (draw_result_spec apply_node apply_none rnd k colour board s b Hb)
    as (copy & Hd & Hcopy).
  exists copy. split; [done|].
  by destruct (draw_result _ _ _ _ _ _) as [[[a p] ok]|e|].
Qed.

Lemma draw_depends_on_board_only_witness :
  draw sample_apply_node sample_apply_none sample_rnd 0 REAL_RED 0%nat sample_store
  = (<[fresh (dom sample_store)
       := draw_copy sample_apply_node PAINT (Some [1%nat]) REAL_RED sample_board]>
       sample_store,
     Ok (PAINT, Some (0%nat, [1%nat]), fresh (dom sample_store), true)).
Proof.
  destruct (draw_depends_on_board_only sample_apply_node sample_apply_none sample_rnd
              0 REAL_RED 0%nat sample_store sample_board eq_refl)
    as (_ & copy & -> & ->).
  reflexivity.
Defined.

(** * player.py: events and turns *)

Lemma best_of_improves (penalty : Action -> Z) (total : list Trial)
    (best_score bs : Z) (best_move bm : option Move) :
  best_of penalty total best_score best_move = (bs, bm) ->
  best_score < bs -> is_Some bm.
Proof.
  intros Hbest Hlt.
  destruct (decide (Exists (fun t => best_score < net penalty t) total)) as [Hex|Hnone].
  - rewrite Exists_exists in Hex.
    destruct (best_of_some penalty total best_score best_move Hex)
      as (i & t & _ & Hbest' & _).
    rewrite Hbest' in Hbest. injection Hbest as _ <-. eauto.
  - rewrite best_of_none in Hbest; [injection Hbest as ? ?; lia|].
    intros t Ht. destruct (Z.le_gt_cases (net penalty t) best_score); [done|].
    exfalso. apply Hnone, Exists_exists. eauto.
Qed.

Section Turns.

Variable penalty : Action -> Z.
Variable apply_node : Action -> Block -> Colour -> bool * Block.
Variable apply_none : Action -> Colour -> result bool.
Variable frames : nat.

Lemma RandomPlayer_generate_move_Ok (fuel : nat) (rnd : nat -> nat)
    (self : ComputerPlayer) (board : nat) (s s' : Store) (m : option Move)
    (self' : ComputerPlayer) :
  _proceed self = true ->
  RandomPlayer_generate_move apply_node apply_none fuel rnd self board s
    = (s', Ok (m, self')) ->
  is_Some m /\ self' = set_proceed self false.
Proof.
  intros Hp. unfold RandomPlayer_generate_move. rewrite Hp. intros Hloop.
  destruct (s !! board) as [b|] eqn:Hb.
  - destruct (RandomPlayer_loop_Ok apply_node apply_none fuel rnd self board b
                0%nat s s' m self' Hb Hloop) as (j & a & p & _ & _ & _ & -> & -> & _).
    eauto.
  - exfalso. destruct fuel as [|fuel]; [discriminate|].
    cbn [RandomPlayer_loop] in Hloop. unfold mbind at 1 in Hloop. unfold M_bind in Hloop.
    destruct (draw apply_node apply_none rnd 0 (target (c_goal self)) board s)
      as [s1 r1] eqn:Hd.
    apply draw_store in Hd as [(_ & _ & ->)|(b & _ & Hb' & _)]; [discriminate|congruence].
Qed.

Lemma SmartPlayer_generate_move_Ok (rnd : nat -> nat)
    (self : ComputerPlayer) (board : nat) (s s' : Store) (m : option Move)
    (self' : ComputerPlayer) :
  _proceed self = true ->
  SmartPlayer_generate_move penalty apply_node apply_none frames rnd self board s
    = (s', Ok (m, self')) ->
  is_Some m /\ self' = set_proceed self false.
Proof.
  intros Hp. unfold SmartPlayer_generate_move. rewrite Hp.
  unfold mbind at 1. unfold M_bind at 1.
  destruct (for_eachM _ _ _ s) as [s1 [total| |]]; try discriminate.
  unfold mbind at 1. unfold M_bind at 1. unfold load at 1.
  destruct (s1 !! board) as [b|] eqn:Hb1; try discriminate.
  unfold mbind at 1. unfold M_bind at 1. unfold lift at 1.
  destruct (score frames (c_goal self) b) as [baseline| |] eqn:Hsc; try discriminate.
  destruct (best_of penalty total baseline None) as [bs bm] eqn:Hbest.
  unfold mbind at 1. unfold M_bind at 1. unfold load. rewrite Hb1.
  unfold mbind at 1. unfold M_bind at 1. unfold lift. cbn [c_goal set_proceed].
  rewrite Hsc.
  destruct (Z.leb_spec bs baseline); unfold mret, M_ret; intros [= <- <- <-].
  - eauto.
  - split; [|done]. by eapply best_of_improves.
Qed.

End Turns.

(** X13: the trials of a [SmartPlayer] are independent of each other: every
    trial starts from a fresh copy of the real board, so the list of recorded
    trials, or the exception that ends the loop, is a function of the tree of
    the real board and of the random draws alone ([trial_step] reads no
    store), and the real board is as it was after the loop. *)
Theorem SmartPlayer_trials_independent
    (apply_node : Action -> Block -> Colour -> bool * Block)
    (apply_none : Action -> Colour -> result bool) (frames : nat)
    (rnd : nat -> nat) (self : ComputerPlayer) (board : nat) (s : Store) (b : Block)
    (n : nat) :
  s !! board = Some b ->
  exists s',
    s' !! board = Some b /\
    for_eachM (range n)
      (SmartPlayer_trial apply_node apply_none frames rnd self board) [] s
    = (s', for_each (range n)
             (trial_step apply_node apply_none frames rnd (c_goal self) board b) []).
Proof. apply SmartPlayer_trials_spec. Qed.

Lemma SmartPlayer_trials_independent_witness :
  exists s',
    s' !! 0%nat = Some sample_board /\
    for_eachM (range 2)
      (SmartPlayer_trial sample_apply_node sample_apply_none 1000 sample_rnd
         (sample_smart 2) 0%nat) [] sample_store
    = (s', for_each (range 2)
             (trial_step sample_apply_node sample_apply_none 1000 sample_rnd
                (c_goal (sample_smart 2)) 0%nat sample_board) []).
Proof.
  apply (SmartPlayer_trials_independent sample_apply_node sample_apply_none 1000
           sample_rnd (sample_smart 2) 0%nat sample_store sample_board 2).
  reflexivity.
Defined.

(** X14: a computer player makes at most one move for each click: a left
    click sets the request to proceed and no other event changes the player;
    a player that has not been asked to proceed answers [None], makes no copy
    and stays as it is; and whenever [generate_move] of a player that has been
    asked returns, it returns a move and the request is cleared. *)
Theorem ComputerPlayer_one_move_per_click
    (penalty : Action -> Z)
    (apply_node : Action -> Block -> Colour -> bool * Block)
    (apply_none : Action -> Colour -> result bool) (frames : nat)
    (BUTTON_LEFT : Z) (fuel : nat) (rnd : nat -> nat) (self : ComputerPlayer)
    (board : nat) (s : Store) :
  let clicked := ComputerPlayer_process_event BUTTON_LEFT self (MOUSEBUTTONDOWN BUTTON_LEFT) in
  clicked = set_proceed self true /\
  (forall event, event <> MOUSEBUTTONDOWN BUTTON_LEFT ->
     ComputerPlayer_process_event BUTTON_LEFT self event = self) /\
  (_proceed self = false ->
     RandomPlayer_generate_move apply_node apply_none fuel rnd self board s
       = (s, Ok (None, self)) /\
     SmartPlayer_generate_move penalty apply_node apply_none frames rnd self board s
       = (s, Ok (None, self))) /\
  (forall s' m self',
     RandomPlayer_generate_move apply_node apply_none fuel rnd clicked board s
       = (s', Ok (m, self')) \/
     SmartPlayer_generate_move penalty apply_node apply_none frames rnd clicked board s
       = (s', Ok (m, self')) ->
     is_Some m /\ _proceed self' = false /\
     forall fuel' frames' rnd' s2,
       RandomPlayer_generate_move apply_node apply_none fuel' rnd' self' board s2
         = (s2, Ok (None, self')) /\
       SmartPlayer_generate_move penalty apply_node apply_none frames' rnd' self' board s2
         = (s2, Ok (None, self'))).
Proof.
  cbv zeta. unfold ComputerPlayer_process_event. rewrite Z.eqb_refl.
  split_and!.
  - done.
  - intros [key|button|] Hne; try done.
    destruct (Z.eqb_spec button BUTTON_LEFT) as [-> | ]; [done|done].
  - intros Hp. unfold RandomPlayer_generate_move, SmartPlayer_generate_move.
    by rewrite Hp.
  - intros s' m self' Hrun.
    assert (Hres : is_Some m /\ self' = set_proceed (set_proceed self true) false).
    { destruct Hrun as [Hrun|Hrun].
      - by eapply RandomPlayer_generate_move_Ok.
      - by eapply SmartPlayer_generate_move_Ok. }
    destruct Hres as [Hm ->]. split_and!; [done|done|].
    intros fuel' frames' rnd' s2. by split.
Qed.

(** X15: the W and S keys change the level by one and cancel the pending
    action; the level may leave the range of the board (it may become
    negative), and the [generate_move] that follows selects nothing to play
    and brings the level back between 0 and the maximal depth. *)
Theorem HumanPlayer_level_keys (K_w K_s : Z) (KEY_ACTION : gmap Z Action)
    (self : HumanPlayer) (key : Z) (mouse_pos : Z * Z) (board : Block) :
  KEY_ACTION !! key = None -> key = K_w \/ key = K_s ->
  let pressed := HumanPlayer_process_event K_w K_s KEY_ACTION self (KEYUP key) in
  let '(move, self') := HumanPlayer_generate_move pressed mouse_pos board in
  _level pressed = (if decide (key = K_w) then _level self - 1 else _level self + 1) /\
  _desired_action pressed = None /\
  move = None /\ _desired_action self' = None /\
  _level self' = Z.max 0 (Z.min (_level pressed) (max_depth board)) /\
  0 <= _level self' /\
  (0 <= max_depth board -> _level self' <= max_depth board).
Proof.
  intros Hkey Hws. cbv zeta.
  assert (Hpressed :
    HumanPlayer_process_event K_w K_s KEY_ACTION self (KEYUP key)
    = mkHumanPlayer (h_id self) (h_goal self) (h_penalty self)
        (if decide (key = K_w) then _level self - 1 else _level self + 1) None).
  { unfold HumanPlayer_process_event. rewrite Hkey.
    destruct (Z.eqb_spec key K_w) as [-> | Hne].
    - by rewrite decide_True.
    - rewrite decide_False by done. destruct Hws as [? | ->]; [done|].
      by rewrite Z.eqb_refl. }
  rewrite Hpressed. unfold HumanPlayer_generate_move. cbn [_desired_action].
  destruct (get_selected_block _ _ _); cbn [_level _desired_action _correct_level
    clear_desired_action]; split_and!; try done; lia.
Qed.

Lemma HumanPlayer_level_keys_witness :
  let pressed :=
    HumanPlayer_process_event 119 115 {[ 32 := SMASH ]}
      (HumanPlayer_init 0 (mkGoal BlobGoal REAL_RED)) (KEYUP 119) in
  _level pressed = -1 /\
  (HumanPlayer_generate_move pressed (1, 1) sample_board).1 = None /\
  _level (HumanPlayer_generate_move pressed (1, 1) sample_board).2 = 0.
Proof.
  pose proof (HumanPlayer_level_keys 119 115 {[ 32 := SMASH ]}
                (HumanPlayer_init 0 (mkGoal BlobGoal REAL_RED)) 119 (1, 1) sample_board
                eq_refl (or_introl eq_refl)) as H.
  cbv zeta in *.
  destruct (HumanPlayer_generate_move _ _ _) as [move self'].
  destruct H as (Hl & _ & -> & _ & Hl' & _). cbn [fst snd].
  split; [exact Hl|]. split; [done|]. rewrite Hl', Hl. reflexivity.
Defined.

(** X16: a key of the table [KEY_ACTION] makes its action the pending one
    and leaves the level alone, a later key of the table replaces it, and the
    [generate_move] that follows returns the pending action with the block
    that [_get_block] finds under the pointer at the level of the player, or
    nothing when there is no such block; either way the action is consumed. *)
Theorem HumanPlayer_action_key (K_w K_s : Z) (KEY_ACTION : gmap Z Action)
    (self : HumanPlayer) (key : Z) (a : Action) (mouse_pos : Z * Z) (board : Block) :
  KEY_ACTION !! key = Some a ->
  let pressed := HumanPlayer_process_event K_w K_s KEY_ACTION self (KEYUP key) in
  _desired_action pressed = Some a /\ _level pressed = _level self /\
  (forall key' a', KEY_ACTION !! key' = Some a' ->
     _desired_action (HumanPlayer_process_event K_w K_s KEY_ACTION pressed (KEYUP key'))
     = Some a') /\
  (HumanPlayer_generate_move pressed mouse_pos board).1
  = (fun block => (a, block)) <$> _get_block board mouse_pos (_level self) /\
  _desired_action (HumanPlayer_generate_move pressed mouse_pos board).2 = None.
Proof.
  intros Hkey. cbv zeta.
  assert (Hpressed :
    HumanPlayer_process_event K_w K_s KEY_ACTION self (KEYUP key)
    = mkHumanPlayer (h_id self) (h_goal self) (h_penalty self) (_level self) (Some a)).
  { unfold HumanPlayer_process_event. by rewrite Hkey. }
  rewrite Hpressed. split_and!; [done|done| | |].
  - intros key' a' Hkey'. unfold HumanPlayer_process_event. by rewrite Hkey'.
  - unfold HumanPlayer_generate_move, get_selected_block. cbn [_level _desired_action].
    by destruct (_get_block board mouse_pos (_level self)).
  - unfold HumanPlayer_generate_move, get_selected_block. cbn [_level _desired_action].
    by destruct (_get_block board mouse_pos (_level self)).
Qed.

Lemma HumanPlayer_action_key_witness :
  (HumanPlayer_generate_move
     (HumanPlayer_process_event 119 115 {[ 32 := SMASH ]}
        (HumanPlayer_init 0 (mkGoal BlobGoal REAL_RED)) (KEYUP 32))
     (3, 1) sample_board).1
  = Some (SMASH, sample_board).
Proof.
  destruct (HumanPlayer_action_key 119 115 {[ 32 := SMASH ]}
              (HumanPlayer_init 0 (mkGoal BlobGoal REAL_RED)) 32 SMASH (3, 1)
              sample_board ltac:(by vm_compute)) as (_ & _ & _ & -> & _).
  reflexivity.
Defined.

(** ** A board away from the origin *)

Lemma sample_off_board (rnd : nat -> nat) (k : nat) (b : Block) :
  size b <= (position b).1 \/ size b <= (position b).2 ->
  sample rnd k b = Raise ValueError.
Proof.
  intros Hoff. unfold sample.
  destruct (choice_elem moves (rnd (4 * k)%nat)) as (a & -> & _); [done|].
  rewrite bind_ok.
  destruct (Z.le_gt_cases (size b) (position b).1) as [Hx|Hx].
  - by rewrite (randint_empty (position b).1) by lia.
  - destruct (randint_range (position b).1 (size b - 1) (rnd (4 * k + 1)%nat))
      as (x & -> & _); [lia|].
    rewrite bind_ok. by rewrite (randint_empty (position b).2) by lia.
Qed.

(** X24: the draws of the computer players assume a board at the origin: on
    a board whose position reaches its size in either axis the range of the
    coordinate is empty, so every draw raises [ValueError], and so does
    [generate_move] of a random player that has been asked to proceed and of
    a smart player of positive difficulty; the real board is as it was. *)
Theorem generate_move_off_board
    (penalty : Action -> Z)
    (apply_node : Action -> Block -> Colour -> bool * Block)
    (apply_none : Action -> Colour -> result bool) (frames : nat)
    (rnd : nat -> nat) (fuel : nat) (self : ComputerPlayer) (board : nat)
    (s : Store) (b : Block) :
  s !! board = Some b -> _proceed self = true ->
  size b <= (position b).1 \/ size b <= (position b).2 ->
  (forall k colour,
     (draw apply_node apply_none rnd k colour board s).2 = Raise ValueError) /\
  ((0 < fuel)%nat ->
   (RandomPlayer_generate_move apply_node apply_none fuel rnd self board s).2
   = Raise ValueError) /\
  (0 < _num_test self ->
   (SmartPlayer_generate_move penalty apply_node apply_none frames rnd self board s).2
   = Raise ValueError) /\
  (RandomPlayer_generate_move apply_node apply_none fuel rnd self board s).1 !! board
  = Some b /\
  (SmartPlayer_generate_move penalty apply_node apply_none frames rnd self board s).1
    !! board
  = Some b.
Proof.
  intros Hb Hp Hoff.
  assert (Hres : forall k colour,
            draw_result apply_node apply_none rnd k colour b = Raise ValueError).
  { intros k colour. unfold draw_result. by rewrite sample_off_board. }
  split_and!.
  - intros k colour.
    destruct (draw_result_spec apply_node apply_none rnd k colour board s b Hb)
      as (copy & -> & _).
    by rewrite Hres.
  - intros Hfuel. destruct fuel as [|fuel]; [lia|].
    unfold RandomPlayer_generate_move. rewrite Hp.
    destruct (RandomPlayer_loop_step apply_node apply_none fuel rnd 0 self board s b Hb)
      as (s1 & _ & _ & ->).
    by rewrite Hres.
  - intros Hn. unfold SmartPlayer_generate_move. rewrite Hp.
    destruct (SmartPlayer_trials_spec apply_node apply_none frames rnd self board b
                (range (Z.to_nat (_num_test self))) [] s Hb) as (s' & _ & Hloop).
    unfold mbind at 1. unfold M_bind at 1. rewrite Hloop.
    replace (Z.to_nat (_num_test self)) with (S (Z.to_nat (_num_test self) - 1)) by lia.
    unfold range. cbn [seq for_each].
    assert (Ht : trial_step apply_node apply_none frames rnd (c_goal self) board b 0 []
                 = Raise ValueError) by (unfold trial_step; by rewrite Hres).
    by rewrite Ht.
  - destruct (RandomPlayer_generate_move _ _ _ _ _ _ s) as [s' r] eqn:Hrun.
    apply RandomPlayer_generate_move_frame in Hrun. cbn [fst].
    by eapply lookup_weaken.
  - destruct (SmartPlayer_generate_move _ _ _ _ _ _ _ s) as [s' r] eqn:Hrun.
    apply SmartPlayer_generate_move_frame in Hrun. cbn [fst].
    by eapply lookup_weaken.
Qed.

Lemma generate_move_off_board_witness :
  (RandomPlayer_generate_move sample_apply_node sample_apply_none 3 sample_rnd
     (sample_smart 2) 0%nat {[ 0%nat := shifted_board ]}).2 = Raise ValueError /\
  (SmartPlayer_generate_move sample_penalty sample_apply_node sample_apply_none
     1000 sample_rnd (sample_smart 2) 0%nat {[ 0%nat := shifted_board ]}).2
  = Raise ValueError.
Proof.
  destruct (generate_move_off_board sample_penalty sample_apply_node sample_apply_none
              1000 sample_rnd 3 (sample_smart 2) 0%nat {[ 0%nat := shifted_board ]}
              shifted_board)
    as (_ & Hr & Hs & _); [reflexivity|reflexivity|left; simpl; lia|].
  split; [apply Hr; lia|apply Hs; simpl; lia].
Defined.

(** * goal.py: more on flatten *)

(** ** The ways in which [flatten] ends *)

(** X17: whatever the tree, a grid that [flatten] returns is square, of side
    2^(max_depth - level), which is at least 1, and the level of the board
    does not exceed its maximal depth.  On a board whose level exceeds its
    maximal depth [flatten] raises an exception before it looks at the colour
    or the children: [2 ** (max_depth - level)] is then a float, and the call
    raises [TypeError] at [range], unless the float has underflowed to 0.0
    (from an exponent of -1075 on), where the division before it raises
    [ZeroDivisionError], or the size or the exponent is too large for a float
    (from 2^1024 - 2^970 on), where the conversion raises [OverflowError]. *)
Theorem flatten_shape (b : Block) :
  (forall g, flatten b = Ok g ->
     level b <= max_depth b /\ square (side b) g /\ (1 <= side b)%nat /\
     Z.of_nat (side b) = 2 ^ (max_depth b - level b)) /\
  (level b - 1074 <= max_depth b < level b ->
   Z.abs (size b) < 2 ^ 1024 - 2 ^ 970 ->
   flatten b = Raise TypeError) /\
  (max_depth b < level b - 1074 ->
   level b - max_depth b < 2 ^ 1024 - 2 ^ 970 ->
   Z.abs (size b) < 2 ^ 1024 - 2 ^ 970 ->
   flatten b = Raise ZeroDivisionError) /\
  (max_depth b < level b ->
   2 ^ 1024 - 2 ^ 970 <= level b - max_depth b \/ 2 ^ 1024 - 2 ^ 970 <= Z.abs (size b) ->
   flatten b = Raise OverflowError).
Proof.
  assert (Hneg : max_depth b < level b ->
            flatten b = Raise (flatten_float (size b) (max_depth b - level b))).
  { intros Hlt. rewrite flatten_unfold.
    destruct (Z.ltb_spec (max_depth b - level b) 0); [done|lia]. }
  pose proof (Z.pow_pos_nonneg 2 970 ltac:(lia) ltac:(lia)) as Hp970.
  assert (Hbig : 2 ^ 1024 = 2 ^ 54 * 2 ^ 970) by (by rewrite <- Z.pow_add_r by lia).
  assert (H54 : 2 ^ 54 = 18014398509481984) by reflexivity.
  split_and!.
  - intros g Hg.
    assert (Hle : level b <= max_depth b).
    { rewrite flatten_unfold in Hg.
      destruct (Z.ltb_spec (max_depth b - level b) 0); [discriminate|lia]. }
    pose proof (side_pos b Hle) as Hpos.
    split_and!; [done|by apply flatten_square|lia|].
    unfold side. rewrite Z2Nat.id; [done|]. apply Z.pow_nonneg. lia.
  - intros Hlt Hsz. rewrite Hneg by lia. f_equal.
    unfold flatten_float, float_overflows, pow2_underflows.
    destruct (Z.leb_spec (2 ^ 1024 - 2 ^ 970) (Z.abs (max_depth b - level b))); [nia|].
    destruct (Z.leb_spec (2 ^ 1024 - 2 ^ 970) (Z.abs (size b))); [lia|].
    destruct (Z.ltb_spec (max_depth b - level b) (-1074)); [lia|done].
  - intros Hlt He Hsz. rewrite Hneg by lia. f_equal.
    unfold flatten_float, float_overflows, pow2_underflows.
    destruct (Z.leb_spec (2 ^ 1024 - 2 ^ 970) (Z.abs (max_depth b - level b))); [lia|].
    destruct (Z.leb_spec (2 ^ 1024 - 2 ^ 970) (Z.abs (size b))); [lia|].
    destruct (Z.ltb_spec (max_depth b - level b) (-1074)); [done|lia].
  - intros Hlt Hover. rewrite Hneg by lia. f_equal.
    unfold flatten_float, float_overflows.
    destruct (Z.leb_spec (2 ^ 1024 - 2 ^ 970) (Z.abs (max_depth b - level b))); [done|].
    destruct (Z.leb_spec (2 ^ 1024 - 2 ^ 970) (Z.abs (size b))); [done|lia].
Qed.

(** ** Moving the board *)

Lemma translate_fields (d : Z * Z) (b : Block) :
  position (translate d b) = ((position b).1 + d.1, (position b).2 + d.2) /\
  size (translate d b) = size b /\ colour (translate d b) = colour b /\
  level (translate d b) = level b /\ max_depth (translate d b) = max_depth b /\
  children (translate d b) = map (translate d) (children b).
Proof. by destruct b. Qed.

Lemma splice_translate (d : Z * Z) (b c : Block) (u : Z) (temp final : Grid) :
  splice (translate d b) (translate d c) u temp final = splice b c u temp final.
Proof.
  unfold splice. apply for_each_ext. intros [i j] s _. unfold splice_cell.
  destruct (translate_fields d b) as (-> & _). destruct (translate_fields d c) as (-> & _).
  cbn [fst snd].
  replace ((position c).1 + d.1 - ((position b).1 + d.1))
    with ((position c).1 - (position b).1) by lia.
  replace ((position c).2 + d.2 - ((position b).2 + d.2))
    with ((position c).2 - (position b).2) by lia.
  done.
Qed.

Lemma flatten_translate_eq (d : Z * Z) (b : Block) : flatten (translate d b) = flatten b.
Proof.
  induction b as [pos sz col lvl md chs IH] using Block_induction.
  rewrite !flatten_unfold. set (b := mkBlock pos sz col lvl md chs) in *.
  destruct (translate_fields d b) as (_ & Hsz & Hcol & Hlvl & Hmd & Hch).
  unfold side. rewrite Hsz, Hcol, Hlvl, Hmd, Hch.
  destruct (max_depth b - level b <? 0); [done|]. destruct (colour b); [done|].
  cbn [children b]. generalize (blank (Z.to_nat (2 ^ (max_depth b - level b)))).
  generalize (size b / 2 ^ (max_depth b - level b)). intros u.
  clearbody b. clear Hsz Hcol Hlvl Hmd Hch.
  induction IH as [|c cs Hc _ IHcs]; intros final; [done|].
  cbn [map flatten_children]. rewrite Hc. destruct (flatten c) as [temp| |]; [|done..].
  rewrite !bind_ok, splice_translate.
  destruct (splice b c u temp final) as [final'| |]; [|done..].
  rewrite !bind_ok. apply IHcs.
Qed.

(** X18: the grid of a board and the scores of the goals do not depend on
    where the board is placed: [flatten] reads the positions of the children
    relative to their parent only, so moving the whole tree by any offset
    changes neither the result of [flatten], be it a grid or an exception,
    nor the score of any goal. *)
Theorem flatten_translate (frames : nat) (d : Z * Z) (b : Block) (g : Goal) :
  flatten (translate d b) = flatten b /\
  score frames g (translate d b) = score frames g b.
Proof.
  split; [apply flatten_translate_eq|].
  unfold score, PerimeterGoal_score, BlobGoal_score.
  rewrite flatten_translate_eq.
  by destruct (kind g).
Qed.

(** ** The grid and the point location agree *)

Lemma NoDup_assigned_value (ws : list (Z * Z * option Colour)) (x y : Z)
    (v v' : option Colour) :
  NoDup ((fun w : Z * Z * option Colour => (w.1.1, w.1.2)) <$> ws) ->
  (x, y, v) ∈ ws -> (x, y, v') ∈ ws -> v = v'.
Proof.
  intros Hnd [i Hi]%list_elem_of_lookup [j Hj]%list_elem_of_lookup.
  assert (i = j) as ->; [|congruence].
  eapply NoDup_lookup; [exact Hnd| |].
  - by rewrite list_lookup_fmap, Hi.
  - by rewrite list_lookup_fmap, Hj.
Qed.

(** The cell that an assignment of [flatten] writes holds the value of the
    assignment when the call returns. *)
Lemma flatten_assigned (b : Block) (g : Grid) (X Y : nat) (v : option Colour) :
  wf_board b = true -> flatten b = Ok g ->
  (Z.of_nat X, Z.of_nat Y, v) ∈ assignments b -> cell g X Y = Some v.
Proof.
  intros Hwf Hg Hin.
  destruct (flatten_wf_main b Hwf) as (g' & Hg' & Hrep & Hnd & Hcov & _).
  assert (g' = g) as -> by congruence.
  assert (Hxy : (Z.of_nat X, Z.of_nat Y) ∈ assigned_cells b).
  { unfold assigned_cells. apply list_elem_of_fmap.
    by exists (Z.of_nat X, Z.of_nat Y, v). }
  apply Hcov in Hxy.
  destruct (replay_in_range (side b) (assignments b) (blank (side b)))
    as (g2 & Hrep2 & _ & Hcells).
  { apply square_replicate. }
  { intros [[x y] w] Hw. cbn [fst snd]. apply Hcov. unfold assigned_cells.
    apply list_elem_of_fmap. by exists (x, y, w). }
  assert (g2 = g) as -> by congruence.
  destruct (Hcells X Y) as [(v' & Hv' & ->)|[Hout _]]; [lia..| |].
  - f_equal. by eapply NoDup_assigned_value.
  - exfalso. apply Hout. apply list_elem_of_fmap.
    by exists (Z.of_nat X, Z.of_nat Y, v).
Qed.

Lemma unit_size_child (b c : Block) :
  wf_board b = true -> c ∈ children b ->
  unit_size c = unit_size b /\ side b = (2 * side c)%nat /\
  size c = unit_size b * Z.of_nat (side c) /\ 0 < unit_size b /\ (0 < side c)%nat.
Proof.
  intros Hwf Hc.
  destruct (child_facts b c Hwf Hc) as (Hcol & Hl & Hm & Hsz & Hcwf & _).
  destruct (wf_board_half b Hwf Hcol) as (Hlt & Hhalf & _).
  destruct (wf_board_unit b Hwf) as (Hu & Hb).
  destruct (wf_board_unit c Hcwf) as (Huc & Hcs).
  pose proof (side_child b c Hlt Hl Hm) as Hside.
  assert (Hpos : (0 < side c)%nat) by (apply side_pos; lia).
  fold (unit_size b) in Hu, Hb. fold (unit_size c) in Huc, Hcs.
  assert (Hsc : size c = unit_size b * Z.of_nat (side c)).
  { rewrite Hsz. rewrite Hb at 1. rewrite Hside.
    replace (unit_size b * Z.of_nat (2 * side c))
      with (unit_size b * Z.of_nat (side c) * 2) by lia.
    by rewrite Z.div_mul. }
  split_and!; try done.
  apply (Z.mul_reg_r _ _ (Z.of_nat (side c))); [lia|]. congruence.
Qed.

Lemma cell_of_inside (b : Block) (loc : Z * Z) :
  wf_board b = true -> contains b loc = true ->
  0 <= (loc.1 - (position b).1) / unit_size b < Z.of_nat (side b) /\
  0 <= (loc.2 - (position b).2) / unit_size b < Z.of_nat (side b).
Proof.
  intros Hwf Hin. apply contains_spec in Hin.
  destruct (wf_board_unit b Hwf) as (Hu & Hb). fold (unit_size b) in Hu, Hb.
  split; (split; [apply Z.div_pos; lia|apply Z.div_lt_upper_bound; lia]).
Qed.

(** X19: the grid agrees with the point location: on a board of sound
    geometry, for every location inside the board, the cell of the grid of
    [flatten] at the column and row of the unit cell that holds the location
    ([cell_of]) has the colour of the leaf that [_get_block] finds there at
    the maximal depth. *)
Theorem flatten_cell_colour (b : Block) (loc : Z * Z) :
  wf_board b = true -> contains b loc = true ->
  exists g d c,
    flatten b = Ok g /\ _get_block b loc (max_depth b) = Some d /\
    colour d = Some c /\ children d = [] /\
    cell g (cell_of b loc).1 (cell_of b loc).2 = Some (Some c).
Proof.
  revert loc.
  induction b as [pos sz col lvl md chs IH] using Block_induction.
  intros loc Hwf Hin. set (b := mkBlock pos sz col lvl md chs) in *.
  destruct (cell_of_inside b loc Hwf Hin) as (Hx & Hy).
  destruct (flatten_wf_main b Hwf) as (g & Hg & _ & _ & _ & _ & Hleaf).
  destruct (wf_board_inv b Hwf) as (Hle & _ & _ & Hkids).
  destruct (colour b) as [c0|] eqn:Hcol.
  - exists g, b, c0. split_and!; [done| |done|done|].
    + rewrite _get_block_unfold, Hin, Hcol. simpl negb. cbv iota.
      by destruct (max_depth b =? level b).
    + rewrite (Hleaf c0 eq_refl). apply cell_replicate; unfold cell_of; cbn [fst snd]; lia.
  - destruct (children_cover b loc Hwf Hcol Hin) as (c & Hc & Hcin).
    destruct (child_facts b c Hwf Hc) as (_ & Hl & Hm & Hsz & Hcwf & Hpc).
    destruct (wf_board_half b Hwf Hcol) as (Hlt & Hhalf & Hhpos).
    destruct (unit_size_child b c Hwf Hc) as (Hu & Hside & Hsc & Hupos & Hspos).
    rewrite Forall_forall in IH.
    destruct (IH c Hc loc Hcwf Hcin) as (temp & d & col' & Htemp & Hget & Hdcol & Hdch & Hcell).
    rewrite Hm in Hget.
    destruct (cell_of_inside c loc Hcwf Hcin) as (Hcx & Hcy). rewrite Hu in Hcx, Hcy.
    exists g, d, col'. split_and!; [done| |done|done|].
    + rewrite _get_block_unfold, Hin, Hcol. simpl negb. cbv iota.
      destruct (Z.eqb_spec (max_depth b) (level b)) as [Heq|_]; [lia|].
      pose proof (_get_block_children_spec (children b) loc (max_depth b)) as Hloop.
      destruct (_get_block_children (children b) loc (max_depth b)) as [d'|].
      * destruct Hloop as (i & c' & Hi & Hd' & _).
        assert (Hc' : c' ∈ children b) by (by eapply list_elem_of_lookup_2).
        destruct (_get_block_Some c' loc (max_depth b) d' Hd') as (_ & _ & Hc'in & _).
        assert (c' = c) as -> by (by eapply (children_disjoint b)).
        congruence.
      * rewrite (Hloop c Hc) in Hget. discriminate.
    + apply (flatten_assigned b g _ _ (Some col') Hwf Hg).
      unfold assignments. rewrite Hcol. apply list_elem_of_bind. exists c. split; [|done].
      rewrite Htemp. unfold child_assignments. apply list_elem_of_fmap.
      exists ((cell_of c loc).2, (cell_of c loc).1). split.
      * rewrite Hcell. cbn [default]. fold (unit_size b).
        unfold cell_of. cbn [fst snd]. rewrite Hu.
        rewrite !Z2Nat.id by lia.
        assert (Hoff : forall p q l, p = q \/ p = q + size b / 2 ->
                  (p - q) / unit_size b + (l - p) / unit_size b = (l - q) / unit_size b).
        { intros p q l [-> | ->].
          - replace (q - q) with 0 by lia. rewrite Z.div_0_l by lia. lia.
          - rewrite <- Hsz, Hsc.
            replace (q + unit_size b * Z.of_nat (side c) - q)
              with (Z.of_nat (side c) * unit_size b) by lia.
            rewrite Z.div_mul by lia.
            replace (l - q)
              with (Z.of_nat (side c) * unit_size b
                    + (l - (q + unit_size b * Z.of_nat (side c)))) by lia.
            by rewrite Z.div_add_l by lia. }
        unfold corners in Hpc. rewrite !elem_of_cons, elem_of_nil in Hpc.
        rewrite (Hoff (position c).1 (position b).1 loc.1),
          (Hoff (position c).2 (position b).2 loc.2); [done| |];
          destruct Hpc as [Hp|[Hp|[Hp|[Hp|[]]]]]; rewrite Hp; cbn [fst snd]; auto.
      * apply elem_of_range2. rewrite (flatten_length c temp Htemp).
        unfold cell_of. cbn [fst snd]. rewrite Hu. lia.
Qed.

Lemma flatten_cell_colour_witness :
  exists g d c,
    flatten sample_board = Ok g /\
    _get_block sample_board (3, 1) (max_depth sample_board) = Some d /\
    colour d = Some c /\ children d = [] /\
    cell g 1 0 = Some (Some c).
Proof.
  apply (flatten_cell_colour sample_board (3, 1)); reflexivity.
Defined.

(** * goal.py: more on the scores *)





Section Regions.

Variables (g : Grid) (target : Colour) (n : nat).
Hypothesis Hg : square n g.
Hypothesis Hn : length g = n.




End Regions.


(** ** A colour that does not occur *)








(** ** The flood fill *)





(** ** A board of one colour *)

Section Uniform.

Variables (c : Colour) (n : nat).

Local Abbreviation uniform := (replicate n (replicate n (Some c))).





End Uniform.


